(** * Order book and price-time matching of the stock trading engine

    A shallow embedding of [stock_trading_engine.py]: the array-based order
    book ([create_order_book], [get_ticker_index], [add_order]), the
    selection helper [find_best_order] and the matching pass [match_orders].

    Python values are modelled as follows.
    - An order [[order_type, ticker, quantity, price, order_id, sequence]]
      is the record [order]; positions 2, 3, 4 and 5 are the fields
      [quantity], [price], [order_id] and [sequence].
    - Quantities, identifiers, sequence numbers and prices are exact
      integers ([Z]); prices are read as a number of price ticks.
    - The order book [[ticker_symbols, buy_orders, sell_orders,
      ticker_count, next_order_id]] is the record [order_book].
    - The module global [order_sequence] is threaded explicitly.
    - Indexing a list out of range raises [IndexError] in Python; the
      outcome type records it.  The [while] loop of [match_orders] is run
      with a fuel that bounds the number of times its body is executed. *)

From Stdlib Require Import ZArith Lia Bool.
From stdpp Require Import base list strings.

(** ** Outcomes of a call *)

Inductive outcome (A : Type) : Type :=
| Ret (a : A)
| IndexError
| OutOfFuel.
Arguments Ret {A} a.
Arguments IndexError {A}.
Arguments OutOfFuel {A}.

(** Sequencing, written [x ← m; k]: an exception or the exhaustion of the
    fuel ends the call. *)
#[export] Instance outcome_bind : MBind outcome := fun A B k m =>
  match m with
  | Ret a => k a
  | IndexError => IndexError
  | OutOfFuel => OutOfFuel
  end.

(** [l[i]] for reading: raises when [i] is out of range. *)
Definition index {A : Type} (l : list A) (i : nat) : outcome A :=
  match l !! i with
  | Some a => Ret a
  | None => IndexError
  end.

(** ** Data model *)

Definition BUY : Z := 1.
Definition SELL : Z := 2.

Record order : Type := Order {
  order_type : Z;
  ticker : string;
  quantity : Z;
  price : Z;
  order_id : Z;
  sequence : Z
}.

Record order_book : Type := OrderBook {
  ticker_symbols : list (option string);
  buy_orders : list (list order);
  sell_orders : list (list order);
  ticker_count : nat;
  next_order_id : Z
}.

(** A match record [[buy_order_id, sell_order_id, ticker, matched
    quantity, execution price]]. *)
Record match_record : Type := MatchRecord {
  buy_order_id : Z;
  sell_order_id : Z;
  match_symbol : string;
  matched_quantity : Z;
  execution_price : Z
}.

Definition set_quantity (o : order) (q : Z) : order :=
  {| order_type := order_type o; ticker := ticker o; quantity := q;
     price := price o; order_id := order_id o; sequence := sequence o |}.

Definition set_next_order_id (ob : order_book) (n : Z) : order_book :=
  {| ticker_symbols := ticker_symbols ob; buy_orders := buy_orders ob;
     sell_orders := sell_orders ob; ticker_count := ticker_count ob;
     next_order_id := n |}.

Definition set_buy_orders (ob : order_book) (l : list (list order)) : order_book :=
  {| ticker_symbols := ticker_symbols ob; buy_orders := l;
     sell_orders := sell_orders ob; ticker_count := ticker_count ob;
     next_order_id := next_order_id ob |}.

Definition set_sell_orders (ob : order_book) (l : list (list order)) : order_book :=
  {| ticker_symbols := ticker_symbols ob; buy_orders := buy_orders ob;
     sell_orders := l; ticker_count := ticker_count ob;
     next_order_id := next_order_id ob |}.

(** ** [create_order_book] *)

Definition create_order_book (num_tickers : nat) : order_book :=
  {| ticker_symbols := replicate num_tickers None;
     buy_orders := replicate num_tickers [];
     sell_orders := replicate num_tickers [];
     ticker_count := 0;
     next_order_id := 1 |}.

(** ** [get_ticker_index] *)

(** The fast path [for i in range(ticker_count): if ticker_symbols[i] ==
    ticker: return i], started at index [i] with [n] indices left. *)
Fixpoint scan_tickers (symbols : list (option string)) (t : string)
    (i n : nat) : outcome (option nat) :=
  match n with
  | O => Ret None
  | S n' =>
      s ← index symbols i;
      if bool_decide (s = Some t) then Ret (Some i)
      else scan_tickers symbols t (S i) n'
  end.

(** The result [None] stands for the error code [-1]; the second component
    is the order book after the call. *)
Definition get_ticker_index (ob : order_book) (t : string)
    : outcome (option nat * order_book) :=
  found ← scan_tickers (ticker_symbols ob) t 0 (ticker_count ob);
  match found with
  | Some i => Ret (Some i, ob)
  | None =>
      if (length (ticker_symbols ob) <=? ticker_count ob)%nat then Ret (None, ob)
      else
        let idx := ticker_count ob in
        Ret (Some idx,
             {| ticker_symbols := <[idx := Some t]> (ticker_symbols ob);
                buy_orders := buy_orders ob;
                sell_orders := sell_orders ob;
                ticker_count := S (ticker_count ob);
                next_order_id := next_order_id ob |})
  end.

(** ** [add_order] *)

(** [add_order seq ob ty t q p] returns the value returned by the call, the
    new value of the global [order_sequence] and the order book after the
    call. *)
Definition add_order (order_sequence : Z) (ob : order_book)
    (ty : Z) (t : string) (q p : Z) : outcome (Z * Z * order_book) :=
  let oid := next_order_id ob in
  let ob1 := set_next_order_id ob (oid + 1)%Z in
  let order_sequence := (order_sequence + 1)%Z in
  let o := Order ty t q p oid order_sequence in
  r ← get_ticker_index ob1 t;
  let '(ticker_idx, ob2) := r in
  match ticker_idx with
  | None => Ret ((-1)%Z, order_sequence, ob2)
  | Some i =>
      if (ty =? BUY)%Z then
        l ← index (buy_orders ob2) i;
        Ret (oid, order_sequence, set_buy_orders ob2 (<[i := l ++ [o]]> (buy_orders ob2)))
      else
        l ← index (sell_orders ob2) i;
        Ret (oid, order_sequence, set_sell_orders ob2 (<[i := l ++ [o]]> (sell_orders ob2)))
  end.

(** ** [find_best_order] *)

(** [i in completed_indices]. *)
Definition is_completed (completed : list nat) (i : nat) : bool :=
  existsb (Nat.eqb i) completed.

(** The running triple [(best_idx, best_price, best_seq)]; [None] is the
    initial [best_idx == -1]. *)
Definition consider (compare_func : Z -> Z -> bool) (completed : list nat)
    (i : nat) (o : order) (best : option (nat * Z * Z)) : option (nat * Z * Z) :=
  if is_completed completed i then best
  else
    match best with
    | None => Some (i, price o, sequence o)
    | Some (_, best_price, best_seq) =>
        if compare_func (price o) best_price
           || ((price o =? best_price)%Z && (sequence o <? best_seq)%Z)
        then Some (i, price o, sequence o)
        else best
    end.

Fixpoint scan_orders (compare_func : Z -> Z -> bool) (completed : list nat)
    (i : nat) (orders : list order) (best : option (nat * Z * Z))
    : option (nat * Z * Z) :=
  match orders with
  | [] => best
  | o :: rest =>
      scan_orders compare_func completed (S i) rest
        (consider compare_func completed i o best)
  end.

(** The index of the best order, [None] when every index is completed
    (the source returns [-1]). *)
Definition find_best_order (orders : list order) (completed : list nat)
    (compare_func : Z -> Z -> bool) : option nat :=
  match scan_orders compare_func completed 0 orders None with
  | Some (i, _, _) => Some i
  | None => None
  end.

(** ** [match_orders] *)

(** The variables of the per-ticker [while] loop: the two order lists
    (their orders are updated in place), the indices marked completed, the
    list of matches of the pass so far and the loop flag. *)
Record loop_state : Type := LoopState {
  cur_buys : list order;
  cur_sells : list order;
  completed_buys : list nat;
  completed_sells : list nat;
  matches : list match_record;
  continue_matching : bool
}.

Definition set_continue (st : loop_state) (b : bool) : loop_state :=
  {| cur_buys := cur_buys st; cur_sells := cur_sells st;
     completed_buys := completed_buys st; completed_sells := completed_sells st;
     matches := matches st; continue_matching := b |}.

Definition nonempty {A : Type} (l : list A) : bool :=
  match l with [] => false | _ => true end.

(** The loop condition [continue_matching and buy_orders and sell_orders]. *)
Definition loop_condition (st : loop_state) : bool :=
  continue_matching st && nonempty (cur_buys st) && nonempty (cur_sells st).

Inductive step_result : Type :=
| Broke (st : loop_state)
| Iterated (st : loop_state).

(** The effect of a trade between [buys[bi]] and [sells[si]]. *)
Definition trade (st : loop_state) (bi si : nat) (buy sell : order) : loop_state :=
  let match_quantity := Z.min (quantity buy) (quantity sell) in
  let m := MatchRecord (order_id buy) (order_id sell) (ticker buy)
                       match_quantity (price sell) in
  let buy' := set_quantity buy (quantity buy - match_quantity)%Z in
  let sell' := set_quantity sell (quantity sell - match_quantity)%Z in
  {| cur_buys := <[bi := buy']> (cur_buys st);
     cur_sells := <[si := sell']> (cur_sells st);
     completed_buys :=
       if (quantity buy' =? 0)%Z then completed_buys st ++ [bi]
       else completed_buys st;
     completed_sells :=
       if (quantity sell' =? 0)%Z then completed_sells st ++ [si]
       else completed_sells st;
     matches := matches st ++ [m];
     continue_matching := true |}.

(** One execution of the loop body. *)
Definition loop_body (st : loop_state) : outcome step_result :=
  let st := set_continue st false in
  match find_best_order (cur_buys st) (completed_buys st) Z.gtb with
  | None => Ret (Broke st)
  | Some best_buy_idx =>
      match find_best_order (cur_sells st) (completed_sells st) Z.ltb with
      | None => Ret (Broke st)
      | Some best_sell_idx =>
          buy ← index (cur_buys st) best_buy_idx;
          sell ← index (cur_sells st) best_sell_idx;
          if (price buy >=? price sell)%Z
          then Ret (Iterated (trade st best_buy_idx best_sell_idx buy sell))
          else Ret (Iterated st)
      end
  end.

Fixpoint crossing_loop (fuel : nat) (st : loop_state) : outcome loop_state :=
  if loop_condition st then
    match fuel with
    | O => OutOfFuel
    | S fuel' =>
        r ← loop_body st;
        match r with
        | Broke st' => Ret st'
        | Iterated st' => crossing_loop fuel' st'
        end
    end
  else Ret st.

(** [[o for i, o in enumerate(orders) if i not in completed]], the
    enumeration starting at [i]. *)
Fixpoint remove_completed_from (i : nat) (orders : list order)
    (completed : list nat) : list order :=
  match orders with
  | [] => []
  | o :: rest =>
      if is_completed completed i then remove_completed_from (S i) rest completed
      else o :: remove_completed_from (S i) rest completed
  end.

Definition remove_completed (orders : list order) (completed : list nat)
    : list order :=
  remove_completed_from 0 orders completed.

(** What is stored back in a slot after the loop: the list itself when no
    index was completed, its compaction otherwise. *)
Definition settle (orders : list order) (completed : list nat) : list order :=
  if nonempty completed then remove_completed orders completed else orders.

(** The loop variables on entry: [completed_buys = []], [completed_sells =
    []], [continue_matching = True]. *)
Definition start_state (buys sells : list order) (ms : list match_record)
    : loop_state :=
  {| cur_buys := buys; cur_sells := sells;
     completed_buys := []; completed_sells := [];
     matches := ms; continue_matching := true |}.

(** The body of [for ticker_idx in range(ticker_count)]. *)
Definition match_ticker (fuel : nat) (ob : order_book)
    (ms : list match_record) (ticker_idx : nat)
    : outcome (order_book * list match_record) :=
  sym ← index (ticker_symbols ob) ticker_idx;
  match sym with
  | None => Ret (ob, ms)
  | Some _ =>
      buys ← index (buy_orders ob) ticker_idx;
      sells ← index (sell_orders ob) ticker_idx;
      if negb (nonempty buys) || negb (nonempty sells) then Ret (ob, ms)
      else
        st ← crossing_loop fuel (start_state buys sells ms);
        let ob1 :=
          set_buy_orders ob
            (<[ticker_idx := settle (cur_buys st) (completed_buys st)]>
               (buy_orders ob)) in
        let ob2 :=
          set_sell_orders ob1
            (<[ticker_idx := settle (cur_sells st) (completed_sells st)]>
               (sell_orders ob1)) in
        Ret (ob2, matches st)
  end.

Fixpoint match_tickers (fuel : nat) (idxs : list nat) (ob : order_book)
    (ms : list match_record) : outcome (order_book * list match_record) :=
  match idxs with
  | [] => Ret (ob, ms)
  | ticker_idx :: rest =>
      r ← match_ticker fuel ob ms ticker_idx;
      match_tickers fuel rest (fst r) (snd r)
  end.

Definition match_orders (fuel : nat) (ob : order_book)
    : outcome (order_book * list match_record) :=
  match_tickers fuel (seq 0 (ticker_count ob)) ob [].

(** ** Well-formed books *)

(** The three arrays have the same length (the capacity) and the ticker
    count does not exceed it. *)
Definition wf_book (ob : order_book) : Prop :=
  length (buy_orders ob) = length (ticker_symbols ob)
  /\ length (sell_orders ob) = length (ticker_symbols ob)
  /\ (ticker_count ob <= length (ticker_symbols ob))%nat.

(** ** Auxiliary notions of the statements *)

(** *** Selection *)

(** [prefers compare_func o o']: [o] is at least as good as [o'], by price
    first and by sequence number at equal prices. *)
Definition prefers (compare_func : Z -> Z -> bool) (o o' : order) : Prop :=
  compare_func (price o) (price o') = true
  \/ (price o = price o' /\ (sequence o <= sequence o')%Z).

(** What the running triple of [scan_orders] records about the orders
    already seen: it names a pending order at least as good as every
    pending order among the first [i]. *)
Definition best_of (compare_func : Z -> Z -> bool) (completed : list nat)
    (all : list order) (i : nat) (best : option (nat * Z * Z)) : Prop :=
  match best with
  | None => forall j, (j < i)%nat -> (j < length all)%nat ->
                      is_completed completed j = true
  | Some (bi, bp, bs) =>
      exists o, all !! bi = Some o /\ price o = bp /\ sequence o = bs
        /\ is_completed completed bi = false
        /\ forall j oj, (j < i)%nat -> all !! j = Some oj ->
             is_completed completed j = false -> prefers compare_func o oj
  end.

(** The two selections made by the loop body in the state [st]. *)
Definition best_buy (st : loop_state) : option nat :=
  find_best_order (cur_buys st) (completed_buys st) Z.gtb.

Definition best_sell (st : loop_state) : option nat :=
  find_best_order (cur_sells st) (completed_sells st) Z.ltb.

(** *** The crossing loop *)

(** The three ways through the body: a [break], a trade, or a best pair
    that does not cross. *)
Inductive body_spec (st : loop_state) : step_result -> Prop :=
| body_break :
    best_buy st = None \/ best_sell st = None ->
    body_spec st (Broke (set_continue st false))
| body_trade bi si buy sell :
    best_buy st = Some bi -> best_sell st = Some si ->
    cur_buys st !! bi = Some buy -> cur_sells st !! si = Some sell ->
    (price sell <= price buy)%Z ->
    body_spec st (Iterated (trade (set_continue st false) bi si buy sell))
| body_no_cross bi si buy sell :
    best_buy st = Some bi -> best_sell st = Some si ->
    cur_buys st !! bi = Some buy -> cur_sells st !! si = Some sell ->
    (price buy < price sell)%Z ->
    body_spec st (Iterated (set_continue st false)).

(** The number of indices among [i, ..., i + n - 1] not marked completed;
    [pending] counts the orders of both lists that can still be selected. *)
Fixpoint pending_from (completed : list nat) (i n : nat) : nat :=
  match n with
  | O => 0
  | S n' =>
      (if is_completed completed i then 0 else 1)
      + pending_from completed (S i) n'
  end.

Definition pending (st : loop_state) : nat :=
  pending_from (completed_buys st) 0 (length (cur_buys st))
  + pending_from (completed_sells st) 0 (length (cur_sells st)).

(** The state in which the loop has nothing left to do: one side has no
    pending order, or the best pending pair does not cross. *)
Definition quiet (st : loop_state) : Prop :=
  best_buy st = None \/ best_sell st = None
  \/ exists bi si buy sell,
       best_buy st = Some bi /\ best_sell st = Some si
       /\ cur_buys st !! bi = Some buy /\ cur_sells st !! si = Some sell
       /\ (price buy < price sell)%Z.

(** *** Slots and passes *)

(** What [match_ticker] does to the two order lists of its slot and to the
    list of matches, apart from the book around them. *)
Definition match_lists (fuel : nat) (buys sells : list order)
    (ms : list match_record)
    : outcome (list order * list order * list match_record) :=
  if negb (nonempty buys) || negb (nonempty sells) then Ret (buys, sells, ms)
  else
    st ← crossing_loop fuel (start_state buys sells ms);
    Ret (settle (cur_buys st) (completed_buys st),
         settle (cur_sells st) (completed_sells st),
         matches st).

Definition store (ob : order_book) (t : nat) (buys sells : list order)
    : order_book :=
  {| ticker_symbols := ticker_symbols ob;
     buy_orders := <[t := buys]> (buy_orders ob);
     sell_orders := <[t := sells]> (sell_orders ob);
     ticker_count := ticker_count ob;
     next_order_id := next_order_id ob |}.

(** [same_slot ob ob' j]: slot [j] has the same symbol and the same resting
    orders in both books. *)
Definition same_slot (ob ob' : order_book) (j : nat) : Prop :=
  ticker_symbols ob' !! j = ticker_symbols ob !! j
  /\ buy_orders ob' !! j = buy_orders ob !! j
  /\ sell_orders ob' !! j = sell_orders ob !! j.

(** A slot on which a matching pass has nothing to do. *)
Definition settled (ob : order_book) (t : nat) : Prop :=
  ticker_symbols ob !! t = Some None
  \/ exists s buys sells,
       ticker_symbols ob !! t = Some (Some s)
       /\ buy_orders ob !! t = Some buys /\ sell_orders ob !! t = Some sells
       /\ forall fuel ms,
            match_lists (S fuel) buys sells ms = Ret (buys, sells, ms).

(** The number of orders resting in the book. *)
Definition resting (ob : order_book) : nat :=
  sum_list_with length (buy_orders ob) + sum_list_with length (sell_orders ob).

(** A slot whose lists can be read and are short enough for the fuel. *)
Definition slot_fits (fuel : nat) (ob : order_book) (t : nat) : Prop :=
  exists sym buys sells,
    ticker_symbols ob !! t = Some sym
    /\ buy_orders ob !! t = Some buys /\ sell_orders ob !! t = Some sells
    /\ (length buys + length sells < fuel)%nat.

(** A slot whose best buy is priced below its best sell is left as it is,
    and nothing is appended to the matches. *)
Definition no_cross (ob : order_book) (t : nat) : Prop :=
  exists buys sells bi si buy sell,
    buy_orders ob !! t = Some buys /\ sell_orders ob !! t = Some sells
    /\ find_best_order buys [] Z.gtb = Some bi /\ buys !! bi = Some buy
    /\ find_best_order sells [] Z.ltb = Some si /\ sells !! si = Some sell
    /\ (price buy < price sell)%Z.

(** *** What a pass keeps of an order *)

(** Everything of an order but its remaining quantity. *)
Definition static (o : order) : order := set_quantity o 0.

(** Every order of [l] is an order of [l0], up to its remaining quantity. *)
Definition derived (l0 l : list order) : Prop :=
  forall o, o ∈ l -> exists o0, o0 ∈ l0 /\ static o0 = static o.

(** The record names a sell order of [sells] and carries its price. *)
Definition priced_by (sells : list order) (m : match_record) : Prop :=
  exists s, s ∈ sells /\ sell_order_id m = order_id s
            /\ execution_price m = price s.

Definition positive_quantity (o : order) : Prop := (0 < quantity o)%Z.

Definition positive_book (ob : order_book) : Prop :=
  Forall (Forall positive_quantity) (buy_orders ob)
  /\ Forall (Forall positive_quantity) (sell_orders ob).

(** Inside the loop the orders not yet marked completed have a positive
    remaining quantity. *)
Definition pending_positive (st : loop_state) : Prop :=
  (forall j o, cur_buys st !! j = Some o ->
     is_completed (completed_buys st) j = false -> positive_quantity o)
  /\ (forall j o, cur_sells st !! j = Some o ->
        is_completed (completed_sells st) j = false -> positive_quantity o).

(** *** The ticker registry and submissions *)

(** The ticker has a slot among the first [ticker_count]. *)
Definition registered (ob : order_book) (t : string) : Prop :=
  exists i, (i < ticker_count ob)%nat /\ ticker_symbols ob !! i = Some (Some t).

(** The registry is at capacity: [ticker_count >= len(ticker_symbols)]. *)
Definition full (ob : order_book) : Prop :=
  (length (ticker_symbols ob) <= ticker_count ob)%nat.

(** The order created by a submission. *)
Definition new_order (order_sequence : Z) (ob : order_book)
    (ty : Z) (t : string) (q p : Z) : order :=
  Order ty t q p (next_order_id ob) (order_sequence + 1).

(** The collection of a side: the buy orders for [BUY], the sell orders
    for any other order type. *)
Definition side (ty : Z) (ob : order_book) : list (list order) :=
  if (ty =? BUY)%Z then buy_orders ob else sell_orders ob.

(** *** Sequences of calls *)

(** A call of the engine: a submission or a matching pass. *)
Inductive call : Type :=
| Submit (ty : Z) (t : string) (q p : Z)
| MatchPass (fuel : nat).

(** The state is the global [order_sequence] with the order book. *)
Definition do_call (s : Z * order_book) (c : call) : outcome (Z * order_book) :=
  match c with
  | Submit ty t q p =>
      r ← add_order (fst s) (snd s) ty t q p;
      Ret (snd (fst r), snd r)
  | MatchPass fuel =>
      r ← match_orders fuel (snd s);
      Ret (fst s, fst r)
  end.

Fixpoint run (s : Z * order_book) (calls : list call)
    : outcome (Z * order_book) :=
  match calls with
  | [] => Ret s
  | c :: rest => s' ← do_call s c; run s' rest
  end.

(** ** Example books *)

Definition order_B1 : order := Order BUY "ACME" 10 10 1 1.
Definition order_B2 : order := Order BUY "ACME" 10 10 2 2.
Definition order_S1 : order := Order SELL "ACME" 5 9 3 3.

(** Two buys at the same price and a cheaper sell, in a book of capacity
    two. *)
Definition crossing_book : order_book :=
  {| ticker_symbols := [Some "ACME"; None];
     buy_orders := [[order_B1; order_B2]; []];
     sell_orders := [[order_S1]; []];
     ticker_count := 1;
     next_order_id := 4 |}.

Definition crossing_book_after : order_book :=
  {| ticker_symbols := [Some "ACME"; None];
     buy_orders := [[set_quantity order_B1 5; order_B2]; []];
     sell_orders := [[]; []];
     ticker_count := 1;
     next_order_id := 4 |}.

(** A buy at 9 against a sell at 10. *)
Definition apart_book : order_book :=
  {| ticker_symbols := [Some "ACME"; None];
     buy_orders := [[Order BUY "ACME" 5 9 1 1]; []];
     sell_orders := [[Order SELL "ACME" 5 10 2 2]; []];
     ticker_count := 1;
     next_order_id := 3 |}.

(** A book of capacity one whose only slot is taken. *)
Definition full_book : order_book :=
  {| ticker_symbols := [Some "ACME"];
     buy_orders := [[Order BUY "ACME" 10 10 1 1]];
     sell_orders := [[]];
     ticker_count := 1;
     next_order_id := 2 |}.

(** The loop variables on entry for the slot of [crossing_book], and after
    the first execution of the body. *)
Definition crossing_state : loop_state :=
  start_state [order_B1; order_B2] [order_S1] [].

Definition crossing_state_after : loop_state :=
  {| cur_buys := [set_quantity order_B1 5; order_B2];
     cur_sells := [set_quantity order_S1 0];
     completed_buys := [];
     completed_sells := [0%nat];
     matches := [MatchRecord 1 3 "ACME" 5 9];
     continue_matching := true |}.

(** ** Notions of the further properties *)

(** The scan of [get_ticker_index] finds the ticker at index [i]. *)
Definition resolves (ob : order_book) (t : string) (i : nat) : Prop :=
  scan_tickers (ticker_symbols ob) t 0 (ticker_count ob) = Ret (Some i).

(** The registry of [ob'] continues the registry of [ob]: it has at least as
    many tickers and the same symbols in the slots [ob] had assigned. *)
Definition registry_extends (ob ob' : order_book) : Prop :=
  (ticker_count ob <= ticker_count ob')%nat
  /\ forall k, (k < ticker_count ob)%nat ->
       ticker_symbols ob' !! k = ticker_symbols ob !! k.

(** No ticker has two of the assigned slots. *)
Definition distinct_slots (ob : order_book) : Prop :=
  forall i j t, (i < ticker_count ob)%nat -> (j < ticker_count ob)%nat ->
    ticker_symbols ob !! i = Some (Some t) ->
    ticker_symbols ob !! j = Some (Some t) -> i = j.

(** The call is a submission for the ticker [t]. *)
Definition submits (t : string) (c : call) : Prop :=
  exists ty q p, c = Submit ty t q p.

(** The total remaining quantity of a collection, of a side of the book,
    and the total quantity of a list of match records. *)
Definition sum_quantity (l : list order) : Z :=
  foldr (fun o a => (quantity o + a)%Z) 0%Z l.

Definition book_quantity (ls : list (list order)) : Z :=
  foldr (fun l a => (sum_quantity l + a)%Z) 0%Z ls.

Definition total_matched (ms : list match_record) : Z :=
  foldr (fun m a => (matched_quantity m + a)%Z) 0%Z ms.

(** The orders at the indices marked completed have no quantity left. *)
Definition completed_zero (l : list order) (c : list nat) : Prop :=
  forall j o, l !! j = Some o -> is_completed c j = true -> quantity o = 0%Z.

Definition conserves (buys sells : list order) (ms : list match_record)
    (st : loop_state) : Prop :=
  (sum_quantity (cur_buys st) + total_matched (matches st)
   = sum_quantity buys + total_matched ms)%Z
  /\ (sum_quantity (cur_sells st) + total_matched (matches st)
      = sum_quantity sells + total_matched ms)%Z
  /\ completed_zero (cur_buys st) (completed_buys st)
  /\ completed_zero (cur_sells st) (completed_sells st).

(** The record pairs a buy order of [buys] with a sell order of [sells]
    that it crosses: it carries their ids, the buy order's ticker and the
    sell order's price, which does not exceed the buy order's price. *)
Definition paired (buys sells : list order) (m : match_record) : Prop :=
  exists b s, b ∈ buys /\ s ∈ sells
    /\ buy_order_id m = order_id b /\ sell_order_id m = order_id s
    /\ match_symbol m = ticker b
    /\ execution_price m = price s /\ (price s <= price b)%Z.

(** [o] is [o0] with a remaining quantity between zero and that of [o0]. *)
Definition shrinks (o0 o : order) : Prop :=
  static o0 = static o /\ (0 <= quantity o <= quantity o0)%Z.

(** The record fills a buy order of [buys] against a sell order of [sells]
    with a positive quantity that exceeds the quantity of neither. *)
Definition filled (buys sells : list order) (m : match_record) : Prop :=
  exists b s, b ∈ buys /\ s ∈ sells
    /\ buy_order_id m = order_id b /\ sell_order_id m = order_id s
    /\ (0 < matched_quantity m)%Z
    /\ (matched_quantity m <= quantity b)%Z
    /\ (matched_quantity m <= quantity s)%Z.

(** The loop on lists of positive orders: quantities only go down, never
    below zero, and every record is a fill. *)
Definition filling (buys sells : list order) (ms : list match_record)
    (st : loop_state) : Prop :=
  Forall2 shrinks buys (cur_buys st)
  /\ Forall2 shrinks sells (cur_sells st)
  /\ pending_positive st
  /\ forall m, m ∈ matches st -> m ∈ ms \/ filled buys sells m.

(** After the loop, what is left of the positive orders. *)
Definition remains (l0 l' : list order) : Prop :=
  forall o', o' ∈ l' ->
    exists o, o ∈ l0 /\ static o = static o'
              /\ (0 < quantity o' <= quantity o)%Z.

(** A book with two crossing buys and two sells, one of which is out of
    reach. *)
Definition deep_book : order_book :=
  {| ticker_symbols := [Some "ACME"; None];
     buy_orders := [[Order BUY "ACME" 10 10 1 1; Order BUY "ACME" 3 8 2 2]; []];
     sell_orders := [[Order SELL "ACME" 4 9 3 3; Order SELL "ACME" 5 12 4 4]; []];
     ticker_count := 1;
     next_order_id := 5 |}.

Definition deep_book_after : order_book :=
  {| ticker_symbols := [Some "ACME"; None];
     buy_orders := [[Order BUY "ACME" 6 10 1 1; Order BUY "ACME" 3 8 2 2]; []];
     sell_orders := [[Order SELL "ACME" 5 12 4 4]; []];
     ticker_count := 1;
     next_order_id := 5 |}.

(** The loop state with [ms0] in front of its matches. *)
Definition prepend (ms0 : list match_record) (st : loop_state) : loop_state :=
  {| cur_buys := cur_buys st; cur_sells := cur_sells st;
     completed_buys := completed_buys st; completed_sells := completed_sells st;
     matches := ms0 ++ matches st; continue_matching := continue_matching st |}.

Definition prepend_result (ms0 : list match_record) (r : step_result)
    : step_result :=
  match r with
  | Broke st => Broke (prepend ms0 st)
  | Iterated st => Iterated (prepend ms0 st)
  end.

(** The pass, slot by slot: its result in a slot and the records the slot
    contributes, as matching that slot of the book [ob] on its own. *)
Definition slot_outcome (fuel : nat) (ob ob' : order_book) (t : nat)
    (new : list match_record) : Prop :=
  exists ob_t,
    match_ticker fuel ob [] t = Ret (ob_t, new)
    /\ buy_orders ob' !! t = buy_orders ob_t !! t
    /\ sell_orders ob' !! t = sell_orders ob_t !! t.

(** A buy of 10 at 10 against a sell of 4 at 9. *)
Definition apart_book_crossed : order_book :=
  {| ticker_symbols := [Some "ACME"];
     buy_orders := [[Order BUY "ACME" 10 10 1 1]];
     sell_orders := [[Order SELL "ACME" 4 9 2 2]];
     ticker_count := 1;
     next_order_id := 3 |}.

(** Two symbols, each with a crossing pair. *)
Definition two_symbol_book : order_book :=
  {| ticker_symbols := [Some "ACME"; Some "INIT"];
     buy_orders := [[Order BUY "ACME" 5 10 1 1]; [Order BUY "INIT" 2 7 3 3]];
     sell_orders := [[Order SELL "ACME" 5 9 2 2]; [Order SELL "INIT" 4 6 4 4]];
     ticker_count := 2;
     next_order_id := 5 |}.

Definition two_symbol_book_after : order_book :=
  {| ticker_symbols := [Some "ACME"; Some "INIT"];
     buy_orders := [[]; []];
     sell_orders := [[]; [Order SELL "INIT" 2 6 4 4]];
     ticker_count := 2;
     next_order_id := 5 |}.

(** [a] was submitted before [b]: smaller order id and smaller sequence
    number. *)
Definition earlier (a b : order) : Prop :=
  (order_id a < order_id b)%Z /\ (sequence a < sequence b)%Z.

(** The orders of a collection are in arrival order. *)
Fixpoint in_arrival_order (l : list order) : Prop :=
  match l with
  | [] => True
  | o :: rest => Forall (earlier o) rest /\ in_arrival_order rest
  end.

(** The order was issued before the counters reached [n] and [s]. *)
Definition issued_before (n s : Z) (o : order) : Prop :=
  (order_id o < n)%Z /\ (sequence o <= s)%Z.

Definition collection_ordered (n s : Z) (l : list order) : Prop :=
  in_arrival_order l /\ Forall (issued_before n s) l.

(** Every collection of the book is in arrival order and holds only orders
    issued before the current values of the two counters. *)
Definition arrival_ordered (s : Z * order_book) : Prop :=
  Forall (collection_ordered (next_order_id (snd s)) (fst s)) (buy_orders (snd s))
  /\ Forall (collection_ordered (next_order_id (snd s)) (fst s))
       (sell_orders (snd s)).

(** A submission of the sequence asks for a positive quantity. *)
Definition positive_call (c : call) : Prop :=
  match c with
  | Submit _ _ q _ => (0 < q)%Z
  | MatchPass _ => True
  end.

(** The update of the seed in [random], the linear congruential generator
    of [simulate_trading]:
    [seed = (1103515245 * seed + 12345) & 0x7fffffff]. *)
Definition next_seed (seed : Z) : Z :=
  Z.land (1103515245 * seed + 12345) 2147483647.

(** * Properties *)

(** ** Outcomes *)

Lemma bind_Ret {A B : Type} (m : outcome A) (k : A -> outcome B) (b : B) :
  (x ← m; k x) = Ret b -> exists a, m = Ret a /\ k a = Ret b.
Proof. destruct m as [a| |]; simpl; intros H; try discriminate. eauto. Qed.

Lemma index_Ret {A : Type} (l : list A) (i : nat) (a : A) :
  index l i = Ret a <-> l !! i = Some a.
Proof.
  unfold index. destruct (l !! i); split; intros H; congruence.
Qed.

Lemma index_lt {A : Type} (l : list A) (i : nat) :
  (i < length l)%nat -> exists a, index l i = Ret a /\ l !! i = Some a.
Proof.
  intros H. destruct (lookup_lt_is_Some_2 l i H) as [a Ha].
  exists a. split; [by apply index_Ret | done].
Qed.

(** ** Completed indices *)

Lemma is_completed_app (c : list nat) (i j : nat) :
  is_completed (c ++ [j]) i = is_completed c i || (i =? j)%nat.
Proof.
  unfold is_completed. rewrite existsb_app. simpl. by rewrite orb_false_r.
Qed.

(** ** Selection of the best order *)

Section Selection.
Variable compare_func : Z -> Z -> bool.
Hypothesis compare_trans : forall a b c,
  compare_func a b = true -> compare_func b c = true -> compare_func a c = true.
Hypothesis compare_total : forall a b,
  a = b \/ compare_func a b = true \/ compare_func b a = true.

Variable completed : list nat.

Lemma prefers_trans (a b c : order) :
  prefers compare_func a b -> prefers compare_func b c ->
  prefers compare_func a c.
Proof using compare_trans.
  unfold prefers. intros [H1|[H1 H1']] [H2|[H2 H2']].
  - left. eauto.
  - left. by rewrite <- H2.
  - left. by rewrite H1.
  - right. split; [congruence | lia].
Qed.

Lemma consider_best_of (all : list order) (i : nat) (o : order) best :
  all !! i = Some o ->
  best_of compare_func completed all i best ->
  best_of compare_func completed all (S i) (consider compare_func completed i o best).
Proof using compare_trans compare_total.
  intros Hi Hbest. unfold consider.
  destruct (is_completed completed i) eqn:Hc.
  - destruct best as [[[bi bp] bs]|]; simpl in *.
    + destruct Hbest as (ob & Hb & Hp & Hs & Hnc & Hall).
      exists ob. repeat split; try done.
      intros j oj Hj Hl Hcj. destruct (decide (j = i)) as [->|Hne].
      * congruence.
      * apply (Hall j); [lia | done | done].
    + intros j Hj Hlen. destruct (decide (j = i)) as [->|Hne]; [done|].
      apply Hbest; [lia | done].
  - destruct best as [[[bi bp] bs]|]; simpl in *.
    + destruct Hbest as (ob & Hb & Hp & Hs & Hnc & Hall).
      destruct (compare_func (price o) bp
                || ((price o =? bp)%Z && (sequence o <? bs)%Z)) eqn:Hcmp.
      * assert (Hpref : prefers compare_func o ob).
        { apply orb_true_iff in Hcmp as [Hcmp|Hcmp].
          - left. by rewrite Hp.
          - apply andb_true_iff in Hcmp as [He Hl].
            apply Z.eqb_eq in He. apply Z.ltb_lt in Hl.
            right. split; [congruence | lia]. }
        exists o. repeat split; try done.
        intros j oj Hj Hl Hcj. destruct (decide (j = i)) as [->|Hne].
        -- assert (oj = o) by congruence. subst oj. right. split; [done | lia].
        -- eapply prefers_trans; [exact Hpref|].
           apply (Hall j); [lia | done | done].
      * apply orb_false_iff in Hcmp as [Hcmp1 Hcmp2].
        exists ob. repeat split; try done.
        intros j oj Hj Hl Hcj. destruct (decide (j = i)) as [->|Hne].
        -- assert (oj = o) by congruence. subst oj.
           destruct (compare_total (price ob) (price o)) as [He|[Hlt|Hgt]].
           ++ right. split; [done|].
              apply andb_false_iff in Hcmp2 as [Hne|Hge].
              ** apply Z.eqb_neq in Hne. congruence.
              ** apply Z.ltb_ge in Hge. lia.
           ++ by left.
           ++ rewrite Hp in Hgt. congruence.
        -- apply (Hall j); [lia | done | done].
    + exists o. repeat split; try done.
      intros j oj Hj Hl Hcj. destruct (decide (j = i)) as [->|Hne].
      * assert (oj = o) by congruence. subst oj. right. split; [done | lia].
      * apply lookup_lt_Some in Hl.
        specialize (Hbest j ltac:(lia) Hl). congruence.
Qed.

Lemma scan_orders_best_of (all pre rest : list order) best :
  all = pre ++ rest ->
  best_of compare_func completed all (length pre) best ->
  best_of compare_func completed all (length all)
    (scan_orders compare_func completed (length pre) rest best).
Proof using compare_trans compare_total.
  revert pre best. induction rest as [|o rest IH]; intros pre best Hall Hbest.
  - simpl. rewrite app_nil_r in Hall. subst all. exact Hbest.
  - simpl.
    assert (Hlook : all !! length pre = Some o).
    { rewrite Hall. by rewrite list_lookup_middle. }
    specialize (IH (pre ++ [o]) (consider compare_func completed (length pre) o best)).
    rewrite length_app in IH. simpl in IH.
    replace (length pre + 1)%nat with (S (length pre)) in IH by lia.
    apply IH.
    + rewrite Hall. by rewrite <- app_assoc.
    + by apply consider_best_of.
Qed.

(** The selected index names a pending order preferred to every pending
    order of the list. *)
Lemma find_best_order_Some (orders : list order) (i : nat) :
  find_best_order orders completed compare_func = Some i ->
  exists o, orders !! i = Some o
    /\ is_completed completed i = false
    /\ forall j oj, orders !! j = Some oj ->
         is_completed completed j = false -> prefers compare_func o oj.
Proof using compare_trans compare_total.
  unfold find_best_order. intros H.
  assert (H0 : best_of compare_func completed orders 0 None) by (simpl; intros; lia).
  pose proof (scan_orders_best_of orders [] orders None eq_refl H0) as Hs.
  simpl in Hs.
  destruct (scan_orders compare_func completed 0 orders None)
    as [[[bi bp] bs]|]; [|discriminate].
  injection H as ->. simpl in Hs.
  destruct Hs as (o & Ho & _ & _ & Hc & Hall).
  exists o. repeat split; try done.
  intros j oj Hj Hcj. apply (Hall j); [|done|done].
  by apply lookup_lt_Some in Hj.
Qed.

(** No index is selected exactly when every index is completed. *)
Lemma find_best_order_None (orders : list order) :
  find_best_order orders completed compare_func = None ->
  forall j, (j < length orders)%nat -> is_completed completed j = true.
Proof using compare_trans compare_total.
  unfold find_best_order. intros H.
  assert (H0 : best_of compare_func completed orders 0 None) by (simpl; intros; lia).
  pose proof (scan_orders_best_of orders [] orders None eq_refl H0) as Hs.
  simpl in Hs.
  destruct (scan_orders compare_func completed 0 orders None)
    as [[[bi bp] bs]|]; [discriminate|].
  simpl in Hs. intros j Hj. by apply Hs.
Qed.

Lemma find_best_order_pending (orders : list order) (j : nat) :
  (j < length orders)%nat -> is_completed completed j = false ->
  exists i, find_best_order orders completed compare_func = Some i.
Proof using compare_trans compare_total.
  intros Hj Hc.
  destruct (find_best_order orders completed compare_func) as [i|] eqn:E;
    [eauto|].
  pose proof (find_best_order_None orders E j Hj). congruence.
Qed.
End Selection.

Lemma gtb_trans (a b c : Z) :
  (a >? b)%Z = true -> (b >? c)%Z = true -> (a >? c)%Z = true.
Proof. rewrite !Z.gtb_ltb, !Z.ltb_lt. lia. Qed.

Lemma gtb_total (a b : Z) : a = b \/ (a >? b)%Z = true \/ (b >? a)%Z = true.
Proof. rewrite !Z.gtb_ltb, !Z.ltb_lt. lia. Qed.

Lemma ltb_trans (a b c : Z) :
  (a <? b)%Z = true -> (b <? c)%Z = true -> (a <? c)%Z = true.
Proof. rewrite !Z.ltb_lt. lia. Qed.

Lemma ltb_total (a b : Z) : a = b \/ (a <? b)%Z = true \/ (b <? a)%Z = true.
Proof. rewrite !Z.ltb_lt. lia. Qed.

(** ** One execution of the loop body *)

Lemma best_buy_Some (st : loop_state) (i : nat) :
  best_buy st = Some i ->
  exists o, cur_buys st !! i = Some o
    /\ is_completed (completed_buys st) i = false
    /\ forall j oj, cur_buys st !! j = Some oj ->
         is_completed (completed_buys st) j = false ->
         (price oj <= price o)%Z.
Proof.
  intros H. apply (find_best_order_Some _ gtb_trans gtb_total) in H.
  destruct H as (o & Ho & Hc & Hall). exists o. repeat split; try done.
  intros j oj Hj Hcj. destruct (Hall j oj Hj Hcj) as [Hgt|[He _]].
  - rewrite Z.gtb_ltb, Z.ltb_lt in Hgt. lia.
  - lia.
Qed.

Lemma best_sell_Some (st : loop_state) (i : nat) :
  best_sell st = Some i ->
  exists o, cur_sells st !! i = Some o
    /\ is_completed (completed_sells st) i = false
    /\ forall j oj, cur_sells st !! j = Some oj ->
         is_completed (completed_sells st) j = false ->
         (price o <= price oj)%Z.
Proof.
  intros H. apply (find_best_order_Some _ ltb_trans ltb_total) in H.
  destruct H as (o & Ho & Hc & Hall). exists o. repeat split; try done.
  intros j oj Hj Hcj. destruct (Hall j oj Hj Hcj) as [Hlt|[He _]].
  - rewrite Z.ltb_lt in Hlt. lia.
  - lia.
Qed.

Lemma loop_body_spec (st : loop_state) :
  exists r, loop_body st = Ret r /\ body_spec st r.
Proof.
  unfold loop_body. simpl.
  destruct (find_best_order (cur_buys st) (completed_buys st) Z.gtb)
    as [bi|] eqn:Hb.
  2:{ eexists. split; [reflexivity|]. apply body_break. by left. }
  destruct (find_best_order (cur_sells st) (completed_sells st) Z.ltb)
    as [si|] eqn:Hs.
  2:{ eexists. split; [reflexivity|]. apply body_break. by right. }
  destruct (best_buy_Some st bi Hb) as (buy & Hbuy & _).
  destruct (best_sell_Some st si Hs) as (sell & Hsell & _).
  unfold index. rewrite Hbuy, Hsell. simpl.
  destruct (price buy >=? price sell)%Z eqn:Hge.
  - eexists. split; [reflexivity|].
    apply body_trade; try done. rewrite Z.geb_leb, Z.leb_le in Hge. lia.
  - eexists. split; [reflexivity|].
    eapply body_no_cross; try done. rewrite Z.geb_leb, Z.leb_gt in Hge. lia.
Qed.

Lemma loop_body_Ret (st : loop_state) (r : step_result) :
  loop_body st = Ret r -> body_spec st r.
Proof.
  intros H. destruct (loop_body_spec st) as (r' & Hr & Hspec). congruence.
Qed.

(** ** Termination measure: the number of pending orders *)

Lemma pending_from_le_length (c : list nat) (i n : nat) :
  (pending_from c i n <= n)%nat.
Proof.
  revert i. induction n as [|n IH]; intros i; simpl; [lia|].
  specialize (IH (S i)). destruct (is_completed c i); lia.
Qed.

Lemma pending_from_mono (c c' : list nat) (i n : nat) :
  (forall j, is_completed c j = true -> is_completed c' j = true) ->
  (pending_from c' i n <= pending_from c i n)%nat.
Proof.
  intros Hsub. revert i. induction n as [|n IH]; intros i; simpl; [lia|].
  specialize (IH (S i)).
  destruct (is_completed c i) eqn:E.
  - rewrite (Hsub i E). lia.
  - destruct (is_completed c' i); lia.
Qed.

Lemma pending_from_drop (c c' : list nat) (i n b : nat) :
  (forall j, is_completed c j = true -> is_completed c' j = true) ->
  (i <= b < i + n)%nat ->
  is_completed c b = false -> is_completed c' b = true ->
  (pending_from c' i n < pending_from c i n)%nat.
Proof.
  intros Hsub. revert i. induction n as [|n IH]; intros i Hb Hc Hc'; [lia|].
  simpl. destruct (decide (b = i)) as [->|Hne].
  - rewrite Hc, Hc'. pose proof (pending_from_mono c c' (S i) n Hsub). lia.
  - specialize (IH (S i) ltac:(lia) Hc Hc').
    destruct (is_completed c i) eqn:E.
    + rewrite (Hsub i E). lia.
    + destruct (is_completed c' i); lia.
Qed.

Lemma pending_set_continue (st : loop_state) (b : bool) :
  pending (set_continue st b) = pending st.
Proof. reflexivity. Qed.

(** A trade completes at least one of the two orders, so it removes at
    least one pending order. *)
Lemma trade_pending (st : loop_state) (bi si : nat) (buy sell : order) :
  cur_buys st !! bi = Some buy -> cur_sells st !! si = Some sell ->
  is_completed (completed_buys st) bi = false ->
  is_completed (completed_sells st) si = false ->
  (pending (trade st bi si buy sell) < pending st)%nat.
Proof.
  intros Hb Hs Hcb Hcs. unfold pending, trade. simpl.
  rewrite !length_insert.
  apply lookup_lt_Some in Hb. apply lookup_lt_Some in Hs.
  set (q := Z.min (quantity buy) (quantity sell)).
  assert (Hq : q = quantity buy \/ q = quantity sell) by (unfold q; lia).
  assert (Hmb : forall c b, forall j,
             is_completed c j = true -> is_completed (c ++ [b]) j = true).
  { intros c b j Hj. rewrite is_completed_app, Hj. done. }
  destruct (quantity buy - q =? 0)%Z eqn:Eb;
    destruct (quantity sell - q =? 0)%Z eqn:Es.
  - pose proof (pending_from_drop (completed_buys st) (completed_buys st ++ [bi])
                  0 (length (cur_buys st)) bi (Hmb _ _) ltac:(lia) Hcb) as H1.
    rewrite is_completed_app, Nat.eqb_refl, orb_true_r in H1.
    specialize (H1 eq_refl).
    pose proof (pending_from_mono (completed_sells st) (completed_sells st ++ [si])
                  0 (length (cur_sells st)) (Hmb _ _)). lia.
  - pose proof (pending_from_drop (completed_buys st) (completed_buys st ++ [bi])
                  0 (length (cur_buys st)) bi (Hmb _ _) ltac:(lia) Hcb) as H1.
    rewrite is_completed_app, Nat.eqb_refl, orb_true_r in H1.
    specialize (H1 eq_refl). lia.
  - pose proof (pending_from_drop (completed_sells st) (completed_sells st ++ [si])
                  0 (length (cur_sells st)) si (Hmb _ _) ltac:(lia) Hcs) as H1.
    rewrite is_completed_app, Nat.eqb_refl, orb_true_r in H1.
    specialize (H1 eq_refl). lia.
  - apply Z.eqb_neq in Eb, Es. lia.
Qed.

(** Enough fuel: one more than the number of pending orders. *)
Lemma crossing_loop_returns (fuel : nat) (st : loop_state) :
  (pending st < fuel)%nat -> exists st', crossing_loop fuel st = Ret st'.
Proof.
  revert st. induction fuel as [|fuel IH]; intros st Hlt; [lia|].
  simpl. destruct (loop_condition st); [|eauto].
  destruct (loop_body_spec st) as (r & Hr & Hspec). rewrite Hr. simpl.
  destruct Hspec as [Hnone | bi si buy sell Hbi Hsi Hb Hs Hle
                    | bi si buy sell Hbi Hsi Hb Hs Hlt'].
  - eauto.
  - apply IH.
    destruct (best_buy_Some st bi Hbi) as (? & _ & Hcb & _).
    destruct (best_sell_Some st si Hsi) as (? & _ & Hcs & _).
    pose proof (trade_pending (set_continue st false) bi si buy sell
                  Hb Hs Hcb Hcs) as Hdrop.
    rewrite pending_set_continue in Hdrop. lia.
  - destruct fuel; simpl; eauto.
Qed.

(** ** Invariants of the crossing loop *)

(** A property kept by clearing the flag and by every trade between the
    selected best pair is kept by the whole loop. *)
Lemma crossing_loop_invariant (P : loop_state -> Prop) :
  (forall st, P st -> P (set_continue st false)) ->
  (forall st bi si buy sell,
     P st -> best_buy st = Some bi -> best_sell st = Some si ->
     cur_buys st !! bi = Some buy -> cur_sells st !! si = Some sell ->
     (price sell <= price buy)%Z ->
     P (trade st bi si buy sell)) ->
  forall fuel st st',
    P st -> crossing_loop fuel st = Ret st' -> P st'.
Proof.
  intros Hflag Htrade. induction fuel as [|fuel IH]; intros st st' HP Hrun.
  - simpl in Hrun. destruct (loop_condition st); [discriminate|]. congruence.
  - simpl in Hrun. destruct (loop_condition st); [|congruence].
    apply bind_Ret in Hrun as (r & Hr & Hrun).
    apply loop_body_Ret in Hr.
    destruct Hr as [Hnone | bi si buy sell Hbi Hsi Hb Hs Hle
                   | bi si buy sell Hbi Hsi Hb Hs Hlt].
    + injection Hrun as <-. by apply Hflag.
    + apply (IH _ _ (Htrade _ bi si buy sell (Hflag _ HP) Hbi Hsi Hb Hs Hle) Hrun).
    + apply (IH _ _ (Hflag _ HP) Hrun).
Qed.

Lemma quiet_set_continue (st : loop_state) (b : bool) :
  quiet (set_continue st b) <-> quiet st.
Proof. reflexivity. Qed.

Lemma loop_condition_false (st : loop_state) :
  loop_condition st = false ->
  continue_matching st = false \/ cur_buys st = [] \/ cur_sells st = [].
Proof.
  unfold loop_condition. destruct (continue_matching st); [|by left].
  destruct (cur_buys st); [by right; left|].
  destruct (cur_sells st); [by right; right|]. discriminate.
Qed.

Lemma crossing_loop_quiet (fuel : nat) (st st' : loop_state) :
  (continue_matching st = false -> quiet st) ->
  crossing_loop fuel st = Ret st' -> quiet st'.
Proof.
  revert st. induction fuel as [|fuel IH]; intros st Hq Hrun; simpl in Hrun.
  - destruct (loop_condition st) eqn:Hc; [discriminate|].
    injection Hrun as <-.
    destruct (loop_condition_false st Hc) as [H|[H|H]]; [by apply Hq| |].
    + left. unfold best_buy. by rewrite H.
    + right; left. unfold best_sell. by rewrite H.
  - destruct (loop_condition st) eqn:Hc.
    + apply bind_Ret in Hrun as (r & Hr & Hrun).
      apply loop_body_Ret in Hr.
      destruct Hr as [Hnone | bi si buy sell Hbi Hsi Hb Hs Hle
                     | bi si buy sell Hbi Hsi Hb Hs Hlt].
      * injection Hrun as <-. apply quiet_set_continue.
        destruct Hnone; [by left | by right; left].
      * eapply IH; [|exact Hrun]. simpl. discriminate.
      * apply (IH (set_continue st false)); [|done].
        intros _. right; right. exists bi, si, buy, sell. done.
    + injection Hrun as <-.
      destruct (loop_condition_false st Hc) as [H|[H|H]]; [by apply Hq| |].
      * left. unfold best_buy. by rewrite H.
      * right; left. unfold best_sell. by rewrite H.
Qed.

(** A best pair that does not cross ends the loop after one execution of
    the body, with no match and no completed order. *)
Lemma crossing_loop_no_cross (fuel : nat) (st : loop_state)
    (bi si : nat) (buy sell : order) :
  continue_matching st = true ->
  best_buy st = Some bi -> best_sell st = Some si ->
  cur_buys st !! bi = Some buy -> cur_sells st !! si = Some sell ->
  (price buy < price sell)%Z ->
  crossing_loop (S fuel) st = Ret (set_continue st false).
Proof.
  intros Hc Hbi Hsi Hb Hs Hlt. simpl.
  assert (Hcond : loop_condition st = true).
  { unfold loop_condition. rewrite Hc.
    destruct (cur_buys st); [done|]. destruct (cur_sells st); done. }
  rewrite Hcond. unfold loop_body, best_buy, best_sell in *. simpl.
  rewrite Hbi, Hsi. unfold index. rewrite Hb, Hs. simpl.
  assert (Hge : (price buy >=? price sell)%Z = false).
  { rewrite Z.geb_leb. apply Z.leb_gt. lia. }
  rewrite Hge. destruct fuel; reflexivity.
Qed.

(** ** Compaction *)

Lemma remove_completed_from_elem (i : nat) (orders : list order)
    (c : list nat) (o : order) :
  o ∈ remove_completed_from i orders c ->
  exists k, orders !! k = Some o /\ is_completed c (i + k) = false.
Proof.
  revert i. induction orders as [|x rest IH]; intros i H; simpl in H.
  - by apply elem_of_nil in H.
  - destruct (is_completed c i) eqn:E.
    + destruct (IH _ H) as (k & Hk & Hc). exists (S k). split; [done|].
      by replace (i + S k)%nat with (S i + k)%nat by lia.
    + apply elem_of_cons in H as [->|H].
      * exists 0%nat. split; [done|]. by rewrite Nat.add_0_r.
      * destruct (IH _ H) as (k & Hk & Hc). exists (S k). split; [done|].
        by replace (i + S k)%nat with (S i + k)%nat by lia.
Qed.

Lemma settle_elem (orders : list order) (c : list nat) (o : order) :
  o ∈ settle orders c ->
  exists k, orders !! k = Some o /\ is_completed c k = false.
Proof.
  unfold settle. destruct (nonempty c) eqn:E.
  - intros H. by apply (remove_completed_from_elem 0) in H.
  - destruct c; [|discriminate]. intros H.
    apply list_elem_of_lookup in H as [k Hk]. eauto.
Qed.

(** ** One ticker slot *)

Lemma store_same (ob : order_book) (t : nat) (buys sells : list order) :
  buy_orders ob !! t = Some buys -> sell_orders ob !! t = Some sells ->
  store ob t buys sells = ob.
Proof.
  intros Hb Hs. unfold store. rewrite (list_insert_id _ _ _ Hb).
  rewrite (list_insert_id _ _ _ Hs). by destruct ob.
Qed.

Lemma match_ticker_skip (fuel : nat) (ob : order_book)
    (ms : list match_record) (t : nat) :
  ticker_symbols ob !! t = Some None ->
  match_ticker fuel ob ms t = Ret (ob, ms).
Proof. intros H. unfold match_ticker, index. by rewrite H. Qed.

Lemma match_ticker_run (fuel : nat) (ob : order_book)
    (ms ms' : list match_record) (t : nat) (s : string)
    (buys sells buys' sells' : list order) :
  ticker_symbols ob !! t = Some (Some s) ->
  buy_orders ob !! t = Some buys -> sell_orders ob !! t = Some sells ->
  match_lists fuel buys sells ms = Ret (buys', sells', ms') ->
  match_ticker fuel ob ms t = Ret (store ob t buys' sells', ms').
Proof.
  intros Hsym Hb Hs H. unfold match_ticker, index. rewrite Hsym, Hb, Hs. simpl.
  unfold match_lists in H.
  destruct (negb (nonempty buys) || negb (nonempty sells)).
  - injection H as <- <- <-. by rewrite store_same.
  - apply bind_Ret in H as (st & Hst & H). rewrite Hst. simpl.
    by injection H as <- <- <-.
Qed.

Lemma match_ticker_Ret (fuel : nat) (ob ob' : order_book)
    (ms ms' : list match_record) (t : nat) :
  match_ticker fuel ob ms t = Ret (ob', ms') ->
  (ticker_symbols ob !! t = Some None /\ ob' = ob /\ ms' = ms)
  \/ (exists s buys sells buys' sells',
        ticker_symbols ob !! t = Some (Some s)
        /\ buy_orders ob !! t = Some buys /\ sell_orders ob !! t = Some sells
        /\ match_lists fuel buys sells ms = Ret (buys', sells', ms')
        /\ ob' = store ob t buys' sells').
Proof.
  unfold match_ticker. intros H.
  apply bind_Ret in H as (sym & Hsym & H). apply index_Ret in Hsym.
  destruct sym as [s|].
  - apply bind_Ret in H as (buys & Hb & H). apply index_Ret in Hb.
    apply bind_Ret in H as (sells & Hs & H). apply index_Ret in Hs.
    right. exists s, buys, sells. unfold match_lists.
    destruct (negb (nonempty buys) || negb (nonempty sells)).
    + injection H as <- <-. exists buys, sells. repeat split; try done.
      by rewrite store_same.
    + apply bind_Ret in H as (st & Hst & H). rewrite Hst. simpl.
      injection H as <- <-. do 2 eexists. repeat split; done.
  - injection H as <- <-. by left.
Qed.

(** The rest of the book is not touched. *)
Lemma store_lookup_ne (ob : order_book) (t j : nat) (buys sells : list order) :
  j <> t ->
  buy_orders (store ob t buys sells) !! j = buy_orders ob !! j
  /\ sell_orders (store ob t buys sells) !! j = sell_orders ob !! j.
Proof.
  intros Hne. simpl. split; by apply list_lookup_insert_ne.
Qed.

Lemma store_lookup_eq (ob : order_book) (t : nat)
    (buys sells buys0 sells0 : list order) :
  buy_orders ob !! t = Some buys0 -> sell_orders ob !! t = Some sells0 ->
  buy_orders (store ob t buys sells) !! t = Some buys
  /\ sell_orders (store ob t buys sells) !! t = Some sells.
Proof.
  intros Hb Hs. apply lookup_lt_Some in Hb. apply lookup_lt_Some in Hs.
  simpl. split; by apply list_lookup_insert_eq.
Qed.

Lemma nonempty_lookup {A : Type} (l : list A) :
  nonempty l = true -> (0 < length l)%nat.
Proof. destruct l; [discriminate | simpl; lia]. Qed.

Lemma match_lists_no_cross (fuel : nat) (buys sells : list order)
    (ms : list match_record) (bi si : nat) (buy sell : order) :
  find_best_order buys [] Z.gtb = Some bi ->
  find_best_order sells [] Z.ltb = Some si ->
  buys !! bi = Some buy -> sells !! si = Some sell ->
  (price buy < price sell)%Z ->
  match_lists (S fuel) buys sells ms = Ret (buys, sells, ms).
Proof.
  intros Hbi Hsi Hb Hs Hlt. unfold match_lists.
  destruct (negb (nonempty buys) || negb (nonempty sells)); [done|].
  rewrite (crossing_loop_no_cross fuel (start_state buys sells ms)
             bi si buy sell eq_refl Hbi Hsi Hb Hs Hlt).
  reflexivity.
Qed.

(** After [match_lists] the slot is settled: a further run over its lists
    executes the body at most once and changes nothing. *)
Lemma match_lists_settled (fuel fuel2 : nat) (buys sells buys' sells' : list order)
    (ms ms' ms2 : list match_record) :
  match_lists fuel buys sells ms = Ret (buys', sells', ms') ->
  match_lists (S fuel2) buys' sells' ms2 = Ret (buys', sells', ms2).
Proof.
  intros H. unfold match_lists in H.
  destruct (negb (nonempty buys) || negb (nonempty sells)) eqn:E.
  - injection H as <- <- <-. unfold match_lists. by rewrite E.
  - apply bind_Ret in H as (st & Hst & H). injection H as <- <- <-.
    apply crossing_loop_quiet in Hst; [|discriminate].
    set (B := settle (cur_buys st) (completed_buys st)).
    set (S' := settle (cur_sells st) (completed_sells st)).
    destruct (negb (nonempty B) || negb (nonempty S')) eqn:E2.
    { unfold match_lists. by rewrite E2. }
    apply orb_false_iff in E2 as [EB ES].
    apply negb_false_iff in EB, ES.
    apply nonempty_lookup in EB, ES.
    destruct (find_best_order_pending Z.gtb gtb_trans gtb_total [] B 0 EB eq_refl)
      as [bi' Hbi'].
    destruct (find_best_order_pending Z.ltb ltb_trans ltb_total [] S' 0 ES eq_refl)
      as [si' Hsi'].
    destruct (best_buy_Some (start_state B S' ms2) bi' Hbi') as (b' & Hb' & _).
    destruct (best_sell_Some (start_state B S' ms2) si' Hsi') as (s' & Hs' & _).
    simpl in Hb', Hs'.
    assert (Hbin : b' ∈ B) by (apply list_elem_of_lookup; eauto).
    assert (Hsin : s' ∈ S') by (apply list_elem_of_lookup; eauto).
    apply settle_elem in Hbin as (jb & Hjb & Hcb).
    apply settle_elem in Hsin as (js & Hjs & Hcs).
    apply (match_lists_no_cross fuel2 B S' ms2 bi' si' b' s'); try done.
    destruct Hst as [Hnone|[Hnone|(bi & si & buy & sell & Hbi & Hsi & Hb & Hs & Hlt)]].
    + pose proof (find_best_order_None Z.gtb gtb_trans gtb_total _ _ Hnone jb
                    (lookup_lt_Some _ _ _ Hjb)). congruence.
    + pose proof (find_best_order_None Z.ltb ltb_trans ltb_total _ _ Hnone js
                    (lookup_lt_Some _ _ _ Hjs)). congruence.
    + destruct (best_buy_Some st bi Hbi) as (buy0 & Hbuy0 & _ & Hmax).
      destruct (best_sell_Some st si Hsi) as (sell0 & Hsell0 & _ & Hmin).
      assert (buy0 = buy) by congruence. assert (sell0 = sell) by congruence.
      subst buy0 sell0.
      specialize (Hmax jb b' Hjb Hcb). specialize (Hmin js s' Hjs Hcs). lia.
Qed.

(** Enough fuel for a slot: one more than the number of its orders. *)
Lemma match_lists_returns (fuel : nat) (buys sells : list order)
    (ms : list match_record) :
  (length buys + length sells < fuel)%nat ->
  exists r, match_lists fuel buys sells ms = Ret r.
Proof.
  intros Hlt. unfold match_lists.
  destruct (negb (nonempty buys) || negb (nonempty sells)); [eauto|].
  destruct (crossing_loop_returns fuel (start_state buys sells ms)) as [st Hst].
  - unfold pending. simpl.
    pose proof (pending_from_le_length [] 0 (length buys)).
    pose proof (pending_from_le_length [] 0 (length sells)). lia.
  - rewrite Hst. simpl. eauto.
Qed.

(** ** The pass over the slots *)

Lemma match_ticker_frame (fuel : nat) (ob ob' : order_book)
    (ms ms' : list match_record) (t : nat) :
  match_ticker fuel ob ms t = Ret (ob', ms') ->
  ticker_symbols ob' = ticker_symbols ob
  /\ ticker_count ob' = ticker_count ob
  /\ next_order_id ob' = next_order_id ob
  /\ length (buy_orders ob') = length (buy_orders ob)
  /\ length (sell_orders ob') = length (sell_orders ob)
  /\ forall j, j <> t -> same_slot ob ob' j.
Proof.
  intros H. apply match_ticker_Ret in H
    as [(_ & -> & _)|(s & buys & sells & buys' & sells' & _ & _ & _ & _ & ->)].
  - repeat split; done.
  - simpl. rewrite !length_insert. repeat split; try done;
      by apply list_lookup_insert_ne.
Qed.

Lemma match_tickers_frame (fuel : nat) (idxs : list nat) (ob ob' : order_book)
    (ms ms' : list match_record) :
  match_tickers fuel idxs ob ms = Ret (ob', ms') ->
  ticker_symbols ob' = ticker_symbols ob
  /\ ticker_count ob' = ticker_count ob
  /\ next_order_id ob' = next_order_id ob
  /\ length (buy_orders ob') = length (buy_orders ob)
  /\ length (sell_orders ob') = length (sell_orders ob)
  /\ forall j, j ∉ idxs -> same_slot ob ob' j.
Proof.
  revert ob ms. induction idxs as [|t rest IH]; intros ob ms H; simpl in H.
  - injection H as <- <-. repeat split; done.
  - apply bind_Ret in H as ([ob1 ms1] & H1 & H). simpl in H.
    apply match_ticker_frame in H1 as (E1 & E2 & E3 & E4 & E5 & F1).
    apply IH in H as (G1 & G2 & G3 & G4 & G5 & F2).
    repeat split; try congruence;
      apply not_elem_of_cons in H as [Hne Hnin];
      destruct (F1 j Hne) as (A1 & A2 & A3);
      destruct (F2 j Hnin) as (B1 & B2 & B3); congruence.
Qed.

Lemma settled_same_slot (ob ob' : order_book) (t : nat) :
  same_slot ob ob' t -> settled ob t -> settled ob' t.
Proof.
  intros (E1 & E2 & E3) [H|(s & buys & sells & H1 & H2 & H3 & H4)].
  - left. congruence.
  - right. exists s, buys, sells. repeat split; congruence.
Qed.

Lemma match_ticker_settles (fuel : nat) (ob ob' : order_book)
    (ms ms' : list match_record) (t : nat) :
  match_ticker fuel ob ms t = Ret (ob', ms') -> settled ob' t.
Proof.
  intros H. apply match_ticker_Ret in H
    as [(Hsym & -> & _)
       |(s & buys & sells & buys' & sells' & Hsym & Hb & Hs & Hrun & ->)].
  - by left.
  - right. exists s, buys', sells'.
    destruct (store_lookup_eq ob t buys' sells' buys sells Hb Hs) as [Hb' Hs'].
    repeat split; try done.
    intros fuel2 ms2. by apply (match_lists_settled fuel fuel2 buys sells _ _ ms ms').
Qed.

Lemma settled_match_ticker (fuel : nat) (ob : order_book)
    (ms : list match_record) (t : nat) :
  settled ob t -> match_ticker (S fuel) ob ms t = Ret (ob, ms).
Proof.
  intros [H|(s & buys & sells & Hsym & Hb & Hs & Hrun)].
  - by apply match_ticker_skip.
  - rewrite (match_ticker_run (S fuel) ob ms ms t s buys sells buys sells
               Hsym Hb Hs (Hrun fuel ms)).
    by rewrite store_same.
Qed.

Lemma match_tickers_settles (fuel : nat) (idxs : list nat)
    (ob ob' : order_book) (ms ms' : list match_record) :
  NoDup idxs ->
  match_tickers fuel idxs ob ms = Ret (ob', ms') ->
  forall t, t ∈ idxs -> settled ob' t.
Proof.
  revert ob ms. induction idxs as [|t0 rest IH]; intros ob ms Hnd H t Hin.
  - by apply elem_of_nil in Hin.
  - simpl in H. apply bind_Ret in H as ([ob1 ms1] & H1 & H). simpl in H.
    apply NoDup_cons in Hnd as [Hnin Hnd].
    apply elem_of_cons in Hin as [->|Hin].
    + apply match_ticker_settles in H1.
      apply match_tickers_frame in H as (_ & _ & _ & _ & _ & F).
      by apply (settled_same_slot ob1 ob' t0 (F t0 Hnin)).
    + by apply (IH ob1 ms1).
Qed.

Lemma settled_match_tickers (fuel : nat) (idxs : list nat)
    (ob : order_book) (ms : list match_record) :
  (forall t, t ∈ idxs -> settled ob t) ->
  match_tickers (S fuel) idxs ob ms = Ret (ob, ms).
Proof.
  induction idxs as [|t0 rest IH]; intros H; [done|].
  cbn [match_tickers].
  rewrite (settled_match_ticker fuel ob ms t0) by (apply H; by left).
  simpl. apply IH. intros t Ht. apply H. by right.
Qed.

Lemma lookup_length_le_sum (l : list (list order)) (t : nat) (x : list order) :
  l !! t = Some x -> (length x <= sum_list_with length l)%nat.
Proof.
  intros H. apply sum_list_with_in. apply list_elem_of_lookup. eauto.
Qed.

Lemma slot_fits_same_slot (fuel : nat) (ob ob' : order_book) (t : nat) :
  same_slot ob ob' t -> slot_fits fuel ob t -> slot_fits fuel ob' t.
Proof.
  intros (E1 & E2 & E3) (sym & buys & sells & H1 & H2 & H3 & H4).
  exists sym, buys, sells. repeat split; congruence.
Qed.

Lemma match_ticker_returns (fuel : nat) (ob : order_book)
    (ms : list match_record) (t : nat) :
  slot_fits fuel ob t -> exists r, match_ticker fuel ob ms t = Ret r.
Proof.
  intros (sym & buys & sells & Hsym & Hb & Hs & Hlt).
  destruct sym as [s|].
  - destruct (match_lists_returns fuel buys sells ms Hlt) as ([[b' s'] ms'] & Hr).
    rewrite (match_ticker_run fuel ob ms ms' t s buys sells b' s' Hsym Hb Hs Hr).
    eauto.
  - rewrite (match_ticker_skip fuel ob ms t Hsym). eauto.
Qed.

Lemma match_tickers_returns (fuel : nat) (idxs : list nat) (ob : order_book)
    (ms : list match_record) :
  NoDup idxs ->
  (forall t, t ∈ idxs -> slot_fits fuel ob t) ->
  exists r, match_tickers fuel idxs ob ms = Ret r.
Proof.
  revert ob ms. induction idxs as [|t0 rest IH]; intros ob ms Hnd Hfit.
  - simpl. eauto.
  - apply NoDup_cons in Hnd as [Hnin Hnd]. cbn [match_tickers].
    destruct (match_ticker_returns fuel ob ms t0) as ([ob1 ms1] & H1).
    { apply Hfit. by left. }
    rewrite H1. simpl. apply IH; [done|].
    intros t Ht. apply match_ticker_frame in H1 as (_ & _ & _ & _ & _ & F).
    apply (slot_fits_same_slot fuel ob ob1 t).
    + apply F. intros ->. done.
    + apply Hfit. by right.
Qed.

Lemma wf_book_slot_fits (fuel : nat) (ob : order_book) (t : nat) :
  wf_book ob -> (resting ob < fuel)%nat -> (t < ticker_count ob)%nat ->
  slot_fits fuel ob t.
Proof.
  intros (Hb & Hs & Hc) Hfuel Ht. unfold slot_fits.
  destruct (lookup_lt_is_Some_2 (ticker_symbols ob) t ltac:(lia)) as [sym Hsym].
  destruct (lookup_lt_is_Some_2 (buy_orders ob) t ltac:(lia)) as [buys Hbuys].
  destruct (lookup_lt_is_Some_2 (sell_orders ob) t ltac:(lia)) as [sells Hsells].
  exists sym, buys, sells. repeat split; try done.
  pose proof (lookup_length_le_sum _ _ _ Hbuys).
  pose proof (lookup_length_le_sum _ _ _ Hsells).
  unfold resting in Hfuel. lia.
Qed.

Lemma no_cross_same_slot (ob ob' : order_book) (t : nat) :
  same_slot ob ob' t -> no_cross ob t -> no_cross ob' t.
Proof.
  intros (E1 & E2 & E3) (buys & sells & bi & si & buy & sell & H1 & H2 & H).
  exists buys, sells, bi, si, buy, sell. repeat split; try congruence; apply H.
Qed.

Lemma match_lists_zero (buys sells buys' sells' : list order)
    (ms ms' : list match_record) :
  match_lists 0 buys sells ms = Ret (buys', sells', ms') ->
  buys' = buys /\ sells' = sells /\ ms' = ms.
Proof.
  unfold match_lists.
  destruct (negb (nonempty buys) || negb (nonempty sells)) eqn:E.
  - intros H. by injection H as <- <- <-.
  - apply orb_false_iff in E as [E1 E2]. apply negb_false_iff in E1, E2.
    simpl. unfold loop_condition. simpl. rewrite E1, E2. discriminate.
Qed.

Lemma match_ticker_no_cross (fuel : nat) (ob ob' : order_book)
    (ms ms' : list match_record) (t : nat) :
  no_cross ob t ->
  match_ticker fuel ob ms t = Ret (ob', ms') -> ob' = ob /\ ms' = ms.
Proof.
  intros (buys & sells & bi & si & buy & sell & Hb & Hs & Hbi & Hbuy & Hsi & Hsell & Hlt) H.
  apply match_ticker_Ret in H
    as [(_ & -> & ->)
       |(s & buys0 & sells0 & buys' & sells' & _ & Hb0 & Hs0 & Hrun & ->)];
    [done|].
  assert (buys0 = buys) by congruence. assert (sells0 = sells) by congruence.
  subst buys0 sells0.
  assert (buys' = buys /\ sells' = sells /\ ms' = ms) as (-> & -> & ->).
  { destruct fuel as [|fuel].
    - by apply match_lists_zero in Hrun.
    - rewrite (match_lists_no_cross fuel buys sells ms bi si buy sell
                 Hbi Hsi Hbuy Hsell Hlt) in Hrun.
      by injection Hrun as <- <- <-. }
  split; [|done]. by apply store_same.
Qed.

Lemma match_tickers_skip_no_cross (fuel : nat) (idxs : list nat)
    (ob ob' : order_book) (ms ms' : list match_record) (t : nat) :
  no_cross ob t ->
  match_tickers fuel idxs ob ms = Ret (ob', ms') ->
  match_tickers fuel (filter (fun j => j <> t) idxs) ob ms = Ret (ob', ms').
Proof.
  revert ob ms. induction idxs as [|t0 rest IH]; intros ob ms Hnc H; [done|].
  simpl in H. apply bind_Ret in H as ([ob1 ms1] & H1 & H). simpl in H.
  destruct (decide (t0 = t)) as [->|Hne].
  - rewrite filter_cons_False by (intros ?; done).
    destruct (match_ticker_no_cross fuel ob ob1 ms ms1 t Hnc H1) as [-> ->].
    by apply IH.
  - rewrite filter_cons_True by done. cbn [match_tickers].
    rewrite H1. simpl. apply IH; [|done].
    apply match_ticker_frame in H1 as (_ & _ & _ & _ & _ & F).
    apply (no_cross_same_slot ob ob1 t); [|done]. apply F. congruence.
Qed.

(** ** What a pass keeps of an order *)

Lemma static_set_quantity (o : order) (q : Z) : static (set_quantity o q) = static o.
Proof. reflexivity. Qed.

Lemma static_insert (l : list order) (i : nat) (o : order) (q : Z) :
  l !! i = Some o ->
  static <$> <[i := set_quantity o q]> l = static <$> l.
Proof.
  intros H. rewrite list_fmap_insert, static_set_quantity.
  apply list_insert_id. by rewrite list_lookup_fmap, H.
Qed.

Lemma static_fmap_elem (l0 l : list order) (o : order) :
  static <$> l = static <$> l0 -> o ∈ l ->
  exists o0, o0 ∈ l0 /\ static o0 = static o.
Proof.
  intros E Ho. apply list_elem_of_lookup in Ho as [i Hi].
  assert (H : (static <$> l0) !! i = Some (static o))
    by (rewrite <- E, list_lookup_fmap, Hi; done).
  rewrite list_lookup_fmap in H.
  destruct (l0 !! i) as [o0|] eqn:E0; [|discriminate].
  simpl in H. exists o0. split; [|congruence].
  apply list_elem_of_lookup. eauto.
Qed.

Lemma static_order_id (o o' : order) : static o = static o' -> order_id o = order_id o'.
Proof. intros H. by injection H. Qed.

Lemma static_price (o o' : order) : static o = static o' -> price o = price o'.
Proof. intros H. by injection H. Qed.

Lemma crossing_loop_static (fuel : nat) (buys sells : list order)
    (ms : list match_record) (st : loop_state) :
  crossing_loop fuel (start_state buys sells ms) = Ret st ->
  static <$> cur_buys st = static <$> buys
  /\ static <$> cur_sells st = static <$> sells
  /\ forall m, m ∈ matches st -> m ∈ ms \/ priced_by sells m.
Proof.
  apply (crossing_loop_invariant (fun st =>
    static <$> cur_buys st = static <$> buys
    /\ static <$> cur_sells st = static <$> sells
    /\ forall m, m ∈ matches st -> m ∈ ms \/ priced_by sells m)).
  - intros st0 H. exact H.
  - intros st0 bi si buy sell (Hb & Hs & Hm) _ _ Hbuy Hsell _.
    unfold trade. simpl. repeat split.
    + by rewrite (static_insert _ _ _ _ Hbuy).
    + by rewrite (static_insert _ _ _ _ Hsell).
    + intros m Hin. apply elem_of_app in Hin as [Hin|Hin]; [by apply Hm|].
      apply list_elem_of_singleton in Hin as ->. right.
      destruct (static_fmap_elem sells (cur_sells st0) sell Hs) as (s0 & Hs0 & E).
      { apply list_elem_of_lookup. eauto. }
      exists s0. simpl. split; [done|].
      split; [by rewrite (static_order_id _ _ E) | by rewrite (static_price _ _ E)].
  - simpl. repeat split; try done. intros m Hm. by left.
Qed.

Lemma derived_refl (l : list order) : derived l l.
Proof. intros o Ho. eauto. Qed.

Lemma settle_derived (l0 l : list order) (c : list nat) :
  static <$> l = static <$> l0 -> derived l0 (settle l c).
Proof.
  intros E o Ho. apply settle_elem in Ho as (k & Hk & _).
  apply (static_fmap_elem l0 l o E). apply list_elem_of_lookup. eauto.
Qed.

Lemma match_lists_static (fuel : nat) (buys sells buys' sells' : list order)
    (ms ms' : list match_record) :
  match_lists fuel buys sells ms = Ret (buys', sells', ms') ->
  derived buys buys' /\ derived sells sells'
  /\ forall m, m ∈ ms' -> m ∈ ms \/ priced_by sells m.
Proof.
  unfold match_lists.
  destruct (negb (nonempty buys) || negb (nonempty sells)).
  - intros H. injection H as <- <- <-.
    repeat split; try apply derived_refl. intros m Hm. by left.
  - intros H. apply bind_Ret in H as (st & Hst & H). injection H as <- <- <-.
    apply crossing_loop_static in Hst as (Hb & Hs & Hm).
    repeat split; try done; by apply settle_derived.
Qed.

(** ** Positive remaining quantities *)

Lemma mark_pending (l : list order) (c : list nat) (i j : nat) (o x : order)
    (q : Z) :
  (forall k y, l !! k = Some y -> is_completed c k = false -> positive_quantity y) ->
  l !! i = Some o -> is_completed c i = false ->
  (0 <= quantity o - q)%Z ->
  <[i := set_quantity o (quantity o - q)]> l !! j = Some x ->
  is_completed
    (if (quantity (set_quantity o (quantity o - q)) =? 0)%Z then c ++ [i] else c)
    j = false ->
  positive_quantity x.
Proof.
  intros Hpos Hi Hci Hq Hj Hcj. simpl in Hcj.
  destruct (decide (j = i)) as [->|Hne].
  - rewrite list_lookup_insert_eq in Hj by (by apply lookup_lt_Some in Hi).
    injection Hj as <-. unfold positive_quantity. simpl.
    destruct (quantity o - q =? 0)%Z eqn:E.
    + rewrite is_completed_app, Nat.eqb_refl, orb_true_r in Hcj. discriminate.
    + apply Z.eqb_neq in E. lia.
  - rewrite list_lookup_insert_ne in Hj by done.
    apply (Hpos j x Hj).
    destruct (quantity o - q =? 0)%Z; [|done].
    rewrite is_completed_app in Hcj. by apply orb_false_iff in Hcj as [? _].
Qed.

Lemma crossing_loop_positive (fuel : nat) (st st' : loop_state) :
  pending_positive st -> crossing_loop fuel st = Ret st' -> pending_positive st'.
Proof.
  apply (crossing_loop_invariant pending_positive).
  - intros st0 H. exact H.
  - intros st0 bi si buy sell [Hpb Hps] Hbi Hsi Hbuy Hsell _.
    destruct (best_buy_Some st0 bi Hbi) as (? & _ & Hcb & _).
    destruct (best_sell_Some st0 si Hsi) as (? & _ & Hcs & _).
    pose proof (Hpb bi buy Hbuy Hcb) as Hqb.
    pose proof (Hps si sell Hsell Hcs) as Hqs.
    unfold positive_quantity in Hqb, Hqs.
    split; intros j y Hj Hcj; unfold trade in Hj, Hcj; simpl in Hj, Hcj.
    + eapply (mark_pending (cur_buys st0) (completed_buys st0) bi j buy y
                (Z.min (quantity buy) (quantity sell)));
        [exact Hpb | exact Hbuy | exact Hcb | lia | exact Hj | exact Hcj].
    + eapply (mark_pending (cur_sells st0) (completed_sells st0) si j sell y
                (Z.min (quantity buy) (quantity sell)));
        [exact Hps | exact Hsell | exact Hcs | lia | exact Hj | exact Hcj].
Qed.

Lemma match_lists_positive (fuel : nat) (buys sells buys' sells' : list order)
    (ms ms' : list match_record) :
  Forall positive_quantity buys -> Forall positive_quantity sells ->
  match_lists fuel buys sells ms = Ret (buys', sells', ms') ->
  Forall positive_quantity buys' /\ Forall positive_quantity sells'.
Proof.
  intros Hb Hs. unfold match_lists.
  destruct (negb (nonempty buys) || negb (nonempty sells)).
  - intros H. by injection H as <- <- <-.
  - intros H. apply bind_Ret in H as (st & Hst & H). injection H as <- <- <-.
    apply crossing_loop_positive in Hst as [Hpb Hps].
    + split; apply Forall_forall; intros o Ho;
        apply settle_elem in Ho as (k & Hk & Hc); eauto.
    + split; simpl; intros j o Hj _.
      * apply (proj1 (Forall_forall _ _) Hb). apply list_elem_of_lookup. eauto.
      * apply (proj1 (Forall_forall _ _) Hs). apply list_elem_of_lookup. eauto.
Qed.

Lemma match_ticker_positive (fuel : nat) (ob ob' : order_book)
    (ms ms' : list match_record) (t : nat) :
  positive_book ob -> match_ticker fuel ob ms t = Ret (ob', ms') ->
  positive_book ob'.
Proof.
  intros [Hb Hs] H. apply match_ticker_Ret in H
    as [(_ & -> & _)
       |(s & buys & sells & buys' & sells' & _ & Hbuys & Hsells & Hrun & ->)];
    [done|].
  apply match_lists_positive in Hrun as [Hb' Hs'].
  - split; simpl; by apply Forall_insert.
  - apply (proj1 (Forall_forall _ _) Hb). apply list_elem_of_lookup. eauto.
  - apply (proj1 (Forall_forall _ _) Hs). apply list_elem_of_lookup. eauto.
Qed.

Lemma match_tickers_positive (fuel : nat) (idxs : list nat)
    (ob ob' : order_book) (ms ms' : list match_record) :
  positive_book ob -> match_tickers fuel idxs ob ms = Ret (ob', ms') ->
  positive_book ob'.
Proof.
  revert ob ms. induction idxs as [|t rest IH]; intros ob ms Hpos H; simpl in H.
  - by injection H as <- <-.
  - apply bind_Ret in H as ([ob1 ms1] & H1 & H). simpl in H.
    apply (IH ob1 ms1); [|done]. by apply (match_ticker_positive fuel ob ob1 ms ms1 t).
Qed.

(** ** The ticker registry *)

Lemma scan_tickers_returns (symbols : list (option string)) (t : string)
    (i n : nat) :
  (i + n <= length symbols)%nat -> exists r, scan_tickers symbols t i n = Ret r.
Proof.
  revert i. induction n as [|n IH]; intros i Hle; simpl; [eauto|].
  destruct (index_lt symbols i ltac:(lia)) as (s & Hs & _). rewrite Hs. simpl.
  destruct (bool_decide (s = Some t)); [eauto|]. apply IH. lia.
Qed.

Lemma scan_tickers_Some (symbols : list (option string)) (t : string)
    (i n k : nat) :
  scan_tickers symbols t i n = Ret (Some k) ->
  (i <= k < i + n)%nat /\ symbols !! k = Some (Some t).
Proof.
  revert i. induction n as [|n IH]; intros i H; simpl in H; [discriminate|].
  apply bind_Ret in H as (s & Hs & H). apply index_Ret in Hs.
  destruct (bool_decide (s = Some t)) eqn:E.
  - apply bool_decide_eq_true in E. injection H as <-. subst s. split; [lia|done].
  - apply IH in H as [Hk Hl]. split; [lia|done].
Qed.

Lemma scan_tickers_None (symbols : list (option string)) (t : string)
    (i n : nat) :
  scan_tickers symbols t i n = Ret None ->
  forall k, (i <= k < i + n)%nat -> symbols !! k <> Some (Some t).
Proof.
  revert i. induction n as [|n IH]; intros i H k Hk; simpl in H; [lia|].
  apply bind_Ret in H as (s & Hs & H). apply index_Ret in Hs.
  destruct (bool_decide (s = Some t)) eqn:E; [discriminate|].
  apply bool_decide_eq_false in E.
  destruct (decide (k = i)) as [->|Hne]; [congruence|].
  apply (IH (S i) H). lia.
Qed.

(** The three outcomes of [get_ticker_index] on a well-formed book. *)
Lemma get_ticker_index_registered (ob : order_book) (t : string) :
  wf_book ob -> registered ob t ->
  exists i, get_ticker_index ob t = Ret (Some i, ob)
    /\ (i < ticker_count ob)%nat /\ ticker_symbols ob !! i = Some (Some t).
Proof.
  intros (_ & _ & Hc) (k & Hk & Hl). unfold get_ticker_index.
  destruct (scan_tickers_returns (ticker_symbols ob) t 0 (ticker_count ob)
              ltac:(lia)) as [[i|] Hr]; rewrite Hr; simpl.
  - apply scan_tickers_Some in Hr as [Hi Hs]. exists i. repeat split; [lia|done].
  - pose proof (scan_tickers_None _ _ _ _ Hr k ltac:(lia)). done.
Qed.

Lemma scan_tickers_unregistered (ob : order_book) (t : string) :
  wf_book ob -> ~ registered ob t ->
  scan_tickers (ticker_symbols ob) t 0 (ticker_count ob) = Ret None.
Proof.
  intros (_ & _ & Hc) Hun.
  destruct (scan_tickers_returns (ticker_symbols ob) t 0 (ticker_count ob)
              ltac:(lia)) as [[i|] Hr]; [|done].
  apply scan_tickers_Some in Hr as [Hi Hs]. exfalso. apply Hun.
  exists i. split; [lia|done].
Qed.

Lemma get_ticker_index_new (ob : order_book) (t : string) :
  wf_book ob -> ~ registered ob t -> ~ full ob ->
  get_ticker_index ob t =
    Ret (Some (ticker_count ob),
         {| ticker_symbols := <[ticker_count ob := Some t]> (ticker_symbols ob);
            buy_orders := buy_orders ob;
            sell_orders := sell_orders ob;
            ticker_count := S (ticker_count ob);
            next_order_id := next_order_id ob |}).
Proof.
  intros Hwf Hun Hfull. unfold get_ticker_index.
  rewrite (scan_tickers_unregistered ob t Hwf Hun). simpl.
  unfold full in Hfull.
  destruct (length (ticker_symbols ob) <=? ticker_count ob)%nat eqn:E; [|done].
  apply Nat.leb_le in E. lia.
Qed.

Lemma get_ticker_index_full (ob : order_book) (t : string) :
  wf_book ob -> ~ registered ob t -> full ob ->
  get_ticker_index ob t = Ret (None, ob).
Proof.
  intros Hwf Hun Hfull. unfold get_ticker_index.
  rewrite (scan_tickers_unregistered ob t Hwf Hun). simpl.
  unfold full in Hfull.
  destruct (length (ticker_symbols ob) <=? ticker_count ob)%nat eqn:E; [done|].
  apply Nat.leb_gt in E. lia.
Qed.

Lemma registered_or_not (ob : order_book) (t : string) :
  wf_book ob -> registered ob t \/ ~ registered ob t.
Proof.
  intros (_ & _ & Hc).
  destruct (scan_tickers_returns (ticker_symbols ob) t 0 (ticker_count ob)
              ltac:(lia)) as [[i|] Hr].
  - left. apply scan_tickers_Some in Hr as [Hi Hs]. exists i. split; [lia|done].
  - right. intros (k & Hk & Hs).
    by apply (scan_tickers_None _ _ _ _ Hr k ltac:(lia)).
Qed.

Lemma wf_book_set_next_order_id (ob : order_book) (n : Z) :
  wf_book ob -> wf_book (set_next_order_id ob n).
Proof. intros H. exact H. Qed.

Lemma add_order_rejected (order_sequence : Z) (ob : order_book)
    (ty : Z) (t : string) (q p : Z) :
  wf_book ob -> full ob -> ~ registered ob t ->
  add_order order_sequence ob ty t q p
  = Ret ((-1)%Z, (order_sequence + 1)%Z,
         set_next_order_id ob (next_order_id ob + 1)).
Proof.
  intros Hwf Hfull Hun. unfold add_order.
  rewrite (get_ticker_index_full (set_next_order_id ob (next_order_id ob + 1)) t);
    done.
Qed.

Lemma add_order_accepted (order_sequence : Z) (ob : order_book)
    (ty : Z) (t : string) (q p : Z) :
  wf_book ob -> registered ob t \/ ~ full ob ->
  exists i ob' l,
    add_order order_sequence ob ty t q p
    = Ret (next_order_id ob, (order_sequence + 1)%Z, ob')
    /\ next_order_id ob' = (next_order_id ob + 1)%Z
    /\ ticker_symbols ob' !! i = Some (Some t)
    /\ side ty ob !! i = Some l
    /\ side ty ob' !! i = Some (l ++ [new_order order_sequence ob ty t q p]).
Proof.
  intros Hwf Hroom.
  assert (Hwf1 := wf_book_set_next_order_id ob (next_order_id ob + 1) Hwf).
  set (ob1 := set_next_order_id ob (next_order_id ob + 1)) in *.
  assert (Hidx : exists i obr,
    get_ticker_index ob1 t = Ret (Some i, obr)
    /\ (i < length (ticker_symbols ob))%nat
    /\ ticker_symbols obr !! i = Some (Some t)
    /\ buy_orders obr = buy_orders ob /\ sell_orders obr = sell_orders ob
    /\ next_order_id obr = (next_order_id ob + 1)%Z).
  { destruct (registered_or_not ob t Hwf) as [Hreg|Hun].
    - destruct (get_ticker_index_registered ob1 t Hwf1 Hreg) as (i & Hr & Hi & Hs).
      exists i, ob1. destruct Hwf as (_ & _ & Hc). simpl in Hi.
      repeat split; try done. lia.
    - destruct Hroom as [?|Hroom]; [done|].
      rewrite (get_ticker_index_new ob1 t Hwf1 Hun Hroom).
      do 2 eexists. split; [reflexivity|]. simpl. unfold full in Hroom.
      repeat split; try done; [lia|].
      apply list_lookup_insert_eq. lia. }
  destruct Hidx as (i & obr & Hr & Hi & Hsym & Hb & Hs & Hn).
  destruct Hwf as (Hlb & Hls & _).
  unfold add_order. fold ob1. rewrite Hr. simpl. unfold side, new_order.
  destruct (ty =? BUY)%Z.
  - destruct (index_lt (buy_orders obr) i ltac:(rewrite Hb; lia)) as (l & Hl & Hl').
    rewrite Hl. simpl. eexists i, _, l. split; [reflexivity|]. simpl.
    repeat split; try done; [congruence|].
    apply list_lookup_insert_eq. rewrite Hb. lia.
  - destruct (index_lt (sell_orders obr) i ltac:(rewrite Hs; lia)) as (l & Hl & Hl').
    rewrite Hl. simpl. eexists i, _, l. split; [reflexivity|]. simpl.
    repeat split; try done; [congruence|].
    apply list_lookup_insert_eq. rewrite Hs. lia.
Qed.

(** ** What a submission does to the resting orders *)

Lemma get_ticker_index_Ret (ob obr : order_book) (t : string) (r : option nat) :
  get_ticker_index ob t = Ret (r, obr) ->
  buy_orders obr = buy_orders ob /\ sell_orders obr = sell_orders ob
  /\ next_order_id obr = next_order_id ob
  /\ length (ticker_symbols obr) = length (ticker_symbols ob)
  /\ (ticker_count obr <= Nat.max (ticker_count ob) (length (ticker_symbols ob)))%nat.
Proof.
  unfold get_ticker_index. intros H. apply bind_Ret in H as (found & _ & H).
  destruct found as [i|].
  - injection H as <- <-. repeat split; lia.
  - destruct (length (ticker_symbols ob) <=? ticker_count ob)%nat eqn:E.
    + injection H as <- <-. repeat split; lia.
    + injection H as <- <-. simpl. rewrite length_insert.
      apply Nat.leb_gt in E. repeat split; lia.
Qed.

(** The three ways [add_order] returns: the rejection, an order appended to
    a buy collection, an order appended to a sell collection. *)
Lemma add_order_Ret (order_sequence : Z) (ob : order_book)
    (ty : Z) (t : string) (q p : Z) (r seq' : Z) (ob' : order_book) :
  add_order order_sequence ob ty t q p = Ret (r, seq', ob') ->
  seq' = (order_sequence + 1)%Z
  /\ next_order_id ob' = (next_order_id ob + 1)%Z
  /\ ((buy_orders ob' = buy_orders ob /\ sell_orders ob' = sell_orders ob)
      \/ (exists i l, buy_orders ob !! i = Some l
            /\ buy_orders ob'
               = <[i := l ++ [new_order order_sequence ob ty t q p]]> (buy_orders ob)
            /\ sell_orders ob' = sell_orders ob)
      \/ (exists i l, sell_orders ob !! i = Some l
            /\ sell_orders ob'
               = <[i := l ++ [new_order order_sequence ob ty t q p]]> (sell_orders ob)
            /\ buy_orders ob' = buy_orders ob)).
Proof.
  unfold add_order. intros H.
  apply bind_Ret in H as ([idx obr] & Hidx & H).
  apply get_ticker_index_Ret in Hidx as (Hb & Hs & Hn & _). simpl in Hb, Hs, Hn.
  destruct idx as [i|].
  - destruct (ty =? BUY)%Z.
    + apply bind_Ret in H as (l & Hl & H). apply index_Ret in Hl.
      injection H as <- <- <-. simpl. repeat split; try done.
      right; left. exists i, l. rewrite <- Hb. done.
    + apply bind_Ret in H as (l & Hl & H). apply index_Ret in Hl.
      injection H as <- <- <-. simpl. repeat split; try done.
      right; right. exists i, l. rewrite <- Hs. done.
  - injection H as <- <- <-. repeat split; try done. by left.
Qed.

Lemma add_order_positive (order_sequence : Z) (ob : order_book)
    (ty : Z) (t : string) (q p : Z) (r seq' : Z) (ob' : order_book) :
  positive_book ob -> (0 < q)%Z ->
  add_order order_sequence ob ty t q p = Ret (r, seq', ob') ->
  positive_book ob'.
Proof.
  intros [Hb Hs] Hq H.
  apply add_order_Ret in H
    as (_ & _ & [[Eb Es]|[(i & l & Hl & Eb & Es)|(i & l & Hl & Es & Eb)]]);
    split; rewrite ?Eb, ?Es; try done.
  - apply Forall_insert; [done|]. apply Forall_app. split.
    + apply (proj1 (Forall_forall _ _) Hb). apply list_elem_of_lookup. eauto.
    + by apply Forall_singleton.
  - apply Forall_insert; [done|]. apply Forall_app. split.
    + apply (proj1 (Forall_forall _ _) Hs). apply list_elem_of_lookup. eauto.
    + by apply Forall_singleton.
Qed.

(** ** What a pass does to the resting orders *)

(** The matches of a pass: each names a sell order of the slot it comes
    from. *)
Lemma match_tickers_priced (fuel : nat) (idxs : list nat) (ob ob' : order_book)
    (ms ms' : list match_record) :
  NoDup idxs ->
  match_tickers fuel idxs ob ms = Ret (ob', ms') ->
  forall m, m ∈ ms' ->
    m ∈ ms \/ exists t sells, t ∈ idxs /\ sell_orders ob !! t = Some sells
                              /\ priced_by sells m.
Proof.
  revert ob ms. induction idxs as [|t0 rest IH]; intros ob ms Hnd H m Hm;
    simpl in H.
  - injection H as <- <-. by left.
  - apply bind_Ret in H as ([ob1 ms1] & H1 & H). simpl in H.
    apply NoDup_cons in Hnd as [Hnin Hnd].
    destruct (IH ob1 ms1 Hnd H m Hm) as [Hm1|(t & sells & Ht & Hs & Hp)].
    + apply match_ticker_Ret in H1
        as [(_ & _ & ->)
           |(s & buys & sells & buys' & sells' & _ & Hb & Hs & Hrun & _)];
        [by left|].
      apply match_lists_static in Hrun as (_ & _ & Hall).
      destruct (Hall m Hm1) as [?|Hp]; [by left|].
      right. exists t0, sells. repeat split; try done. by left.
    + right. exists t, sells. repeat split; try done; [by right|].
      apply match_ticker_frame in H1 as (_ & _ & _ & _ & _ & F).
      destruct (F t ltac:(intros ->; done)) as (_ & _ & E). congruence.
Qed.

(** ** More fuel does not change the result *)

Lemma crossing_loop_fuel_mono (fuel fuel' : nat) (st st' : loop_state) :
  crossing_loop fuel st = Ret st' -> (fuel <= fuel')%nat ->
  crossing_loop fuel' st = Ret st'.
Proof.
  revert fuel' st. induction fuel as [|fuel IH]; intros fuel' st H Hle.
  - simpl in H. destruct fuel'; simpl; destruct (loop_condition st);
      done.
  - destruct fuel' as [|fuel']; [lia|]. simpl in *.
    destruct (loop_condition st); [|done].
    apply bind_Ret in H as (r & Hr & H). rewrite Hr. simpl.
    destruct r as [st0|st0]; [done|]. apply IH; [done | lia].
Qed.

Lemma match_lists_fuel_mono (fuel fuel' : nat) (buys sells : list order)
    (ms : list match_record) r :
  match_lists fuel buys sells ms = Ret r -> (fuel <= fuel')%nat ->
  match_lists fuel' buys sells ms = Ret r.
Proof.
  unfold match_lists. intros H Hle.
  destruct (negb (nonempty buys) || negb (nonempty sells)); [done|].
  apply bind_Ret in H as (st & Hst & H).
  by rewrite (crossing_loop_fuel_mono fuel fuel' _ st Hst Hle).
Qed.

Lemma match_ticker_fuel_mono (fuel fuel' : nat) (ob : order_book)
    (ms : list match_record) (t : nat) r :
  match_ticker fuel ob ms t = Ret r -> (fuel <= fuel')%nat ->
  match_ticker fuel' ob ms t = Ret r.
Proof.
  destruct r as [ob' ms']. intros H Hle. apply match_ticker_Ret in H
    as [(Hsym & -> & ->)
       |(s & buys & sells & buys' & sells' & Hsym & Hb & Hs & Hrun & ->)].
  - by apply match_ticker_skip.
  - apply (match_ticker_run fuel' ob ms ms' t s buys sells); try done.
    by apply (match_lists_fuel_mono fuel).
Qed.

Lemma match_tickers_fuel_mono (fuel fuel' : nat) (idxs : list nat)
    (ob : order_book) (ms : list match_record) r :
  match_tickers fuel idxs ob ms = Ret r -> (fuel <= fuel')%nat ->
  match_tickers fuel' idxs ob ms = Ret r.
Proof.
  revert ob ms. induction idxs as [|t rest IH]; intros ob ms H Hle; [done|].
  simpl in *. apply bind_Ret in H as (r1 & H1 & H).
  rewrite (match_ticker_fuel_mono fuel fuel' ob ms t r1 H1 Hle). simpl.
  by apply IH.
Qed.

(** ** Well-formedness is kept by every operation *)

Lemma create_order_book_wf (n : nat) : wf_book (create_order_book n).
Proof. unfold wf_book. simpl. rewrite !length_replicate. lia. Qed.

Lemma add_order_wf (order_sequence : Z) (ob : order_book)
    (ty : Z) (t : string) (q p : Z) (r seq' : Z) (ob' : order_book) :
  wf_book ob -> add_order order_sequence ob ty t q p = Ret (r, seq', ob') ->
  wf_book ob'.
Proof.
  intros (Hb & Hs & Hc) H. unfold add_order in H.
  apply bind_Ret in H as ([idx obr] & Hidx & H).
  apply get_ticker_index_Ret in Hidx as (Eb & Es & _ & El & Ec).
  simpl in Eb, Es, El, Ec.
  assert (Hwf : wf_book obr).
  { unfold wf_book. rewrite Eb, Es, El. repeat split; lia. }
  destruct idx as [i|].
  - destruct (ty =? BUY)%Z;
      apply bind_Ret in H as (l & _ & H); injection H as <- <- <-;
      unfold wf_book in *; simpl; rewrite ?length_insert; done.
  - by injection H as <- <- <-.
Qed.

Lemma match_orders_wf (fuel : nat) (ob ob' : order_book)
    (ms : list match_record) :
  wf_book ob -> match_orders fuel ob = Ret (ob', ms) -> wf_book ob'.
Proof.
  intros (Hb & Hs & Hc) H. apply match_tickers_frame in H
    as (E1 & E2 & _ & E4 & E5 & _).
  unfold wf_book. rewrite E1, E2, E4, E5. done.
Qed.

(** ** Sequences of calls *)

(** Neither counter ever decreases. *)
Lemma do_call_counters (s s' : Z * order_book) (c : call) :
  do_call s c = Ret s' ->
  (fst s <= fst s')%Z /\ (next_order_id (snd s) <= next_order_id (snd s'))%Z.
Proof.
  destruct c as [ty t q p|fuel]; simpl; intros H.
  - apply bind_Ret in H as ([[r seq'] ob'] & Hr & H). injection H as <-.
    apply add_order_Ret in Hr as (-> & Hn & _). simpl. lia.
  - apply bind_Ret in H as ([ob' ms] & Hr & H). injection H as <-.
    apply match_tickers_frame in Hr as (_ & _ & Hn & _). simpl in *. lia.
Qed.

Lemma run_counters (s s' : Z * order_book) (calls : list call) :
  run s calls = Ret s' ->
  (fst s <= fst s')%Z /\ (next_order_id (snd s) <= next_order_id (snd s'))%Z.
Proof.
  revert s. induction calls as [|c rest IH]; intros s H; simpl in H.
  - injection H as <-. lia.
  - apply bind_Ret in H as (s1 & H1 & H).
    apply do_call_counters in H1. apply IH in H. lia.
Qed.

(** ** The example books *)

Example crossing_book_built :
  (r1 ← add_order 0 (create_order_book 2) BUY "ACME" 10 10;
   r2 ← add_order (snd (fst r1)) (snd r1) BUY "ACME" 10 10;
   add_order (snd (fst r2)) (snd r2) SELL "ACME" 5 9)
  = Ret (3%Z, 3%Z, crossing_book).
Proof. reflexivity. Qed.

Example full_book_built :
  add_order 0 (create_order_book 1) BUY "ACME" 10 10 = Ret (1%Z, 1%Z, full_book).
Proof. reflexivity. Qed.

(** Time priority at equal price: the sell is filled against the buy that
    arrived first. *)
Example time_priority_fill :
  match_orders 3 crossing_book
  = Ret (crossing_book_after, [MatchRecord 1 3 "ACME" 5 9]).
Proof. reflexivity. Qed.

(** Partial fill: buy 10 at 10 against sell 4 at 9. *)
Example partial_fill :
  match_orders 3
    {| ticker_symbols := [Some "ACME"];
       buy_orders := [[Order BUY "ACME" 10 10 1 1]];
       sell_orders := [[Order SELL "ACME" 4 9 2 2]];
       ticker_count := 1; next_order_id := 3 |}
  = Ret ({| ticker_symbols := [Some "ACME"];
            buy_orders := [[Order BUY "ACME" 6 10 1 1]];
            sell_orders := [[]];
            ticker_count := 1; next_order_id := 3 |},
         [MatchRecord 1 2 "ACME" 4 9]).
Proof. reflexivity. Qed.

Lemma wf_crossing_book : wf_book crossing_book.
Proof. unfold wf_book. simpl. lia. Qed.

Lemma wf_full_book : wf_book full_book.
Proof. unfold wf_book. simpl. lia. Qed.

Lemma full_book_full : full full_book.
Proof. unfold full. simpl. lia. Qed.

Lemma full_book_unregistered : ~ registered full_book "INIT".
Proof.
  intros (i & Hi & Hs). simpl in Hi. destruct i as [|i]; [|lia].
  simpl in Hs. discriminate.
Qed.

(** * The claims *)

(** C1 (as amended). [add_order] does not look at the quantity or at the
    price.  On a well-formed book, whenever the ticker is registered or
    the registry has a free slot, a submission with any quantity and any
    price, non-positive ones included, is accepted: the call returns the
    next order id (not an error), advances the sequence and the
    next-order-id counter by one, and appends the new order to the
    ticker's collection of its side. *)
Theorem add_order_accepts_any_quantity_and_price
    (order_sequence : Z) (ob : order_book) (ty : Z) (t : string) (q p : Z) :
  wf_book ob -> registered ob t \/ ~ full ob ->
  exists i ob' l,
    add_order order_sequence ob ty t q p
    = Ret (next_order_id ob, (order_sequence + 1)%Z, ob')
    /\ next_order_id ob' = (next_order_id ob + 1)%Z
    /\ ticker_symbols ob' !! i = Some (Some t)
    /\ side ty ob !! i = Some l
    /\ side ty ob' !! i = Some (l ++ [Order ty t q p (next_order_id ob)
                                        (order_sequence + 1)]).
Proof. apply add_order_accepted. Qed.

Lemma add_order_accepts_any_quantity_and_price_witness :
  exists i ob' l,
    add_order 0 (create_order_book 2) BUY "ACME" 0 (-5) = Ret (1%Z, 1%Z, ob')
    /\ next_order_id ob' = 2%Z
    /\ ticker_symbols ob' !! i = Some (Some "ACME")
    /\ side BUY (create_order_book 2) !! i = Some l
    /\ side BUY ob' !! i = Some (l ++ [Order BUY "ACME" 0 (-5) 1 1]).
Proof.
  apply (add_order_accepts_any_quantity_and_price 0 (create_order_book 2)
           BUY "ACME" 0 (-5)).
  - apply create_order_book_wf.
  - right. unfold full. simpl. lia.
Defined.

(** C1 (as stated) fails: a submission with quantity 0 and price -5 is not
    rejected; it returns order id 1 and the book holds the order. *)
Lemma add_order_nonpositive_not_rejected :
  exists r seq' ob',
    add_order 0 (create_order_book 2) BUY "ACME" 0 (-5) = Ret (r, seq', ob')
    /\ r <> (-1)%Z
    /\ ob' <> create_order_book 2
    /\ buy_orders ob' = [[Order BUY "ACME" 0 (-5) 1 1]; []]
    /\ ticker_count ob' = 1%nat
    /\ next_order_id ob' = 2%Z.
Proof.
  do 3 eexists. split; [reflexivity|]. repeat split; discriminate.
Qed.

(** C2 (as amended). When the registry is at capacity and the ticker has
    no slot, [add_order] returns [-1]; the ticker symbols, the ticker
    count and the resting buy and sell collections are what they were,
    and the next-order-id counter and the global sequence are each one
    more than before. *)
Theorem add_order_full_registry
    (order_sequence : Z) (ob : order_book) (ty : Z) (t : string) (q p : Z) :
  wf_book ob -> full ob -> ~ registered ob t ->
  exists ob',
    add_order order_sequence ob ty t q p
    = Ret ((-1)%Z, (order_sequence + 1)%Z, ob')
    /\ ticker_symbols ob' = ticker_symbols ob
    /\ ticker_count ob' = ticker_count ob
    /\ buy_orders ob' = buy_orders ob
    /\ sell_orders ob' = sell_orders ob
    /\ next_order_id ob' = (next_order_id ob + 1)%Z.
Proof.
  intros Hwf Hfull Hun. eexists. split.
  - by apply add_order_rejected.
  - repeat split.
Qed.

Lemma add_order_full_registry_witness :
  exists ob',
    add_order 1 full_book BUY "INIT" 7 3 = Ret ((-1)%Z, 2%Z, ob')
    /\ ticker_symbols ob' = ticker_symbols full_book
    /\ ticker_count ob' = ticker_count full_book
    /\ buy_orders ob' = buy_orders full_book
    /\ sell_orders ob' = sell_orders full_book
    /\ next_order_id ob' = 3%Z.
Proof.
  apply (add_order_full_registry 1 full_book BUY "INIT" 7 3).
  - apply wf_full_book.
  - apply full_book_full.
  - apply full_book_unregistered.
Defined.

(** C2 (as stated) fails: the book after a rejected submission is not the
    book before it, its next-order-id counter has moved from 2 to 3. *)
Lemma add_order_full_registry_changes_book :
  wf_book full_book /\ full full_book /\ ~ registered full_book "INIT"
  /\ exists ob',
       add_order 1 full_book BUY "INIT" 7 3 = Ret ((-1)%Z, 2%Z, ob')
       /\ next_order_id full_book = 2%Z
       /\ next_order_id ob' = 3%Z
       /\ ob' <> full_book.
Proof.
  split; [apply wf_full_book|]. split; [apply full_book_full|].
  split; [apply full_book_unregistered|].
  eexists. split; [reflexivity|]. repeat split. discriminate.
Qed.

(** C3. Every match record returned by a matching pass names, through its
    sell order id, a sell order resting in one of the processed slots of
    the book, and its execution price is the limit price of that sell
    order. *)
Theorem execution_price_is_sell_limit_price
    (fuel : nat) (ob ob' : order_book) (ms : list match_record)
    (m : match_record) :
  match_orders fuel ob = Ret (ob', ms) -> m ∈ ms ->
  exists t sells s,
    (t < ticker_count ob)%nat
    /\ sell_orders ob !! t = Some sells /\ s ∈ sells
    /\ sell_order_id m = order_id s
    /\ execution_price m = price s.
Proof.
  intros H Hm. unfold match_orders in H.
  destruct (match_tickers_priced fuel _ ob ob' [] ms (NoDup_seq 0 _) H m Hm)
    as [Hnil|(t & sells & Ht & Hs & s & Hin & Hid & Hp)].
  - by apply elem_of_nil in Hnil.
  - exists t, sells, s. apply elem_of_seq in Ht. repeat split; try done. lia.
Qed.

Lemma execution_price_is_sell_limit_price_witness :
  exists t sells s,
    (t < ticker_count crossing_book)%nat
    /\ sell_orders crossing_book !! t = Some sells /\ s ∈ sells
    /\ sell_order_id (MatchRecord 1 3 "ACME" 5 9) = order_id s
    /\ execution_price (MatchRecord 1 3 "ACME" 5 9) = price s.
Proof.
  apply (execution_price_is_sell_limit_price 3 crossing_book
           crossing_book_after [MatchRecord 1 3 "ACME" 5 9]).
  - reflexivity.
  - apply list_elem_of_singleton. reflexivity.
Defined.

(** C4. An execution of the loop body either emits no match and leaves
    both order lists as they are, or it is a match event between the
    selected best buy and best sell: the record it appends carries the
    minimum of the two remaining quantities at that moment, and exactly
    these two orders have their remaining quantity decremented by that
    amount. *)
Theorem matched_quantity_is_min (st : loop_state) (r : step_result) :
  loop_body st = Ret r ->
  (exists st', (r = Broke st' \/ r = Iterated st')
     /\ matches st' = matches st
     /\ cur_buys st' = cur_buys st /\ cur_sells st' = cur_sells st)
  \/ (exists bi si buy sell st',
        best_buy st = Some bi /\ best_sell st = Some si
        /\ cur_buys st !! bi = Some buy /\ cur_sells st !! si = Some sell
        /\ r = Iterated st'
        /\ matches st'
           = matches st
             ++ [MatchRecord (order_id buy) (order_id sell) (ticker buy)
                   (Z.min (quantity buy) (quantity sell)) (price sell)]
        /\ cur_buys st'
           = <[bi := set_quantity buy
                       (quantity buy - Z.min (quantity buy) (quantity sell))]>
               (cur_buys st)
        /\ cur_sells st'
           = <[si := set_quantity sell
                       (quantity sell - Z.min (quantity buy) (quantity sell))]>
               (cur_sells st)).
Proof.
  intros H. apply loop_body_Ret in H.
  destruct H as [Hnone | bi si buy sell Hbi Hsi Hb Hs Hle
                | bi si buy sell Hbi Hsi Hb Hs Hlt].
  - left. eexists. split; [by left|]. done.
  - right. exists bi, si, buy, sell. eexists. repeat split; done.
  - left. eexists. split; [by right|]. done.
Qed.

Lemma matched_quantity_is_min_witness :
  exists bi si buy sell st',
    best_buy crossing_state = Some bi /\ best_sell crossing_state = Some si
    /\ cur_buys crossing_state !! bi = Some buy
    /\ cur_sells crossing_state !! si = Some sell
    /\ Iterated crossing_state_after = Iterated st'
    /\ matches st'
       = matches crossing_state
         ++ [MatchRecord (order_id buy) (order_id sell) (ticker buy)
               (Z.min (quantity buy) (quantity sell)) (price sell)]
    /\ cur_buys st'
       = <[bi := set_quantity buy
                   (quantity buy - Z.min (quantity buy) (quantity sell))]>
           (cur_buys crossing_state)
    /\ cur_sells st'
       = <[si := set_quantity sell
                   (quantity sell - Z.min (quantity buy) (quantity sell))]>
           (cur_sells crossing_state).
Proof.
  destruct (matched_quantity_is_min crossing_state
              (Iterated crossing_state_after) eq_refl)
    as [(st' & [E|E] & Hm & _)|H].
  - discriminate E.
  - injection E as <-. discriminate Hm.
  - exact H.
Defined.

(** What [find_best_order] selects with the two comparison functions of
    [match_orders]: with [x > y] an order not marked completed whose price
    is the highest among the orders not marked completed and whose sequence
    number is the lowest among those at that price; with [x < y] the lowest
    price and, at that price, the lowest sequence number.  An order is
    selected whenever one is not marked completed. *)
Lemma best_order_selection (orders : list order) (completed : list nat) :
  (forall i, find_best_order orders completed Z.gtb = Some i ->
     exists o, orders !! i = Some o /\ is_completed completed i = false
       /\ forall j oj, orders !! j = Some oj -> is_completed completed j = false ->
            (price oj < price o)%Z
            \/ (price oj = price o /\ (sequence o <= sequence oj)%Z))
  /\ (forall i, find_best_order orders completed Z.ltb = Some i ->
        exists o, orders !! i = Some o /\ is_completed completed i = false
          /\ forall j oj, orders !! j = Some oj -> is_completed completed j = false ->
               (price o < price oj)%Z
               \/ (price oj = price o /\ (sequence o <= sequence oj)%Z))
  /\ (forall j, (j < length orders)%nat -> is_completed completed j = false ->
        is_Some (find_best_order orders completed Z.gtb)
        /\ is_Some (find_best_order orders completed Z.ltb)).
Proof.
  split; [|split].
  - intros i H. apply (find_best_order_Some _ gtb_trans gtb_total) in H.
    destruct H as (o & Ho & Hc & Hall). exists o. repeat split; try done.
    intros j oj Hj Hcj. destruct (Hall j oj Hj Hcj) as [Hgt|[He Hs]].
    + left. rewrite Z.gtb_ltb, Z.ltb_lt in Hgt. lia.
    + right. split; [congruence | done].
  - intros i H. apply (find_best_order_Some _ ltb_trans ltb_total) in H.
    destruct H as (o & Ho & Hc & Hall). exists o. repeat split; try done.
    intros j oj Hj Hcj. destruct (Hall j oj Hj Hcj) as [Hlt|[He Hs]].
    + left. rewrite Z.ltb_lt in Hlt. lia.
    + right. split; [congruence | done].
  - intros j Hj Hc. split.
    + destruct (find_best_order_pending Z.gtb gtb_trans gtb_total
                  completed orders j Hj Hc) as [i ->]. eauto.
    + destruct (find_best_order_pending Z.ltb ltb_trans ltb_total
                  completed orders j Hj Hc) as [i ->]. eauto.
Qed.

(** C5. At every step of the crossing loop, that is in every execution of
    its body, the best buy is selected among the buy orders not marked
    completed: it has the highest limit price among them and, among those at
    that price, the lowest sequence number; the best sell is selected among
    the sell orders not marked completed: the lowest limit price and, at
    that price, the lowest sequence number.  The body breaks out of the loop
    only when every buy order, or every sell order, is marked completed.
    When the two selected orders cross, they are the two orders of the
    trade: the record appended carries their ids and their two quantities
    are the ones decremented; otherwise the step trades nothing.  In
    particular, of two equal-price buys not marked completed the one
    submitted earlier is the one that is filled. *)
Theorem loop_selects_best_pair (st : loop_state) (r : step_result) :
  loop_body st = Ret r ->
  ((forall j, (j < length (cur_buys st))%nat ->
      is_completed (completed_buys st) j = true)
   /\ r = Broke (set_continue st false))
  \/ exists bi buy,
       find_best_order (cur_buys st) (completed_buys st) Z.gtb = Some bi
       /\ cur_buys st !! bi = Some buy
       /\ is_completed (completed_buys st) bi = false
       /\ (forall j oj, cur_buys st !! j = Some oj ->
             is_completed (completed_buys st) j = false ->
             (price oj < price buy)%Z
             \/ (price oj = price buy /\ (sequence buy <= sequence oj)%Z))
       /\ (((forall j, (j < length (cur_sells st))%nat ->
               is_completed (completed_sells st) j = true)
            /\ r = Broke (set_continue st false))
           \/ exists si sell,
                find_best_order (cur_sells st) (completed_sells st) Z.ltb
                = Some si
                /\ cur_sells st !! si = Some sell
                /\ is_completed (completed_sells st) si = false
                /\ (forall j oj, cur_sells st !! j = Some oj ->
                      is_completed (completed_sells st) j = false ->
                      (price sell < price oj)%Z
                      \/ (price oj = price sell
                          /\ (sequence sell <= sequence oj)%Z))
                /\ (((price buy < price sell)%Z
                     /\ r = Iterated (set_continue st false))
                    \/ ((price sell <= price buy)%Z
                        /\ exists st',
                             r = Iterated st'
                             /\ st' = trade (set_continue st false)
                                        bi si buy sell
                             /\ matches st'
                                = matches st
                                  ++ [MatchRecord (order_id buy) (order_id sell)
                                        (ticker buy)
                                        (Z.min (quantity buy) (quantity sell))
                                        (price sell)]
                             /\ cur_buys st'
                                = <[bi := set_quantity buy
                                            (quantity buy
                                             - Z.min (quantity buy)
                                                 (quantity sell))]>
                                    (cur_buys st)
                             /\ cur_sells st'
                                = <[si := set_quantity sell
                                            (quantity sell
                                             - Z.min (quantity buy)
                                                 (quantity sell))]>
                                    (cur_sells st)))).
Proof.
  intros H. apply loop_body_Ret in H.
  assert (Hbuy_sel : forall bi buy,
    best_buy st = Some bi -> cur_buys st !! bi = Some buy ->
    is_completed (completed_buys st) bi = false
    /\ forall j oj, cur_buys st !! j = Some oj ->
         is_completed (completed_buys st) j = false ->
         (price oj < price buy)%Z
         \/ (price oj = price buy /\ (sequence buy <= sequence oj)%Z)).
  { intros bi buy Hbi Hbuy.
    destruct (proj1 (best_order_selection (cur_buys st) (completed_buys st))
                bi Hbi) as (o & Ho & Hc & Hall).
    assert (o = buy) by congruence. subst o. done. }
  assert (Hsell_sel : forall si sell,
    best_sell st = Some si -> cur_sells st !! si = Some sell ->
    is_completed (completed_sells st) si = false
    /\ forall j oj, cur_sells st !! j = Some oj ->
         is_completed (completed_sells st) j = false ->
         (price sell < price oj)%Z
         \/ (price oj = price sell /\ (sequence sell <= sequence oj)%Z)).
  { intros si sell Hsi Hsell.
    destruct (proj1 (proj2 (best_order_selection (cur_sells st)
                              (completed_sells st))) si Hsi)
      as (o & Ho & Hc & Hall).
    assert (o = sell) by congruence. subst o. done. }
  destruct H as [Hnone | bi si buy sell Hbi Hsi Hbuy Hsell Hle
                | bi si buy sell Hbi Hsi Hbuy Hsell Hlt].
  - assert (Hcase : best_buy st = None \/ exists bi, best_buy st = Some bi)
      by (destruct (best_buy st); eauto).
    destruct Hcase as [Hbi|[bi Hbi]].
    + left. split; [|done].
      by apply (find_best_order_None Z.gtb gtb_trans gtb_total).
    + destruct Hnone as [Hnone|Hnone]; [congruence|].
      destruct (best_buy_Some st bi Hbi) as (buy & Hbuy & _).
      destruct (Hbuy_sel bi buy Hbi Hbuy) as [Hc Hall].
      right. exists bi, buy. do 4 (split; [done|]). left. split; [|done].
      by apply (find_best_order_None Z.ltb ltb_trans ltb_total).
  - destruct (Hbuy_sel bi buy Hbi Hbuy) as [Hcb Hallb].
    destruct (Hsell_sel si sell Hsi Hsell) as [Hcs Halls].
    right. exists bi, buy. do 4 (split; [done|]).
    right. exists si, sell. do 4 (split; [done|]).
    right. split; [done|]. eexists. split; [reflexivity|]. done.
  - destruct (Hbuy_sel bi buy Hbi Hbuy) as [Hcb Hallb].
    destruct (Hsell_sel si sell Hsi Hsell) as [Hcs Halls].
    right. exists bi, buy. do 4 (split; [done|]).
    right. exists si, sell. do 4 (split; [done|]).
    left. done.
Qed.

Lemma loop_selects_best_pair_witness :
  exists si sell,
    cur_sells crossing_state !! si = Some sell
    /\ Iterated crossing_state_after
       = Iterated (trade (set_continue crossing_state false)
                     0 si order_B1 sell).
Proof.
  destruct (loop_selects_best_pair crossing_state
              (Iterated crossing_state_after) eq_refl)
    as [[_ E]
       |(bi & buy & _ & Hbuy & _ & Hallb
         & [[_ E]
           |(si & sell & _ & Hsell & _ & _
             & [[_ E]|(_ & st' & E & -> & _)])])];
    try discriminate E.
  assert (Hfirst : bi = 0%nat /\ buy = order_B1).
  { destruct bi as [|[|bi]]; simpl in Hbuy; [| |discriminate Hbuy].
    - injection Hbuy as <-. split; reflexivity.
    - injection Hbuy as <-.
      destruct (Hallb 0%nat order_B1 eq_refl eq_refl) as [Hp|[_ Hs]];
        simpl in *; lia. }
  destruct Hfirst as [-> ->].
  exists si, sell. split; [exact Hsell | exact E].
Defined.

(** C6. When, in the slot of a symbol, the best buy is priced strictly
    below the best sell, a matching pass leaves the slot's buy orders and
    sell orders exactly as they were, and the slot contributes nothing to
    the pass: leaving the slot out of the pass gives the same book and the
    same list of match records. *)
Theorem no_cross_leaves_symbol_untouched
    (fuel : nat) (ob ob' : order_book) (ms : list match_record) (t : nat)
    (buys sells : list order) (bi si : nat) (buy sell : order) :
  match_orders fuel ob = Ret (ob', ms) ->
  (t < ticker_count ob)%nat ->
  buy_orders ob !! t = Some buys -> sell_orders ob !! t = Some sells ->
  find_best_order buys [] Z.gtb = Some bi -> buys !! bi = Some buy ->
  find_best_order sells [] Z.ltb = Some si -> sells !! si = Some sell ->
  (price buy < price sell)%Z ->
  buy_orders ob' !! t = Some buys
  /\ sell_orders ob' !! t = Some sells
  /\ match_tickers fuel (filter (fun j => j <> t) (seq 0 (ticker_count ob))) ob []
     = Ret (ob', ms).
Proof.
  intros H Ht Hb Hs Hbi Hbuy Hsi Hsell Hlt.
  assert (Hnc : no_cross ob t).
  { exists buys, sells, bi, si, buy, sell. repeat split; done. }
  pose proof (match_tickers_skip_no_cross fuel _ ob ob' [] ms t Hnc H) as Hskip.
  apply match_tickers_frame in Hskip as Hframe.
  destruct Hframe as (_ & _ & _ & _ & _ & F).
  destruct (F t) as (_ & Eb & Es).
  { intros Hin. apply list_elem_of_filter in Hin as [Hne _]. done. }
  repeat split; [congruence | congruence | done].
Qed.

Lemma no_cross_leaves_symbol_untouched_witness :
  buy_orders apart_book !! 0%nat = Some [Order BUY "ACME" 5 9 1 1]
  /\ sell_orders apart_book !! 0%nat = Some [Order SELL "ACME" 5 10 2 2]
  /\ match_tickers 1 (filter (fun j => j <> 0%nat) (seq 0 (ticker_count apart_book)))
       apart_book []
     = Ret (apart_book, []).
Proof.
  apply (no_cross_leaves_symbol_untouched 1 apart_book apart_book [] 0
           [Order BUY "ACME" 5 9 1 1] [Order SELL "ACME" 5 10 2 2] 0 0
           (Order BUY "ACME" 5 9 1 1) (Order SELL "ACME" 5 10 2 2));
    try reflexivity; simpl; lia.
Defined.

(** C7. After a matching pass has returned, a second pass on the book it
    left returns the empty list of match records (and leaves the book as
    it is); one execution of the loop body per slot is enough for it. *)
Theorem second_pass_is_empty
    (fuel fuel2 : nat) (ob ob1 : order_book) (ms : list match_record) :
  match_orders fuel ob = Ret (ob1, ms) -> (0 < fuel2)%nat ->
  match_orders fuel2 ob1 = Ret (ob1, []).
Proof.
  intros H Hpos. destruct fuel2 as [|fuel2]; [lia|].
  unfold match_orders in *.
  pose proof (match_tickers_settles fuel _ ob ob1 [] ms (NoDup_seq 0 _) H) as Hs.
  apply match_tickers_frame in H as (_ & Hc & _). rewrite Hc.
  by apply settled_match_tickers.
Qed.

Lemma second_pass_is_empty_witness :
  match_orders 3 crossing_book
  = Ret (crossing_book_after, [MatchRecord 1 3 "ACME" 5 9])
  /\ match_orders 1 crossing_book_after = Ret (crossing_book_after, []).
Proof.
  split; [reflexivity|].
  apply (second_pass_is_empty 3 1 crossing_book crossing_book_after
           [MatchRecord 1 3 "ACME" 5 9]).
  - reflexivity.
  - lia.
Defined.

(** C8 (as amended). The invariant that every resting order has a remaining
    quantity strictly greater than zero is kept by every matching pass (an
    order whose quantity reaches zero in the pass is gone from its
    collection when the pass returns) and by every submission whose
    quantity is positive. *)
Theorem positive_quantities_preserved (ob : order_book) :
  positive_book ob ->
  (forall fuel ob' ms,
     match_orders fuel ob = Ret (ob', ms) -> positive_book ob')
  /\ (forall order_sequence ty t q p r seq' ob',
        (0 < q)%Z ->
        add_order order_sequence ob ty t q p = Ret (r, seq', ob') ->
        positive_book ob').
Proof.
  intros Hpos. split.
  - intros fuel ob' ms H.
    by apply (match_tickers_positive fuel (seq 0 (ticker_count ob)) ob ob' [] ms).
  - intros order_sequence ty t q p r seq' ob' Hq H.
    by apply (add_order_positive order_sequence ob ty t q p r seq' ob').
Qed.

Lemma positive_crossing_book : positive_book crossing_book.
Proof.
  split; simpl; repeat (apply Forall_cons; split);
    try apply Forall_nil; unfold positive_quantity; simpl; lia.
Qed.

Lemma positive_quantities_preserved_witness :
  positive_book crossing_book_after
  /\ forall ob', add_order 3 crossing_book SELL "ACME" 4 11
                 = Ret (4%Z, 4%Z, ob') -> positive_book ob'.
Proof.
  destruct (positive_quantities_preserved crossing_book positive_crossing_book)
    as [Hmatch Hadd].
  split.
  - apply (Hmatch 3%nat crossing_book_after [MatchRecord 1 3 "ACME" 5 9]).
    reflexivity.
  - intros ob' H.
    apply (Hadd 3%Z SELL "ACME" 4%Z 11%Z 4%Z 4%Z ob'); [lia | exact H].
Defined.

(** C8 (as stated) fails: a submission with quantity 0 puts an order with
    remaining quantity 0 in a book whose resting orders were all
    positive. *)
Lemma zero_quantity_order_rests :
  positive_book crossing_book
  /\ exists ob',
       add_order 3 crossing_book SELL "ACME" 0 11 = Ret (4%Z, 4%Z, ob')
       /\ sell_orders ob' !! 0%nat
          = Some [order_S1; Order SELL "ACME" 0 11 4 4]
       /\ ~ positive_book ob'.
Proof.
  split; [apply positive_crossing_book|].
  eexists. split; [reflexivity|]. split; [reflexivity|].
  intros [_ H]. simpl in H.
  apply Forall_cons in H as [H _].
  apply Forall_cons in H as [_ H].
  apply Forall_cons in H as [H _].
  unfold positive_quantity in H. simpl in H. lia.
Qed.

(** C9. On a well-formed book a matching pass returns: with any fuel
    larger than the number of resting orders the loop of every slot
    reaches a stop condition before the fuel is used up and no index is
    out of range, and the book and the match records returned do not
    depend on the fuel. *)
Theorem match_orders_terminates (ob : order_book) :
  wf_book ob ->
  exists ob' ms, forall fuel,
    (resting ob < fuel)%nat -> match_orders fuel ob = Ret (ob', ms).
Proof.
  intros Hwf.
  destruct (match_tickers_returns (S (resting ob)) (seq 0 (ticker_count ob))
              ob [] (NoDup_seq 0 _)) as ([ob' ms] & H).
  - intros t Ht. apply elem_of_seq in Ht.
    apply wf_book_slot_fits; [done | lia | lia].
  - exists ob', ms. intros fuel Hfuel.
    apply (match_tickers_fuel_mono (S (resting ob))); [done | lia].
Qed.

Lemma match_orders_terminates_witness :
  exists ob' ms, forall fuel,
    (resting crossing_book < fuel)%nat ->
    match_orders fuel crossing_book = Ret (ob', ms).
Proof.
  apply (match_orders_terminates crossing_book). apply wf_crossing_book.
Defined.

(** C10. A submission rejected because the registry is full returns [-1]
    and leaves the next-order-id counter and the global sequence each
    advanced by one.  The order id and the sequence number it consumed are
    never issued again: after any further calls (submissions and matching
    passes), the order created by a submission has a greater order id and a
    greater sequence number. *)
Theorem rejected_submission_consumes_id_and_sequence
    (order_sequence : Z) (ob : order_book) (ty : Z) (t : string) (q p : Z) :
  wf_book ob -> full ob -> ~ registered ob t ->
  exists ob',
    add_order order_sequence ob ty t q p
    = Ret ((-1)%Z, (order_sequence + 1)%Z, ob')
    /\ next_order_id ob' = (next_order_id ob + 1)%Z
    /\ forall calls seq2 ob2 ty2 t2 q2 p2,
         run ((order_sequence + 1)%Z, ob') calls = Ret (seq2, ob2) ->
         (next_order_id ob < order_id (new_order seq2 ob2 ty2 t2 q2 p2))%Z
         /\ (order_sequence + 1 < sequence (new_order seq2 ob2 ty2 t2 q2 p2))%Z.
Proof.
  intros Hwf Hfull Hun. eexists. split; [by apply add_order_rejected|].
  split; [done|].
  intros calls seq2 ob2 ty2 t2 q2 p2 Hrun.
  apply run_counters in Hrun. simpl in *. lia.
Qed.

Lemma rejected_submission_consumes_id_and_sequence_witness :
  exists ob',
    add_order 1 full_book BUY "INIT" 7 3 = Ret ((-1)%Z, 2%Z, ob')
    /\ next_order_id ob' = 3%Z
    /\ forall calls seq2 ob2 ty2 t2 q2 p2,
         run (2%Z, ob') calls = Ret (seq2, ob2) ->
         (2 < order_id (new_order seq2 ob2 ty2 t2 q2 p2))%Z
         /\ (2 < sequence (new_order seq2 ob2 ty2 t2 q2 p2))%Z.
Proof.
  apply (rejected_submission_consumes_id_and_sequence 1 full_book BUY "INIT" 7 3).
  - apply wf_full_book.
  - apply full_book_full.
  - apply full_book_unregistered.
Defined.

(** The order id skipped by the rejection of C10: the next accepted
    submission gets id 3, not 2. *)
Example order_ids_have_gaps :
  (r1 ← add_order 1 full_book BUY "INIT" 7 3;
   add_order (snd (fst r1)) (snd r1) SELL "ACME" 7 3)
  = Ret (3%Z, 3%Z,
         {| ticker_symbols := [Some "ACME"];
            buy_orders := [[Order BUY "ACME" 10 10 1 1]];
            sell_orders := [[Order SELL "ACME" 7 3 3 3]];
            ticker_count := 1;
            next_order_id := 4 |}).
Proof. reflexivity. Qed.

(** * Further properties *)

(** ** The registry: lookup after registration *)

Lemma scan_tickers_Some_first (symbols : list (option string)) (t : string)
    (i n j : nat) :
  scan_tickers symbols t i n = Ret (Some j) ->
  forall k, (i <= k < j)%nat -> exists s, symbols !! k = Some s /\ s <> Some t.
Proof.
  revert i. induction n as [|n IH]; intros i H k Hk; simpl in H; [discriminate|].
  apply bind_Ret in H as (s & Hs & H). apply index_Ret in Hs.
  destruct (bool_decide (s = Some t)) eqn:E.
  - injection H as <-. lia.
  - apply bool_decide_eq_false in E.
    destruct (decide (k = i)) as [->|Hne]; [eauto|].
    apply (IH (S i) H). lia.
Qed.

Lemma scan_tickers_None_all (symbols : list (option string)) (t : string)
    (i n : nat) :
  scan_tickers symbols t i n = Ret None ->
  forall k, (i <= k < i + n)%nat -> exists s, symbols !! k = Some s /\ s <> Some t.
Proof.
  revert i. induction n as [|n IH]; intros i H k Hk; simpl in H; [lia|].
  apply bind_Ret in H as (s & Hs & H). apply index_Ret in Hs.
  destruct (bool_decide (s = Some t)) eqn:E; [discriminate|].
  apply bool_decide_eq_false in E.
  destruct (decide (k = i)) as [->|Hne]; [eauto|].
  apply (IH (S i) H). lia.
Qed.

Lemma scan_tickers_first (symbols : list (option string)) (t : string)
    (i n j : nat) :
  (forall k, (i <= k < j)%nat -> exists s, symbols !! k = Some s /\ s <> Some t) ->
  symbols !! j = Some (Some t) -> (i <= j < i + n)%nat ->
  scan_tickers symbols t i n = Ret (Some j).
Proof.
  revert i. induction n as [|n IH]; intros i Hpre Hj Hr; [lia|].
  simpl. destruct (decide (i = j)) as [->|Hne].
  - unfold index. rewrite Hj. simpl. by rewrite bool_decide_eq_true_2.
  - destruct (Hpre i ltac:(lia)) as (s & Hs & Hns).
    unfold index. rewrite Hs. simpl. rewrite bool_decide_eq_false_2 by done.
    apply IH; [|done|lia]. intros k Hk. apply Hpre. lia.
Qed.

Lemma resolves_get_ticker_index (ob : order_book) (t : string) (i : nat) :
  resolves ob t i -> get_ticker_index ob t = Ret (Some i, ob).
Proof. unfold resolves, get_ticker_index. intros ->. reflexivity. Qed.

Lemma get_ticker_index_resolves (ob ob' : order_book) (t : string) (i : nat) :
  get_ticker_index ob t = Ret (Some i, ob') ->
  resolves ob' t i /\ registry_extends ob ob'
  /\ ticker_symbols ob' !! i = Some (Some t) /\ (i < ticker_count ob')%nat.
Proof.
  unfold get_ticker_index. intros H.
  apply bind_Ret in H as (found & Hscan & H).
  destruct found as [k|].
  - injection H as <- <-.
    destruct (scan_tickers_Some _ _ _ _ _ Hscan) as [Hk Hs].
    repeat split; try done; lia.
  - destruct (length (ticker_symbols ob) <=? ticker_count ob)%nat eqn:E;
      [discriminate|].
    apply Nat.leb_gt in E. injection H as <- <-.
    pose proof (scan_tickers_None_all _ _ _ _ Hscan) as Hall.
    assert (Hnew : <[ticker_count ob := Some t]> (ticker_symbols ob)
                     !! ticker_count ob = Some (Some t))
      by (by apply list_lookup_insert_eq).
    unfold resolves, registry_extends.
    cbn [ticker_symbols ticker_count]. repeat split; try done; try lia.
    + apply scan_tickers_first; [|done|lia].
      intros k Hk. rewrite list_lookup_insert_ne by lia. apply Hall. lia.
    + intros k Hk. apply list_lookup_insert_ne. lia.
Qed.

Lemma registry_extends_refl (ob : order_book) : registry_extends ob ob.
Proof. split; [lia | done]. Qed.

Lemma registry_extends_trans (ob1 ob2 ob3 : order_book) :
  registry_extends ob1 ob2 -> registry_extends ob2 ob3 ->
  registry_extends ob1 ob3.
Proof.
  intros [H1 H1'] [H2 H2']. split; [lia|].
  intros k Hk. rewrite H2' by lia. by apply H1'.
Qed.

Lemma resolves_extends (ob ob' : order_book) (t : string) (i : nat) :
  resolves ob t i -> registry_extends ob ob' -> resolves ob' t i.
Proof.
  unfold resolves. intros H [Hc Hs].
  destruct (scan_tickers_Some _ _ _ _ _ H) as [Hi Hsym].
  apply scan_tickers_first; [| |lia].
  - intros k Hk. rewrite Hs by lia.
    apply (scan_tickers_Some_first _ _ _ _ _ H). lia.
  - rewrite Hs by lia. done.
Qed.

Lemma get_ticker_index_extends (ob ob' : order_book) (t : string)
    (r : option nat) :
  get_ticker_index ob t = Ret (r, ob') -> registry_extends ob ob'.
Proof.
  destruct r as [i|].
  - intros H. by apply get_ticker_index_resolves in H as (_ & H & _).
  - unfold get_ticker_index. intros H.
    apply bind_Ret in H as (found & _ & H). destruct found; [discriminate|].
    destruct (length (ticker_symbols ob) <=? ticker_count ob)%nat;
      [|discriminate].
    injection H as <-. apply registry_extends_refl.
Qed.

Lemma add_order_extends (order_sequence : Z) (ob : order_book)
    (ty : Z) (t : string) (q p : Z) (r seq' : Z) (ob' : order_book) :
  add_order order_sequence ob ty t q p = Ret (r, seq', ob') ->
  registry_extends ob ob'.
Proof.
  unfold add_order. intros H.
  apply bind_Ret in H as ([idx obr] & Hidx & H).
  apply get_ticker_index_extends in Hidx.
  assert (E : ticker_symbols ob' = ticker_symbols obr
              /\ ticker_count ob' = ticker_count obr).
  { destruct idx as [i|].
    - destruct (ty =? BUY)%Z;
        apply bind_Ret in H as (l & _ & H); by injection H as <- <- <-.
    - by injection H as <- <- <-. }
  destruct E as [E1 E2]. destruct Hidx as [Hc Hs].
  unfold registry_extends. rewrite E1, E2. simpl in *. done.
Qed.

Lemma do_call_extends (s s' : Z * order_book) (c : call) :
  do_call s c = Ret s' -> registry_extends (snd s) (snd s').
Proof.
  destruct c as [ty t q p|fuel]; simpl; intros H.
  - apply bind_Ret in H as ([[r seq'] ob'] & Hr & H). injection H as <-.
    by apply add_order_extends in Hr.
  - apply bind_Ret in H as ([ob' ms] & Hr & H). injection H as <-.
    apply match_tickers_frame in Hr as (E1 & E2 & _).
    unfold registry_extends. simpl. rewrite E1, E2. split; [lia | done].
Qed.

Lemma run_extends (s s' : Z * order_book) (calls : list call) :
  run s calls = Ret s' -> registry_extends (snd s) (snd s').
Proof.
  revert s. induction calls as [|c rest IH]; intros s H; simpl in H.
  - injection H as <-. apply registry_extends_refl.
  - apply bind_Ret in H as (s1 & H1 & H).
    apply (registry_extends_trans _ (snd s1)); [by apply (do_call_extends s s1 c)|].
    by apply IH.
Qed.

Lemma get_ticker_index_distinct (ob ob' : order_book) (t : string)
    (r : option nat) :
  distinct_slots ob -> get_ticker_index ob t = Ret (r, ob') ->
  distinct_slots ob'.
Proof.
  unfold get_ticker_index. intros Hd H.
  apply bind_Ret in H as (found & Hscan & H).
  destruct found as [k|]; [by injection H as <- <-|].
  destruct (length (ticker_symbols ob) <=? ticker_count ob)%nat eqn:E;
    [by injection H as <- <-|].
  apply Nat.leb_gt in E. injection H as <- <-.
  pose proof (scan_tickers_None_all _ _ _ _ Hscan) as Hall.
  intros i j t' Hi Hj Hsi Hsj. cbn [ticker_symbols ticker_count] in *.
  assert (Hold : forall k, (k < ticker_count ob)%nat ->
            <[ticker_count ob := Some t]> (ticker_symbols ob) !! k
            = Some (Some t') -> ticker_symbols ob !! k = Some (Some t')).
  { intros k Hk Hl. by rewrite list_lookup_insert_ne in Hl by lia. }
  assert (Hnew : forall k,
            <[ticker_count ob := Some t]> (ticker_symbols ob) !! ticker_count ob
            = Some (Some t') -> (k < ticker_count ob)%nat ->
            ticker_symbols ob !! k = Some (Some t') -> False).
  { intros k Hl Hk Hs. rewrite list_lookup_insert_eq in Hl by lia.
    injection Hl as <-. destruct (Hall k ltac:(lia)) as (s & Hs' & Hne).
    congruence. }
  destruct (decide (i = ticker_count ob)) as [->|Hni];
    destruct (decide (j = ticker_count ob)) as [->|Hnj]; try done.
  - exfalso. apply (Hnew j Hsi); [lia|]. apply Hold; [lia | done].
  - exfalso. apply (Hnew i Hsj); [lia|]. apply Hold; [lia | done].
  - apply (Hd i j t'); try lia; apply Hold; try lia; done.
Qed.

Lemma add_order_registry (order_sequence : Z) (ob : order_book)
    (ty : Z) (t : string) (q p : Z) (r seq' : Z) (ob' : order_book) :
  add_order order_sequence ob ty t q p = Ret (r, seq', ob') ->
  exists idx obr,
    get_ticker_index (set_next_order_id ob (next_order_id ob + 1)) t
    = Ret (idx, obr)
    /\ ticker_symbols ob' = ticker_symbols obr
    /\ ticker_count ob' = ticker_count obr.
Proof.
  unfold add_order. intros H.
  apply bind_Ret in H as ([idx obr] & Hidx & H).
  exists idx, obr. split; [done|].
  destruct idx as [i|].
  - destruct (ty =? BUY)%Z;
      apply bind_Ret in H as (l & _ & H); by injection H as <- <- <-.
  - by injection H as <- <- <-.
Qed.

Lemma do_call_distinct (s s' : Z * order_book) (c : call) :
  distinct_slots (snd s) -> do_call s c = Ret s' -> distinct_slots (snd s').
Proof.
  destruct c as [ty t q p|fuel]; simpl; intros Hd H.
  - apply bind_Ret in H as ([[r seq'] ob'] & Hr & H). injection H as <-.
    apply add_order_registry in Hr as (idx & obr & Hidx & E1 & E2).
    apply get_ticker_index_distinct in Hidx; [|exact Hd].
    unfold distinct_slots in *. simpl. rewrite E1, E2. exact Hidx.
  - apply bind_Ret in H as ([ob' ms] & Hr & H). injection H as <-.
    apply match_tickers_frame in Hr as (E1 & E2 & _).
    unfold distinct_slots in *. simpl. rewrite E1, E2. exact Hd.
Qed.

(** X1. Once a ticker has been looked up or registered at slot [i], it keeps
    that slot: after any further submissions and matching passes,
    [get_ticker_index] returns [i] for it again, changes nothing, and slot
    [i] still carries the ticker. *)
Theorem ticker_slot_is_stable
    (ob ob1 ob' : order_book) (t : string) (i : nat) (order_sequence seq' : Z)
    (calls : list call) :
  get_ticker_index ob t = Ret (Some i, ob1) ->
  run (order_sequence, ob1) calls = Ret (seq', ob') ->
  get_ticker_index ob' t = Ret (Some i, ob')
  /\ ticker_symbols ob' !! i = Some (Some t)
  /\ (i < ticker_count ob')%nat.
Proof.
  intros Hget Hrun.
  apply get_ticker_index_resolves in Hget as (Hres & _ & _ & _).
  apply run_extends in Hrun. simpl in Hrun.
  pose proof (resolves_extends ob1 ob' t i Hres Hrun) as Hres'.
  split; [by apply resolves_get_ticker_index|].
  destruct (scan_tickers_Some _ _ _ _ _ Hres') as [Hi Hs].
  split; [done | lia].
Qed.

Lemma ticker_slot_is_stable_witness :
  get_ticker_index crossing_book "ACME" = Ret (Some 0%nat, crossing_book)
  /\ ticker_symbols crossing_book_after !! 0%nat = Some (Some "ACME")
  /\ (0 < ticker_count crossing_book_after)%nat.
Proof.
  destruct (ticker_slot_is_stable crossing_book crossing_book crossing_book_after
              "ACME" 0 3 3 [MatchPass 3] eq_refl eq_refl) as (_ & H2 & H3).
  split; [reflexivity|]. split; [exact H2 | exact H3].
Defined.

(** X2. No ticker ever occupies two slots: if the assigned slots of a book
    carry pairwise different tickers, they still do after any sequence of
    submissions and matching passes.  A fresh book has no assigned slot. *)
Theorem registry_slots_stay_distinct
    (ob ob' : order_book) (order_sequence seq' : Z) (calls : list call) :
  distinct_slots ob ->
  run (order_sequence, ob) calls = Ret (seq', ob') ->
  distinct_slots ob'.
Proof.
  revert ob order_sequence. induction calls as [|c rest IH];
    intros ob order_sequence Hd H; simpl in H.
  - by injection H as <- <-.
  - apply bind_Ret in H as ([s1 ob1] & H1 & H).
    apply (IH ob1 s1); [|done].
    by apply (do_call_distinct (order_sequence, ob) (s1, ob1) c).
Qed.

Lemma create_order_book_distinct (n : nat) : distinct_slots (create_order_book n).
Proof. intros i j t Hi. simpl in Hi. lia. Qed.

Lemma registry_slots_stay_distinct_witness : distinct_slots crossing_book_after.
Proof.
  apply (registry_slots_stay_distinct (create_order_book 2) crossing_book_after
           0 3
           [Submit BUY "ACME" 10 10; Submit BUY "ACME" 10 10;
            Submit SELL "ACME" 5 9; MatchPass 3]).
  - apply create_order_book_distinct.
  - reflexivity.
Defined.

(** X3. On a well-formed book [add_order] always returns (no index is out
    of range) and leaves the book well-formed.  Provided the next order id
    is not [-1] itself, the value returned is [-1] exactly when the registry
    is full and the ticker has no slot, and it is the book's next order id
    otherwise. *)
Theorem add_order_outcome
    (order_sequence : Z) (ob : order_book) (ty : Z) (t : string) (q p : Z) :
  wf_book ob -> next_order_id ob <> (-1)%Z ->
  exists r ob',
    add_order order_sequence ob ty t q p = Ret (r, (order_sequence + 1)%Z, ob')
    /\ wf_book ob'
    /\ (r = (-1)%Z <-> full ob /\ ~ registered ob t)
    /\ (r <> (-1)%Z -> r = next_order_id ob).
Proof.
  intros Hwf Hid.
  destruct (registered_or_not ob t Hwf) as [Hreg|Hun].
  - destruct (add_order_accepted order_sequence ob ty t q p Hwf (or_introl Hreg))
      as (i & ob' & l & H & _).
    exists (next_order_id ob), ob'. split; [done|].
    split; [by apply (add_order_wf _ _ _ _ _ _ _ _ _ Hwf H)|].
    split; [|done]. split; [done | intros [_ Hn]; done].
  - destruct (decide (length (ticker_symbols ob) <= ticker_count ob)%nat)
      as [Hfull|Hroom].
    + exists (-1)%Z, (set_next_order_id ob (next_order_id ob + 1)).
      split; [by apply add_order_rejected|].
      split; [exact Hwf|]. split; [|done]. split; done.
    + destruct (add_order_accepted order_sequence ob ty t q p Hwf
                  (or_intror Hroom)) as (i & ob' & l & H & _).
      exists (next_order_id ob), ob'. split; [done|].
      split; [by apply (add_order_wf _ _ _ _ _ _ _ _ _ Hwf H)|].
      split; [|done]. split; [done | intros [Hf _]; done].
Qed.

Lemma add_order_outcome_witness :
  exists r ob',
    add_order 1 full_book BUY "INIT" 7 3 = Ret (r, 2%Z, ob')
    /\ wf_book ob'
    /\ (r = (-1)%Z <-> full full_book /\ ~ registered full_book "INIT")
    /\ (r <> (-1)%Z -> r = next_order_id full_book).
Proof.
  apply (add_order_outcome 1 full_book BUY "INIT" 7 3).
  - apply wf_full_book.
  - simpl. lia.
Defined.

(** ** The registry: first-seen order up to the capacity *)

Lemma add_order_new_ticker (order_sequence : Z) (ob : order_book)
    (ty : Z) (t : string) (q p : Z) :
  wf_book ob -> ~ registered ob t -> ~ full ob ->
  exists ob',
    add_order order_sequence ob ty t q p
    = Ret (next_order_id ob, (order_sequence + 1)%Z, ob')
    /\ wf_book ob'
    /\ ticker_symbols ob' = <[ticker_count ob := Some t]> (ticker_symbols ob)
    /\ ticker_count ob' = S (ticker_count ob).
Proof.
  intros Hwf Hun Hroom.
  destruct (add_order_accepted order_sequence ob ty t q p Hwf (or_intror Hroom))
    as (i & ob' & l & H & _).
  exists ob'. split; [done|].
  split; [by apply (add_order_wf _ _ _ _ _ _ _ _ _ Hwf H)|].
  apply add_order_registry in H as (idx & obr & Hidx & -> & ->).
  rewrite (get_ticker_index_new (set_next_order_id ob (next_order_id ob + 1)) t)
    in Hidx; try done.
  by injection Hidx as <- <-.
Qed.

Lemma run_registers (n : nat) (ts : list string) :
  forall (pre : list string) (calls : list call) (ob : order_book)
         (order_sequence : Z),
    NoDup (pre ++ ts) -> (length pre + length ts <= n)%nat ->
    Forall2 submits ts calls ->
    wf_book ob ->
    ticker_symbols ob = (Some <$> pre) ++ replicate (n - length pre) None ->
    ticker_count ob = length pre ->
    exists seq' ob',
      run (order_sequence, ob) calls = Ret (seq', ob')
      /\ ticker_symbols ob'
         = (Some <$> (pre ++ ts)) ++ replicate (n - length (pre ++ ts)) None
      /\ ticker_count ob' = length (pre ++ ts).
Proof.
  induction ts as [|t ts IH];
    intros pre calls ob order_sequence Hnd Hlen Hcalls Hwf Hsym Hcount.
  - apply Forall2_nil_inv_l in Hcalls as ->. simpl.
    exists order_sequence, ob. rewrite app_nil_r. done.
  - apply Forall2_cons_inv_l in Hcalls
      as (c & rest & (ty & q & p & ->) & Hrest & ->).
    simpl in Hlen.
    assert (Hnin : t ∉ pre).
    { apply NoDup_app in Hnd as (_ & Hdis & _). intros Hin.
      apply (Hdis t Hin). by left. }
    assert (Hun : ~ registered ob t).
    { intros (i & Hi & Hs). rewrite Hsym, Hcount in *.
      rewrite lookup_app_l in Hs by (rewrite length_fmap; lia).
      rewrite list_lookup_fmap in Hs.
      destruct (pre !! i) as [t'|] eqn:E; [|discriminate].
      simpl in Hs. assert (t' = t) by congruence. subst t'.
      apply Hnin. apply list_elem_of_lookup. eauto. }
    assert (Hroom : ~ full ob).
    { unfold full. rewrite Hsym, Hcount, length_app, length_fmap,
        length_replicate. lia. }
    destruct (add_order_new_ticker order_sequence ob ty t q p Hwf Hun Hroom)
      as (ob1 & Hadd & Hwf1 & Hsym1 & Hcount1).
    destruct (IH (pre ++ [t]) rest ob1 (order_sequence + 1)%Z) as (seq' & ob' & Hrun & Hs' & Hc').
    + by rewrite <- app_assoc.
    + rewrite length_app. simpl. lia.
    + done.
    + done.
    + rewrite Hsym1, Hsym, Hcount.
      rewrite insert_app_r_alt by (rewrite length_fmap; lia).
      rewrite length_fmap, Nat.sub_diag.
      replace (n - length pre)%nat with (S (n - length (pre ++ [t])))
        by (rewrite length_app; simpl; lia).
      simpl. rewrite fmap_app. simpl. by rewrite <- app_assoc.
    + rewrite Hcount1, Hcount, length_app. simpl. lia.
    + exists seq', ob'. rewrite <- app_assoc in Hs', Hc'. simpl in Hs', Hc'.
      split; [|done]. simpl. rewrite Hadd. simpl. exact Hrun.
Qed.

(** X4. Starting from a fresh book of capacity [n], submissions for
    pairwise different tickers, at most [n] of them, are all accepted, and
    the tickers take the slots [0, 1, ...] in the order in which they were
    first submitted; the remaining slots stay free. *)
Theorem tickers_registered_in_first_seen_order
    (n : nat) (ts : list string) (calls : list call) (order_sequence : Z) :
  NoDup ts -> (length ts <= n)%nat -> Forall2 submits ts calls ->
  exists seq' ob',
    run (order_sequence, create_order_book n) calls = Ret (seq', ob')
    /\ ticker_symbols ob' = (Some <$> ts) ++ replicate (n - length ts) None
    /\ ticker_count ob' = length ts.
Proof.
  intros Hnd Hlen Hcalls.
  apply (run_registers n ts [] calls (create_order_book n) order_sequence);
    try done.
  - apply create_order_book_wf.
  - simpl. by rewrite Nat.sub_0_r.
Qed.

Lemma tickers_registered_in_first_seen_order_witness :
  exists seq' ob',
    run (0%Z, create_order_book 3) [Submit BUY "INIT" 1 1; Submit SELL "ACME" 2 2]
    = Ret (seq', ob')
    /\ ticker_symbols ob'
       = (Some <$> ["INIT"; "ACME"]) ++ replicate (3 - length ["INIT"; "ACME"]) None
    /\ ticker_count ob' = length ["INIT"; "ACME"].
Proof.
  apply (tickers_registered_in_first_seen_order 3 ["INIT"; "ACME"]
           [Submit BUY "INIT" 1 1; Submit SELL "ACME" 2 2] 0).
  - apply NoDup_cons. split.
    + intros H. apply list_elem_of_singleton in H. discriminate.
    + apply NoDup_singleton.
  - simpl. lia.
  - repeat constructor; do 3 eexists; reflexivity.
Defined.

(** ** Conservation of quantity *)

Lemma sum_quantity_insert (l : list order) (i : nat) (o : order) (q : Z) :
  l !! i = Some o ->
  sum_quantity (<[i := set_quantity o q]> l)
  = (sum_quantity l - quantity o + q)%Z.
Proof.
  revert i. induction l as [|x l IH]; intros i H; [discriminate|].
  destruct i as [|i]; simpl in *.
  - injection H as ->. lia.
  - rewrite (IH i H). lia.
Qed.

Lemma total_matched_app (ms ms' : list match_record) :
  total_matched (ms ++ ms') = (total_matched ms + total_matched ms')%Z.
Proof. induction ms as [|m ms IH]; simpl; [done|]. rewrite IH. lia. Qed.

Lemma mark_zero (l : list order) (c : list nat) (i : nat) (o : order) (q : Z) :
  completed_zero l c -> l !! i = Some o -> is_completed c i = false ->
  completed_zero (<[i := set_quantity o q]> l)
    (if (quantity (set_quantity o q) =? 0)%Z then c ++ [i] else c).
Proof.
  intros Hz Hi Hci j x Hj Hcj. simpl in Hcj.
  destruct (decide (j = i)) as [->|Hne].
  - rewrite list_lookup_insert_eq in Hj by (by apply lookup_lt_Some in Hi).
    injection Hj as <-. simpl.
    destruct (q =? 0)%Z eqn:E; [by apply Z.eqb_eq in E | congruence].
  - rewrite list_lookup_insert_ne in Hj by done. apply (Hz j x Hj).
    destruct (q =? 0)%Z; [|done].
    rewrite is_completed_app in Hcj. apply orb_true_iff in Hcj as [?|Hcj]; [done|].
    apply Nat.eqb_eq in Hcj. done.
Qed.

Lemma remove_completed_from_sum (i : nat) (l : list order) (c : list nat) :
  (forall k o, l !! k = Some o -> is_completed c (i + k) = true ->
     quantity o = 0%Z) ->
  sum_quantity (remove_completed_from i l c) = sum_quantity l.
Proof.
  revert i. induction l as [|x l IH]; intros i Hz; simpl; [done|].
  assert (Hrest : forall k o, l !! k = Some o ->
            is_completed c (S i + k) = true -> quantity o = 0%Z).
  { intros k o Hk Hc. apply (Hz (S k) o Hk).
    by replace (i + S k)%nat with (S i + k)%nat by lia. }
  destruct (is_completed c i) eqn:E.
  - rewrite (IH (S i) Hrest).
    rewrite (Hz 0%nat x eq_refl) by (by rewrite Nat.add_0_r). lia.
  - simpl. by rewrite (IH (S i) Hrest).
Qed.

Lemma settle_sum (l : list order) (c : list nat) :
  completed_zero l c -> sum_quantity (settle l c) = sum_quantity l.
Proof.
  intros Hz. unfold settle. destruct (nonempty c); [|done].
  apply (remove_completed_from_sum 0). intros k o Hk Hc. by apply (Hz k).
Qed.

Lemma crossing_loop_conserves (fuel : nat) (buys sells : list order)
    (ms : list match_record) (st : loop_state) :
  crossing_loop fuel (start_state buys sells ms) = Ret st ->
  conserves buys sells ms st.
Proof.
  apply (crossing_loop_invariant (conserves buys sells ms)).
  - intros st0 H. exact H.
  - intros st0 bi si buy sell (Hb & Hs & Hzb & Hzs) Hbi Hsi Hbuy Hsell _.
    destruct (best_buy_Some st0 bi Hbi) as (? & _ & Hcb & _).
    destruct (best_sell_Some st0 si Hsi) as (? & _ & Hcs & _).
    unfold conserves, trade. simpl.
    rewrite (sum_quantity_insert _ _ _ _ Hbuy), (sum_quantity_insert _ _ _ _ Hsell).
    rewrite total_matched_app. simpl. repeat split; try lia.
    + apply (mark_zero _ _ _ _ _ Hzb Hbuy Hcb).
    + apply (mark_zero _ _ _ _ _ Hzs Hsell Hcs).
  - unfold conserves. simpl. repeat split; try done; intros j o _ Hc; discriminate.
Qed.

Lemma match_lists_conserves (fuel : nat) (buys sells buys' sells' : list order)
    (ms ms' : list match_record) :
  match_lists fuel buys sells ms = Ret (buys', sells', ms') ->
  (sum_quantity buys' + total_matched ms'
   = sum_quantity buys + total_matched ms)%Z
  /\ (sum_quantity sells' + total_matched ms'
      = sum_quantity sells + total_matched ms)%Z.
Proof.
  unfold match_lists.
  destruct (negb (nonempty buys) || negb (nonempty sells)).
  - intros H. by injection H as <- <- <-.
  - intros H. apply bind_Ret in H as (st & Hst & H). injection H as <- <- <-.
    apply crossing_loop_conserves in Hst as (Hb & Hs & Hzb & Hzs).
    by rewrite (settle_sum _ _ Hzb), (settle_sum _ _ Hzs).
Qed.

Lemma book_quantity_insert (ls : list (list order)) (t : nat)
    (l l' : list order) :
  ls !! t = Some l ->
  book_quantity (<[t := l']> ls)
  = (book_quantity ls - sum_quantity l + sum_quantity l')%Z.
Proof.
  revert t. induction ls as [|x ls IH]; intros t H; [discriminate|].
  destruct t as [|t]; simpl in *.
  - injection H as ->. lia.
  - rewrite (IH t H). lia.
Qed.

Lemma match_tickers_conserves (fuel : nat) (idxs : list nat)
    (ob ob' : order_book) (ms ms' : list match_record) :
  match_tickers fuel idxs ob ms = Ret (ob', ms') ->
  (book_quantity (buy_orders ob') + total_matched ms'
   = book_quantity (buy_orders ob) + total_matched ms)%Z
  /\ (book_quantity (sell_orders ob') + total_matched ms'
      = book_quantity (sell_orders ob) + total_matched ms)%Z.
Proof.
  revert ob ms. induction idxs as [|t rest IH]; intros ob ms H; simpl in H.
  - by injection H as <- <-.
  - apply bind_Ret in H as ([ob1 ms1] & H1 & H). simpl in H.
    apply IH in H as [Hb Hs].
    apply match_ticker_Ret in H1
      as [(_ & -> & ->)
         |(s & buys & sells & buys' & sells' & _ & Hbuys & Hsells & Hrun & ->)];
      [done|].
    apply match_lists_conserves in Hrun as [Hb1 Hs1]. simpl in Hb, Hs.
    rewrite (book_quantity_insert _ _ _ _ Hbuys) in Hb.
    rewrite (book_quantity_insert _ _ _ _ Hsells) in Hs. lia.
Qed.

(** X5. A matching pass conserves quantity on each side of the book: the
    total remaining quantity of the buy orders before the pass is the total
    remaining after it plus the total quantity of the match records
    returned, and the same holds for the sell orders. *)
Theorem match_orders_conserves_quantity
    (fuel : nat) (ob ob' : order_book) (ms : list match_record) :
  match_orders fuel ob = Ret (ob', ms) ->
  book_quantity (buy_orders ob)
  = (book_quantity (buy_orders ob') + total_matched ms)%Z
  /\ book_quantity (sell_orders ob)
     = (book_quantity (sell_orders ob') + total_matched ms)%Z.
Proof.
  intros H. apply match_tickers_conserves in H as [Hb Hs]. simpl in *. lia.
Qed.

Lemma match_orders_conserves_quantity_witness :
  book_quantity (buy_orders crossing_book)
  = (book_quantity (buy_orders crossing_book_after)
     + total_matched [MatchRecord 1 3 "ACME" 5 9])%Z
  /\ book_quantity (sell_orders crossing_book)
     = (book_quantity (sell_orders crossing_book_after)
        + total_matched [MatchRecord 1 3 "ACME" 5 9])%Z.
Proof.
  apply (match_orders_conserves_quantity 3 crossing_book crossing_book_after
           [MatchRecord 1 3 "ACME" 5 9]).
  reflexivity.
Defined.

(** ** The two orders of a match record *)

Lemma static_ticker (o o' : order) : static o = static o' -> ticker o = ticker o'.
Proof. intros H. by injection H. Qed.

Lemma crossing_loop_paired (fuel : nat) (buys sells : list order)
    (ms : list match_record) (st : loop_state) :
  crossing_loop fuel (start_state buys sells ms) = Ret st ->
  forall m, m ∈ matches st -> m ∈ ms \/ paired buys sells m.
Proof.
  intros H.
  cut (static <$> cur_buys st = static <$> buys
       /\ static <$> cur_sells st = static <$> sells
       /\ forall m, m ∈ matches st -> m ∈ ms \/ paired buys sells m).
  { intros (_ & _ & Hm). exact Hm. }
  revert H. apply (crossing_loop_invariant (fun st =>
    static <$> cur_buys st = static <$> buys
    /\ static <$> cur_sells st = static <$> sells
    /\ forall m, m ∈ matches st -> m ∈ ms \/ paired buys sells m)).
  - intros st0 H. exact H.
  - intros st0 bi si buy sell (Hb & Hs & Hm) _ _ Hbuy Hsell Hle.
    unfold trade. simpl. repeat split.
    + by rewrite (static_insert _ _ _ _ Hbuy).
    + by rewrite (static_insert _ _ _ _ Hsell).
    + intros m Hin. apply elem_of_app in Hin as [Hin|Hin]; [by apply Hm|].
      apply list_elem_of_singleton in Hin as ->. right.
      destruct (static_fmap_elem buys (cur_buys st0) buy Hb) as (b0 & Hb0 & Eb).
      { apply list_elem_of_lookup. eauto. }
      destruct (static_fmap_elem sells (cur_sells st0) sell Hs) as (s0 & Hs0 & Es).
      { apply list_elem_of_lookup. eauto. }
      exists b0, s0. simpl.
      rewrite (static_order_id _ _ Eb), (static_order_id _ _ Es),
        (static_ticker _ _ Eb), (static_price _ _ Eb), (static_price _ _ Es).
      repeat split; done.
  - simpl. repeat split; try done. intros m Hm. by left.
Qed.

Lemma match_lists_paired (fuel : nat) (buys sells buys' sells' : list order)
    (ms ms' : list match_record) :
  match_lists fuel buys sells ms = Ret (buys', sells', ms') ->
  forall m, m ∈ ms' -> m ∈ ms \/ paired buys sells m.
Proof.
  unfold match_lists.
  destruct (negb (nonempty buys) || negb (nonempty sells)).
  - intros H. injection H as <- <- <-. intros m Hm. by left.
  - intros H. apply bind_Ret in H as (st & Hst & H). injection H as <- <- <-.
    by apply (crossing_loop_paired fuel).
Qed.

Lemma shrinks_refl (o : order) : positive_quantity o -> shrinks o o.
Proof. unfold shrinks, positive_quantity. intros H. split; [done | lia]. Qed.

Lemma trade_pending_positive (st : loop_state) (bi si : nat) (buy sell : order) :
  pending_positive st ->
  cur_buys st !! bi = Some buy -> cur_sells st !! si = Some sell ->
  is_completed (completed_buys st) bi = false ->
  is_completed (completed_sells st) si = false ->
  pending_positive (trade st bi si buy sell).
Proof.
  intros [Hp1 Hp2] Hbuy Hsell Hcb Hcs.
  pose proof (Hp1 bi buy Hbuy Hcb) as Hqb.
  pose proof (Hp2 si sell Hsell Hcs) as Hqs.
  unfold positive_quantity in Hqb, Hqs.
  split; intros j y Hj Hcj; unfold trade in Hj, Hcj; simpl in Hj, Hcj.
  - eapply (mark_pending (cur_buys st) (completed_buys st) bi j buy y
              (Z.min (quantity buy) (quantity sell)));
      [exact Hp1 | exact Hbuy | exact Hcb | lia | exact Hj | exact Hcj].
  - eapply (mark_pending (cur_sells st) (completed_sells st) si j sell y
              (Z.min (quantity buy) (quantity sell)));
      [exact Hp2 | exact Hsell | exact Hcs | lia | exact Hj | exact Hcj].
Qed.

Lemma Forall2_shrinks_insert (l0 l : list order) (i : nat) (o : order) (q : Z) :
  Forall2 shrinks l0 l -> l !! i = Some o -> (0 <= q <= quantity o)%Z ->
  Forall2 shrinks l0 (<[i := set_quantity o q]> l).
Proof.
  intros H Hi Hq.
  destruct (Forall2_lookup_r _ _ _ _ _ H Hi) as (o0 & Ho0 & E & Hr).
  rewrite <- (list_insert_id l0 i o0 Ho0). apply Forall2_insert; [done|].
  split; [by rewrite static_set_quantity | simpl; lia].
Qed.

Lemma crossing_loop_filling (fuel : nat) (buys sells : list order)
    (ms : list match_record) (st : loop_state) :
  Forall positive_quantity buys -> Forall positive_quantity sells ->
  crossing_loop fuel (start_state buys sells ms) = Ret st ->
  filling buys sells ms st.
Proof.
  intros Hpb Hps.
  apply (crossing_loop_invariant (filling buys sells ms)).
  - intros st0 H. exact H.
  - intros st0 bi si buy sell (Hb & Hs & Hpos & Hm) Hbi Hsi Hbuy Hsell _.
    destruct (best_buy_Some st0 bi Hbi) as (? & _ & Hcb & _).
    destruct (best_sell_Some st0 si Hsi) as (? & _ & Hcs & _).
    pose proof (proj1 Hpos bi buy Hbuy Hcb) as Hqb.
    pose proof (proj2 Hpos si sell Hsell Hcs) as Hqs.
    unfold positive_quantity in Hqb, Hqs.
    destruct (Forall2_lookup_r _ _ _ _ _ Hb Hbuy) as (b0 & Hb0 & Eb & Hrb).
    destruct (Forall2_lookup_r _ _ _ _ _ Hs Hsell) as (s0 & Hs0 & Es & Hrs).
    split; [|split; [|split]].
    + unfold trade. simpl. apply Forall2_shrinks_insert; [done | done | lia].
    + unfold trade. simpl. apply Forall2_shrinks_insert; [done | done | lia].
    + by apply trade_pending_positive.
    + intros m Hin. unfold trade in Hin. simpl in Hin.
      apply elem_of_app in Hin as [Hin|Hin]; [by apply Hm|].
      apply list_elem_of_singleton in Hin as ->. right.
      exists b0, s0. simpl.
      rewrite (static_order_id _ _ Eb), (static_order_id _ _ Es).
      repeat split; try done; try lia.
      * apply list_elem_of_lookup. eauto.
      * apply list_elem_of_lookup. eauto.
  - unfold filling. simpl. split; [|split; [|split]].
    + apply Forall_Forall2_diag.
      eapply Forall_impl; [exact Hpb | apply shrinks_refl].
    + apply Forall_Forall2_diag.
      eapply Forall_impl; [exact Hps | apply shrinks_refl].
    + split; simpl; intros j o Hj _.
      * apply (proj1 (Forall_forall _ _) Hpb). apply list_elem_of_lookup. eauto.
      * apply (proj1 (Forall_forall _ _) Hps). apply list_elem_of_lookup. eauto.
    + intros m Hin. by left.
Qed.

Lemma settle_remains (l0 l : list order) (c : list nat) :
  Forall2 shrinks l0 l ->
  (forall j o, l !! j = Some o -> is_completed c j = false ->
     positive_quantity o) ->
  remains l0 (settle l c).
Proof.
  intros H Hpos o' Hin. apply settle_elem in Hin as (k & Hk & Hc).
  destruct (Forall2_lookup_r _ _ _ _ _ H Hk) as (o & Ho & E & Hq).
  pose proof (Hpos k o' Hk Hc) as Hp. unfold positive_quantity in Hp.
  exists o. repeat split; try done; try lia.
  apply list_elem_of_lookup. eauto.
Qed.

Lemma match_lists_filled (fuel : nat) (buys sells buys' sells' : list order)
    (ms ms' : list match_record) :
  Forall positive_quantity buys -> Forall positive_quantity sells ->
  match_lists fuel buys sells ms = Ret (buys', sells', ms') ->
  remains buys buys' /\ remains sells sells'
  /\ forall m, m ∈ ms' -> m ∈ ms \/ filled buys sells m.
Proof.
  intros Hpb Hps. unfold match_lists.
  destruct (negb (nonempty buys) || negb (nonempty sells)).
  - intros H. injection H as <- <- <-. repeat split.
    + intros o Ho. exists o. pose proof (proj1 (Forall_forall _ _) Hpb o Ho) as Hp.
      unfold positive_quantity in Hp. repeat split; try done; lia.
    + intros o Ho. exists o. pose proof (proj1 (Forall_forall _ _) Hps o Ho) as Hp.
      unfold positive_quantity in Hp. repeat split; try done; lia.
    + intros m Hm. by left.
  - intros H. apply bind_Ret in H as (st & Hst & H). injection H as <- <- <-.
    apply (crossing_loop_filling fuel buys sells ms st Hpb Hps) in Hst
      as (Hb & Hs & [Hp1 Hp2] & Hm).
    repeat split; try done; by apply settle_remains.
Qed.

(** ** From one slot to the pass *)

(** What a pass does in a slot it visits: nothing when the slot has no
    symbol, otherwise what [match_lists] does to the lists the slot had
    before the pass. *)
Lemma match_tickers_slot (fuel : nat) (idxs : list nat) (ob ob' : order_book)
    (ms ms' : list match_record) (t : nat) :
  NoDup idxs ->
  match_tickers fuel idxs ob ms = Ret (ob', ms') ->
  t ∈ idxs ->
  (ticker_symbols ob !! t = Some None /\ same_slot ob ob' t)
  \/ exists s buys sells buys' sells' ms1 ms2,
       ticker_symbols ob !! t = Some (Some s)
       /\ buy_orders ob !! t = Some buys /\ sell_orders ob !! t = Some sells
       /\ buy_orders ob' !! t = Some buys' /\ sell_orders ob' !! t = Some sells'
       /\ match_lists fuel buys sells ms1 = Ret (buys', sells', ms2).
Proof.
  revert ob ms. induction idxs as [|t0 rest IH]; intros ob ms Hnd H Hin.
  - by apply elem_of_nil in Hin.
  - simpl in H. apply bind_Ret in H as ([ob1 ms1] & H1 & H). simpl in H.
    apply NoDup_cons in Hnd as [Hnin Hnd].
    apply elem_of_cons in Hin as [->|Hin].
    + apply match_tickers_frame in H as (_ & _ & _ & _ & _ & F).
      destruct (F t0 Hnin) as (F1 & F2 & F3).
      apply match_ticker_Ret in H1
        as [(Hsym & -> & _)
           |(s & buys & sells & buys' & sells' & Hsym & Hb & Hs & Hrun & ->)].
      * left. split; [done|]. by apply F.
      * right. exists s, buys, sells, buys', sells', ms, ms1.
        destruct (store_lookup_eq ob t0 buys' sells' buys sells Hb Hs) as [Eb Es].
        repeat split; try done; congruence.
    + assert (Hne : t <> t0) by (intros ->; done).
      apply match_ticker_frame in H1 as (E1 & _ & _ & _ & _ & F).
      destruct (F t Hne) as (F1 & F2 & F3).
      destruct (IH ob1 ms1 Hnd H Hin)
        as [(Hsym & S1 & S2 & S3)
           |(s & buys & sells & buys' & sells' & msa & msb
             & Hsym & Hb & Hs & Hb' & Hs' & Hrun)].
      * left. split; [congruence|]. repeat split; congruence.
      * right. exists s, buys, sells, buys', sells', msa, msb.
        repeat split; try done; congruence.
Qed.

(** A fact [Q] about the records each slot adds, shown for the lists that
    satisfy [Pre], holds of every record of the pass, for the lists the slot
    had before the pass. *)
Lemma match_tickers_records
    (Pre : list order -> list order -> Prop)
    (Q : list order -> list order -> match_record -> Prop)
    (fuel : nat) (idxs : list nat) (ob ob' : order_book)
    (ms ms' : list match_record) :
  (forall buys sells buys' sells' msa msb,
     Pre buys sells ->
     match_lists fuel buys sells msa = Ret (buys', sells', msb) ->
     forall m, m ∈ msb -> m ∈ msa \/ Q buys sells m) ->
  (forall t buys sells, t ∈ idxs ->
     buy_orders ob !! t = Some buys -> sell_orders ob !! t = Some sells ->
     Pre buys sells) ->
  NoDup idxs ->
  match_tickers fuel idxs ob ms = Ret (ob', ms') ->
  forall m, m ∈ ms' ->
    m ∈ ms \/ exists t buys sells,
                t ∈ idxs /\ buy_orders ob !! t = Some buys
                /\ sell_orders ob !! t = Some sells /\ Q buys sells m.
Proof.
  intros HQ. revert ob ms. induction idxs as [|t0 rest IH];
    intros ob ms Hpre Hnd H m Hm; simpl in H.
  - injection H as <- <-. by left.
  - apply bind_Ret in H as ([ob1 ms1] & H1 & H). simpl in H.
    apply NoDup_cons in Hnd as [Hnin Hnd].
    pose proof (match_ticker_frame _ _ _ _ _ _ H1) as (_ & _ & _ & _ & _ & F).
    assert (Hpre1 : forall t buys sells, t ∈ rest ->
              buy_orders ob1 !! t = Some buys ->
              sell_orders ob1 !! t = Some sells -> Pre buys sells).
    { intros t buys sells Ht Hb Hs.
      destruct (F t ltac:(intros ->; done)) as (_ & Eb & Es).
      apply (Hpre t); [by right | congruence | congruence]. }
    destruct (IH ob1 ms1 Hpre1 Hnd H m Hm)
      as [Hm1|(t & buys & sells & Ht & Hb & Hs & Hq)].
    + apply match_ticker_Ret in H1
        as [(_ & _ & ->)
           |(s & buys & sells & buys' & sells' & _ & Hb & Hs & Hrun & _)];
        [by left|].
      assert (Hp : Pre buys sells) by (apply (Hpre t0); [by left | done | done]).
      destruct (HQ _ _ _ _ _ _ Hp Hrun m Hm1) as [?|Hq]; [by left|].
      right. exists t0, buys, sells. repeat split; try done. by left.
    + right. exists t, buys, sells.
      destruct (F t ltac:(intros ->; done)) as (_ & Eb & Es).
      repeat split; try done; [by right | congruence | congruence].
Qed.

(** X6. Every match record returned by a pass pairs a buy order and a sell
    order that rested in the same slot of the book: it carries their ids
    and the buy order's ticker, its execution price is the sell order's
    limit price, and that price does not exceed the buy order's limit. *)
Theorem match_records_pair_crossing_orders
    (fuel : nat) (ob ob' : order_book) (ms : list match_record)
    (m : match_record) :
  match_orders fuel ob = Ret (ob', ms) -> m ∈ ms ->
  exists t buys sells b s,
    (t < ticker_count ob)%nat
    /\ buy_orders ob !! t = Some buys /\ sell_orders ob !! t = Some sells
    /\ b ∈ buys /\ s ∈ sells
    /\ buy_order_id m = order_id b /\ sell_order_id m = order_id s
    /\ match_symbol m = ticker b
    /\ execution_price m = price s /\ (price s <= price b)%Z.
Proof.
  intros H Hm. unfold match_orders in H.
  destruct (match_tickers_records (fun _ _ => True) paired fuel
              (seq 0 (ticker_count ob)) ob ob' [] ms) with (m := m)
    as [Hnil|(t & buys & sells & Ht & Hb & Hs & b & s & Hq)]; try done.
  - intros buys sells buys' sells' msa msb _. apply match_lists_paired.
  - apply NoDup_seq.
  - by apply elem_of_nil in Hnil.
  - exists t, buys, sells, b, s. apply elem_of_seq in Ht.
    repeat split; try apply Hq; try done. lia.
Qed.

Lemma match_records_pair_crossing_orders_witness :
  exists t buys sells b s,
    (t < ticker_count crossing_book)%nat
    /\ buy_orders crossing_book !! t = Some buys
    /\ sell_orders crossing_book !! t = Some sells
    /\ b ∈ buys /\ s ∈ sells
    /\ buy_order_id (MatchRecord 1 3 "ACME" 5 9) = order_id b
    /\ sell_order_id (MatchRecord 1 3 "ACME" 5 9) = order_id s
    /\ match_symbol (MatchRecord 1 3 "ACME" 5 9) = ticker b
    /\ execution_price (MatchRecord 1 3 "ACME" 5 9) = price s
    /\ (price s <= price b)%Z.
Proof.
  apply (match_records_pair_crossing_orders 3 crossing_book crossing_book_after
           [MatchRecord 1 3 "ACME" 5 9]).
  - reflexivity.
  - apply list_elem_of_singleton. reflexivity.
Defined.

Lemma positive_book_slot (ob : order_book) (t : nat) (buys sells : list order) :
  positive_book ob ->
  buy_orders ob !! t = Some buys -> sell_orders ob !! t = Some sells ->
  Forall positive_quantity buys /\ Forall positive_quantity sells.
Proof.
  intros [Hb Hs] Hbuys Hsells. split.
  - apply (proj1 (Forall_forall _ _) Hb). apply list_elem_of_lookup. eauto.
  - apply (proj1 (Forall_forall _ _) Hs). apply list_elem_of_lookup. eauto.
Qed.

(** X7. In a book whose resting orders all have a positive quantity, every
    match record of a pass has a strictly positive quantity, and that
    quantity exceeds neither the quantity the matched buy order had before
    the pass nor the quantity the matched sell order had. *)
Theorem matched_quantity_is_positive_and_bounded
    (fuel : nat) (ob ob' : order_book) (ms : list match_record)
    (m : match_record) :
  positive_book ob ->
  match_orders fuel ob = Ret (ob', ms) -> m ∈ ms ->
  exists t buys sells b s,
    (t < ticker_count ob)%nat
    /\ buy_orders ob !! t = Some buys /\ sell_orders ob !! t = Some sells
    /\ b ∈ buys /\ s ∈ sells
    /\ buy_order_id m = order_id b /\ sell_order_id m = order_id s
    /\ (0 < matched_quantity m)%Z
    /\ (matched_quantity m <= quantity b)%Z
    /\ (matched_quantity m <= quantity s)%Z.
Proof.
  intros Hpos H Hm. unfold match_orders in H.
  destruct (match_tickers_records
              (fun buys sells =>
                 Forall positive_quantity buys /\ Forall positive_quantity sells)
              filled fuel (seq 0 (ticker_count ob)) ob ob' [] ms) with (m := m)
    as [Hnil|(t & buys & sells & Ht & Hb & Hs & b & s & Hf)]; try done.
  - intros buys sells buys' sells' msa msb [Hpb Hps] Hrun.
    by destruct (match_lists_filled fuel _ _ _ _ _ _ Hpb Hps Hrun) as (_ & _ & Hall).
  - intros t buys sells _ Hb Hs. by apply (positive_book_slot ob t).
  - apply NoDup_seq.
  - by apply elem_of_nil in Hnil.
  - exists t, buys, sells, b, s. apply elem_of_seq in Ht.
    repeat split; try apply Hf; try done. lia.
Qed.

Lemma matched_quantity_is_positive_and_bounded_witness :
  exists t buys sells b s,
    (t < ticker_count crossing_book)%nat
    /\ buy_orders crossing_book !! t = Some buys
    /\ sell_orders crossing_book !! t = Some sells
    /\ b ∈ buys /\ s ∈ sells
    /\ buy_order_id (MatchRecord 1 3 "ACME" 5 9) = order_id b
    /\ sell_order_id (MatchRecord 1 3 "ACME" 5 9) = order_id s
    /\ (0 < matched_quantity (MatchRecord 1 3 "ACME" 5 9))%Z
    /\ (matched_quantity (MatchRecord 1 3 "ACME" 5 9) <= quantity b)%Z
    /\ (matched_quantity (MatchRecord 1 3 "ACME" 5 9) <= quantity s)%Z.
Proof.
  apply (matched_quantity_is_positive_and_bounded 3 crossing_book
           crossing_book_after [MatchRecord 1 3 "ACME" 5 9]).
  - apply positive_crossing_book.
  - reflexivity.
  - apply list_elem_of_singleton. reflexivity.
Defined.

(** ** The book after a pass *)

Lemma nonempty_false {A : Type} (l : list A) : nonempty l = false -> l = [].
Proof. destruct l; [done | discriminate]. Qed.

Lemma match_lists_uncrossed (fuel : nat) (buys sells buys' sells' : list order)
    (ms ms' : list match_record) (b s : order) :
  match_lists fuel buys sells ms = Ret (buys', sells', ms') ->
  b ∈ buys' -> s ∈ sells' -> (price b < price s)%Z.
Proof.
  unfold match_lists.
  destruct (negb (nonempty buys) || negb (nonempty sells)) eqn:E.
  - intros H Hb Hs. injection H as <- <- <-.
    apply orb_true_iff in E as [E|E]; apply negb_true_iff, nonempty_false in E;
      subst; [by apply elem_of_nil in Hb | by apply elem_of_nil in Hs].
  - intros H Hb Hs. apply bind_Ret in H as (st & Hst & H).
    injection H as <- <- <-.
    apply crossing_loop_quiet in Hst; [|discriminate].
    apply settle_elem in Hb as (jb & Hjb & Hcb).
    apply settle_elem in Hs as (js & Hjs & Hcs).
    destruct Hst as [Hnone|[Hnone|(bi & si & buy & sell & Hbi & Hsi & Hbuy & Hsell & Hlt)]].
    + pose proof (find_best_order_None Z.gtb gtb_trans gtb_total _ _ Hnone jb
                    (lookup_lt_Some _ _ _ Hjb)). congruence.
    + pose proof (find_best_order_None Z.ltb ltb_trans ltb_total _ _ Hnone js
                    (lookup_lt_Some _ _ _ Hjs)). congruence.
    + destruct (best_buy_Some st bi Hbi) as (buy0 & Hbuy0 & _ & Hmax).
      destruct (best_sell_Some st si Hsi) as (sell0 & Hsell0 & _ & Hmin).
      assert (buy0 = buy) by congruence. assert (sell0 = sell) by congruence.
      subst buy0 sell0.
      specialize (Hmax jb b Hjb Hcb). specialize (Hmin js s Hjs Hcs). lia.
Qed.

(** X8. After a matching pass no slot that carries a symbol is crossed:
    every buy order left in the slot is priced strictly below every sell
    order left in it. *)
Theorem book_is_uncrossed_after_pass
    (fuel : nat) (ob ob' : order_book) (ms : list match_record) (t : nat)
    (sym : string) (buys' sells' : list order) (b s : order) :
  match_orders fuel ob = Ret (ob', ms) ->
  (t < ticker_count ob)%nat -> ticker_symbols ob !! t = Some (Some sym) ->
  buy_orders ob' !! t = Some buys' -> sell_orders ob' !! t = Some sells' ->
  b ∈ buys' -> s ∈ sells' -> (price b < price s)%Z.
Proof.
  intros H Ht Hsym Hb' Hs' Hb Hs. unfold match_orders in H.
  destruct (match_tickers_slot fuel _ ob ob' [] ms t (NoDup_seq 0 _) H)
    as [(Hnone & _)
       |(s0 & buys & sells & buys0 & sells0 & ms1 & ms2
         & _ & _ & _ & Eb & Es & Hrun)].
  - apply elem_of_seq. lia.
  - congruence.
  - assert (buys0 = buys') by congruence. assert (sells0 = sells') by congruence.
    subst. by apply (match_lists_uncrossed fuel buys sells buys' sells' ms1 ms2).
Qed.

Example deep_book_pass :
  match_orders 5 deep_book = Ret (deep_book_after, [MatchRecord 1 3 "ACME" 4 9]).
Proof. reflexivity. Qed.

Lemma book_is_uncrossed_after_pass_witness :
  (price (Order BUY "ACME" 6 10 1 1) < price (Order SELL "ACME" 5 12 4 4))%Z.
Proof.
  apply (book_is_uncrossed_after_pass 5 deep_book deep_book_after
           [MatchRecord 1 3 "ACME" 4 9] 0 "ACME"
           [Order BUY "ACME" 6 10 1 1; Order BUY "ACME" 3 8 2 2]
           [Order SELL "ACME" 5 12 4 4]).
  - reflexivity.
  - simpl. lia.
  - reflexivity.
  - reflexivity.
  - reflexivity.
  - apply list_elem_of_here.
  - apply list_elem_of_here.
Defined.

Lemma remains_refl (l : list order) : Forall positive_quantity l -> remains l l.
Proof.
  intros Hp o Ho. exists o.
  pose proof (proj1 (Forall_forall _ _) Hp o Ho) as Hq.
  unfold positive_quantity in Hq. repeat split; try done; lia.
Qed.

Lemma match_tickers_remains (fuel : nat) (idxs : list nat)
    (ob ob' : order_book) (ms ms' : list match_record) (t : nat) :
  positive_book ob -> NoDup idxs ->
  match_tickers fuel idxs ob ms = Ret (ob', ms') ->
  (forall l', buy_orders ob' !! t = Some l' ->
     exists l, buy_orders ob !! t = Some l /\ remains l l')
  /\ (forall l', sell_orders ob' !! t = Some l' ->
        exists l, sell_orders ob !! t = Some l /\ remains l l').
Proof.
  intros Hpos Hnd H.
  assert (Hsame : same_slot ob ob' t ->
    (forall l', buy_orders ob' !! t = Some l' ->
       exists l, buy_orders ob !! t = Some l /\ remains l l')
    /\ (forall l', sell_orders ob' !! t = Some l' ->
          exists l, sell_orders ob !! t = Some l /\ remains l l')).
  { intros (_ & Eb & Es). destruct Hpos as [Hpb Hps].
    split; intros l' Hl'; exists l'.
    - rewrite <- Eb. split; [done|]. apply remains_refl.
      apply (proj1 (Forall_forall _ _) Hpb). apply list_elem_of_lookup.
      exists t. congruence.
    - rewrite <- Es. split; [done|]. apply remains_refl.
      apply (proj1 (Forall_forall _ _) Hps). apply list_elem_of_lookup.
      exists t. congruence. }
  destruct (decide (t ∈ idxs)) as [Hin|Hnin].
  - destruct (match_tickers_slot fuel idxs ob ob' ms ms' t Hnd H Hin)
      as [(_ & Hs)
         |(s0 & buys & sells & buys' & sells' & ms1 & ms2
           & _ & Hb & Hs & Eb & Es & Hrun)]; [by apply Hsame|].
    destruct (positive_book_slot ob t buys sells Hpos Hb Hs) as [Hpb Hps].
    destruct (match_lists_filled fuel _ _ _ _ _ _ Hpb Hps Hrun) as (Rb & Rs & _).
    split; intros l' Hl'.
    + exists buys. split; [done|]. by replace l' with buys' by congruence.
    + exists sells. split; [done|]. by replace l' with sells' by congruence.
  - apply Hsame. by apply (match_tickers_frame fuel idxs ob ob' ms ms').
Qed.

(** X9. In a book whose resting orders all have a positive quantity, a
    matching pass creates no order and moves none to another slot or side:
    every order resting after the pass is an order that rested in the same
    collection before it, with the same type, ticker, price, id and
    sequence number, and with a remaining quantity that is positive and
    not larger than before. *)
Theorem orders_after_pass_are_orders_before
    (fuel : nat) (ob ob' : order_book) (ms : list match_record) (t : nat)
    (l' : list order) (o' : order) :
  positive_book ob ->
  match_orders fuel ob = Ret (ob', ms) ->
  (buy_orders ob' !! t = Some l' -> o' ∈ l' ->
     exists l o, buy_orders ob !! t = Some l /\ o ∈ l
       /\ static o = static o' /\ (0 < quantity o' <= quantity o)%Z)
  /\ (sell_orders ob' !! t = Some l' -> o' ∈ l' ->
        exists l o, sell_orders ob !! t = Some l /\ o ∈ l
          /\ static o = static o' /\ (0 < quantity o' <= quantity o)%Z).
Proof.
  intros Hpos H.
  destruct (match_tickers_remains fuel _ ob ob' [] ms t Hpos (NoDup_seq 0 _) H)
    as [Hb Hs].
  split; intros Hl' Hin.
  - destruct (Hb l' Hl') as (l & Hl & Hrem).
    destruct (Hrem o' Hin) as (o & Ho & E & Hq). exists l, o. done.
  - destruct (Hs l' Hl') as (l & Hl & Hrem).
    destruct (Hrem o' Hin) as (o & Ho & E & Hq). exists l, o. done.
Qed.

Lemma orders_after_pass_are_orders_before_witness :
  exists l o, buy_orders crossing_book !! 0%nat = Some l /\ o ∈ l
    /\ static o = static (set_quantity order_B1 5)
    /\ (0 < quantity (set_quantity order_B1 5) <= quantity o)%Z.
Proof.
  apply (proj1 (orders_after_pass_are_orders_before 3 crossing_book
                  crossing_book_after [MatchRecord 1 3 "ACME" 5 9] 0
                  [set_quantity order_B1 5; order_B2] (set_quantity order_B1 5)
                  positive_crossing_book eq_refl)).
  - reflexivity.
  - apply list_elem_of_here.
Defined.

(** ** Every match takes an order out of the book *)

Lemma pending_from_nil (i n : nat) : pending_from [] i n = n.
Proof. revert i. induction n as [|n IH]; intros i; simpl; [done|]. by rewrite IH. Qed.

Lemma length_remove_completed_from (i : nat) (l : list order) (c : list nat) :
  length (remove_completed_from i l c) = pending_from c i (length l).
Proof.
  revert i. induction l as [|x l IH]; intros i; simpl; [done|].
  destruct (is_completed c i); simpl; by rewrite IH.
Qed.

Lemma length_settle (l : list order) (c : list nat) :
  length (settle l c) = pending_from c 0 (length l).
Proof.
  unfold settle. destruct c as [|x c]; simpl nonempty; cbv iota.
  - by rewrite pending_from_nil.
  - apply length_remove_completed_from.
Qed.

Lemma crossing_loop_count (fuel : nat) (buys sells : list order)
    (ms : list match_record) (st : loop_state) :
  crossing_loop fuel (start_state buys sells ms) = Ret st ->
  (pending st + length (matches st)
   <= length buys + length sells + length ms)%nat.
Proof.
  apply (crossing_loop_invariant (fun st =>
    (pending st + length (matches st)
     <= length buys + length sells + length ms)%nat)).
  - intros st0 H. exact H.
  - intros st0 bi si buy sell H Hbi Hsi Hbuy Hsell _.
    destruct (best_buy_Some st0 bi Hbi) as (? & _ & Hcb & _).
    destruct (best_sell_Some st0 si Hsi) as (? & _ & Hcs & _).
    pose proof (trade_pending st0 bi si buy sell Hbuy Hsell Hcb Hcs) as Hdrop.
    unfold trade at 2. simpl. rewrite length_app. simpl. lia.
  - unfold pending. simpl. rewrite !pending_from_nil. lia.
Qed.

Lemma match_lists_count (fuel : nat) (buys sells buys' sells' : list order)
    (ms ms' : list match_record) :
  match_lists fuel buys sells ms = Ret (buys', sells', ms') ->
  (length buys' + length sells' + length ms'
   <= length buys + length sells + length ms)%nat.
Proof.
  unfold match_lists.
  destruct (negb (nonempty buys) || negb (nonempty sells)).
  - intros H. by injection H as <- <- <-.
  - intros H. apply bind_Ret in H as (st & Hst & H). injection H as <- <- <-.
    apply crossing_loop_count in Hst. rewrite !length_settle.
    unfold pending in Hst. lia.
Qed.

Lemma sum_length_insert (ls : list (list order)) (t : nat) (l l' : list order) :
  ls !! t = Some l ->
  (sum_list_with length (<[t := l']> ls) + length l
   = sum_list_with length ls + length l')%nat.
Proof.
  revert t. induction ls as [|x ls IH]; intros t H; [discriminate|].
  destruct t as [|t]; simpl in *.
  - injection H as ->. lia.
  - specialize (IH t H). lia.
Qed.

Lemma match_tickers_count (fuel : nat) (idxs : list nat)
    (ob ob' : order_book) (ms ms' : list match_record) :
  match_tickers fuel idxs ob ms = Ret (ob', ms') ->
  (resting ob' + length ms' <= resting ob + length ms)%nat.
Proof.
  revert ob ms. induction idxs as [|t rest IH]; intros ob ms H; simpl in H.
  - by injection H as <- <-.
  - apply bind_Ret in H as ([ob1 ms1] & H1 & H). simpl in H.
    apply IH in H.
    apply match_ticker_Ret in H1
      as [(_ & -> & ->)
         |(s & buys & sells & buys' & sells' & _ & Hbuys & Hsells & Hrun & ->)];
      [done|].
    apply match_lists_count in Hrun. unfold resting in *. simpl in H.
    pose proof (sum_length_insert _ _ _ buys' Hbuys).
    pose proof (sum_length_insert _ _ _ sells' Hsells). lia.
Qed.

(** X10. Every match takes at least one order out of the book: the number
    of orders resting after a pass plus the number of match records it
    returned is at most the number of orders resting before it. *)
Theorem every_match_removes_an_order
    (fuel : nat) (ob ob' : order_book) (ms : list match_record) :
  match_orders fuel ob = Ret (ob', ms) ->
  (resting ob' + length ms <= resting ob)%nat.
Proof.
  intros H. apply match_tickers_count in H. simpl in H. lia.
Qed.

Lemma every_match_removes_an_order_witness :
  (resting deep_book_after + length [MatchRecord 1 3 "ACME" 4 9]
   <= resting deep_book)%nat.
Proof.
  apply (every_match_removes_an_order 5 deep_book deep_book_after). reflexivity.
Defined.

(** X11. A matching pass touches nothing but the order collections of the
    slots it matches: the ticker symbols, the ticker count, the next order
    id and the capacity are unchanged, and so are the collections of every
    slot beyond the ticker count, of every slot without a symbol and of
    every slot with no buy order or no sell order. *)
Theorem match_orders_frame
    (fuel : nat) (ob ob' : order_book) (ms : list match_record) :
  match_orders fuel ob = Ret (ob', ms) ->
  ticker_symbols ob' = ticker_symbols ob
  /\ ticker_count ob' = ticker_count ob
  /\ next_order_id ob' = next_order_id ob
  /\ length (buy_orders ob') = length (buy_orders ob)
  /\ length (sell_orders ob') = length (sell_orders ob)
  /\ forall t,
       (ticker_count ob <= t)%nat \/ ticker_symbols ob !! t = Some None
       \/ buy_orders ob !! t = Some [] \/ sell_orders ob !! t = Some [] ->
       buy_orders ob' !! t = buy_orders ob !! t
       /\ sell_orders ob' !! t = sell_orders ob !! t.
Proof.
  intros H. unfold match_orders in H.
  pose proof (match_tickers_frame _ _ _ _ _ _ H) as (E1 & E2 & E3 & E4 & E5 & F).
  do 5 (split; [done|]). intros t Ht.
  destruct (decide (t < ticker_count ob)%nat) as [Hlt|Hge].
  2:{ destruct (F t) as (_ & Sb & Ss); [|done].
      intros Hin. apply elem_of_seq in Hin. lia. }
  destruct (match_tickers_slot fuel _ ob ob' [] ms t (NoDup_seq 0 _) H)
    as [(_ & _ & Sb & Ss)
       |(s0 & buys & sells & buys' & sells' & ms1 & ms2
         & Hsym & Hb & Hs & Eb & Es & Hrun)];
    [apply elem_of_seq; lia | done |].
  assert (Hemp : negb (nonempty buys) || negb (nonempty sells) = true).
  { destruct Ht as [?|[Hn|[Hn|Hn]]]; [lia | congruence | |].
    - assert (buys = []) by congruence. by subst.
    - assert (sells = []) by congruence. subst. by rewrite orb_true_r. }
  unfold match_lists in Hrun. rewrite Hemp in Hrun.
  injection Hrun as <- <- _. split; congruence.
Qed.

Lemma match_orders_frame_witness :
  ticker_symbols crossing_book_after = ticker_symbols crossing_book
  /\ ticker_count crossing_book_after = ticker_count crossing_book
  /\ next_order_id crossing_book_after = next_order_id crossing_book
  /\ length (buy_orders crossing_book_after) = length (buy_orders crossing_book)
  /\ length (sell_orders crossing_book_after) = length (sell_orders crossing_book)
  /\ forall t,
       (ticker_count crossing_book <= t)%nat
       \/ ticker_symbols crossing_book !! t = Some None
       \/ buy_orders crossing_book !! t = Some []
       \/ sell_orders crossing_book !! t = Some [] ->
       buy_orders crossing_book_after !! t = buy_orders crossing_book !! t
       /\ sell_orders crossing_book_after !! t = sell_orders crossing_book !! t.
Proof.
  apply (match_orders_frame 3 crossing_book crossing_book_after
           [MatchRecord 1 3 "ACME" 5 9]).
  reflexivity.
Defined.

(** ** The slots are matched independently *)

Lemma loop_body_prepend (ms0 : list match_record) (st : loop_state) :
  loop_body (prepend ms0 st)
  = (r ← loop_body st; Ret (prepend_result ms0 r)).
Proof.
  unfold loop_body. simpl.
  destruct (find_best_order (cur_buys st) (completed_buys st) Z.gtb) as [bi|];
    [|done].
  destruct (find_best_order (cur_sells st) (completed_sells st) Z.ltb) as [si|];
    [|done].
  destruct (index (cur_buys st) bi) as [buy| |]; simpl; try done.
  destruct (index (cur_sells st) si) as [sell| |]; simpl; try done.
  destruct (price buy >=? price sell)%Z; simpl; [|done].
  unfold trade, prepend. simpl. by rewrite app_assoc.
Qed.

Lemma crossing_loop_prepend (fuel : nat) (ms0 : list match_record)
    (st : loop_state) :
  crossing_loop fuel (prepend ms0 st)
  = (st' ← crossing_loop fuel st; Ret (prepend ms0 st')).
Proof.
  revert st. induction fuel as [|fuel IH]; intros st; simpl.
  - change (loop_condition (prepend ms0 st)) with (loop_condition st).
    by destruct (loop_condition st).
  - change (loop_condition (prepend ms0 st)) with (loop_condition st).
    destruct (loop_condition st); [|done].
    rewrite loop_body_prepend.
    destruct (loop_body st) as [[st0|st0]| |]; simpl; auto.
Qed.

Lemma match_lists_prepend (fuel : nat) (buys sells : list order)
    (ms : list match_record) :
  match_lists fuel buys sells ms
  = (r ← match_lists fuel buys sells [];
     Ret (fst (fst r), snd (fst r), ms ++ snd r)).
Proof.
  unfold match_lists.
  destruct (negb (nonempty buys) || negb (nonempty sells)); simpl.
  - by rewrite app_nil_r.
  - replace (start_state buys sells ms)
      with (prepend ms (start_state buys sells []))
      by (unfold prepend, start_state; simpl; by rewrite app_nil_r).
    rewrite crossing_loop_prepend.
    by destruct (crossing_loop fuel (start_state buys sells [])).
Qed.

Lemma match_lists_new (fuel : nat) (buys sells buys' sells' : list order)
    (ms ms' : list match_record) :
  match_lists fuel buys sells ms = Ret (buys', sells', ms') ->
  exists new, ms' = ms ++ new
    /\ match_lists fuel buys sells [] = Ret (buys', sells', new).
Proof.
  rewrite match_lists_prepend. intros H.
  apply bind_Ret in H as ([[b s] new] & Hr & H). simpl in H.
  injection H as <- <- <-. eauto.
Qed.

(** Matching a slot depends on nothing but the slot, and adds its records
    behind those it is given. *)
Lemma match_ticker_alone (fuel : nat) (ob ob1 ob1' : order_book)
    (ms ms' : list match_record) (t : nat) :
  same_slot ob ob1 t ->
  match_ticker fuel ob1 ms t = Ret (ob1', ms') ->
  exists ob0' new,
    ms' = ms ++ new
    /\ match_ticker fuel ob [] t = Ret (ob0', new)
    /\ buy_orders ob1' !! t = buy_orders ob0' !! t
    /\ sell_orders ob1' !! t = sell_orders ob0' !! t.
Proof.
  intros (E1 & E2 & E3) H. apply match_ticker_Ret in H
    as [(Hsym & -> & ->)
       |(s & buys & sells & buys' & sells' & Hsym & Hb & Hs & Hrun & ->)].
  - exists ob, []. rewrite app_nil_r. split; [done|].
    split; [apply match_ticker_skip; congruence|]. done.
  - apply match_lists_new in Hrun as (new & -> & Hrun).
    assert (Hsym0 : ticker_symbols ob !! t = Some (Some s)) by congruence.
    assert (Hb0 : buy_orders ob !! t = Some buys) by congruence.
    assert (Hs0 : sell_orders ob !! t = Some sells) by congruence.
    exists (store ob t buys' sells'), new. split; [done|].
    split; [by apply (match_ticker_run fuel ob [] new t s buys sells)|].
    destruct (store_lookup_eq ob t buys' sells' buys sells Hb0 Hs0) as [-> ->].
    by destruct (store_lookup_eq ob1 t buys' sells' buys sells Hb Hs) as [-> ->].
Qed.

Lemma same_slot_refl (ob : order_book) (t : nat) : same_slot ob ob t.
Proof. done. Qed.

Lemma same_slot_trans (ob1 ob2 ob3 : order_book) (t : nat) :
  same_slot ob1 ob2 t -> same_slot ob2 ob3 t -> same_slot ob1 ob3 t.
Proof.
  intros (A1 & A2 & A3) (B1 & B2 & B3). repeat split; congruence.
Qed.

Lemma match_tickers_alone (fuel : nat) (idxs : list nat)
    (ob ob1 ob' : order_book) (ms ms' : list match_record) :
  NoDup idxs ->
  (forall t, t ∈ idxs -> same_slot ob ob1 t) ->
  match_tickers fuel idxs ob1 ms = Ret (ob', ms') ->
  exists news,
    ms' = ms ++ concat news
    /\ Forall2 (slot_outcome fuel ob ob') idxs news.
Proof.
  revert ob1 ms. induction idxs as [|t0 rest IH]; intros ob1 ms Hnd Hsame H;
    simpl in H.
  - injection H as <- <-. exists []. simpl. rewrite app_nil_r. split; [done|].
    constructor.
  - apply bind_Ret in H as ([ob2 ms2] & H1 & H). simpl in H.
    apply NoDup_cons in Hnd as [Hnin Hnd].
    pose proof (match_ticker_frame _ _ _ _ _ _ H1) as (_ & _ & _ & _ & _ & F1).
    pose proof (match_tickers_frame _ _ _ _ _ _ H) as (_ & _ & _ & _ & _ & F2).
    destruct (match_ticker_alone fuel ob ob1 ob2 ms ms2 t0
                (Hsame t0 ltac:(by left)) H1)
      as (ob0' & new & -> & Hrun & Eb & Es).
    destruct (IH ob2 (ms ++ new) Hnd) as (news & -> & Hall); [|done|].
    { intros t Ht. apply (same_slot_trans ob ob1 ob2);
        [apply Hsame; by right | apply F1; intros ->; done]. }
    exists (new :: news). simpl. rewrite app_assoc. split; [done|].
    constructor; [|done].
    exists ob0'. split; [done|].
    destruct (F2 t0 Hnin) as (_ & Sb & Ss). split; congruence.
Qed.

(** X12. The slots are matched independently and in slot order: the list
    of match records of a pass is the concatenation, slot after slot in
    registration order, of the records that matching each slot of the
    original book on its own (starting from no record) produces, and each
    slot ends up with the collections that matching it on its own leaves. *)
Theorem match_orders_slot_by_slot
    (fuel : nat) (ob ob' : order_book) (ms : list match_record) :
  match_orders fuel ob = Ret (ob', ms) ->
  exists news,
    ms = concat news
    /\ Forall2
         (fun t new =>
            exists ob_t,
              match_ticker fuel ob [] t = Ret (ob_t, new)
              /\ buy_orders ob' !! t = buy_orders ob_t !! t
              /\ sell_orders ob' !! t = sell_orders ob_t !! t)
         (seq 0 (ticker_count ob)) news.
Proof.
  intros H. unfold match_orders in H.
  destruct (match_tickers_alone fuel (seq 0 (ticker_count ob)) ob ob ob' [] ms)
    as (news & -> & Hall); try done.
  - apply NoDup_seq.
  - exists news. split; [done|]. exact Hall.
Qed.

Lemma match_orders_slot_by_slot_witness :
  exists news,
    [MatchRecord 1 2 "ACME" 5 9; MatchRecord 3 4 "INIT" 2 6] = concat news
    /\ Forall2
         (fun t new =>
            exists ob_t,
              match_ticker 3 two_symbol_book [] t = Ret (ob_t, new)
              /\ buy_orders two_symbol_book_after !! t = buy_orders ob_t !! t
              /\ sell_orders two_symbol_book_after !! t = sell_orders ob_t !! t)
         (seq 0 (ticker_count two_symbol_book)) news.
Proof.
  apply (match_orders_slot_by_slot 3 two_symbol_book two_symbol_book_after).
  reflexivity.
Defined.

(** ** Arrival order *)

Lemma in_arrival_order_snoc (l : list order) (o : order) :
  in_arrival_order l -> Forall (fun a => earlier a o) l ->
  in_arrival_order (l ++ [o]).
Proof.
  induction l as [|x l IH]; simpl; intros H Hall.
  - split; [constructor | done].
  - destruct H as [Hx Hl]. apply Forall_cons in Hall as [Hxo Hall].
    split; [|by apply IH].
    apply Forall_app. split; [done|]. by apply Forall_singleton.
Qed.

Lemma static_fmap_cons (x x0 : order) (l l0 : list order) :
  static <$> (x :: l) = static <$> (x0 :: l0) ->
  static x = static x0 /\ static <$> l = static <$> l0.
Proof.
  rewrite !fmap_cons. intros E. split.
  - apply (f_equal head) in E. cbn [head] in E. congruence.
  - apply (f_equal tail) in E. exact E.
Qed.

Lemma earlier_static (a a0 b b0 : order) :
  static a = static a0 -> static b = static b0 -> earlier a0 b0 -> earlier a b.
Proof.
  intros Ea Eb [H1 H2]. unfold earlier.
  rewrite (static_order_id _ _ Ea), (static_order_id _ _ Eb).
  assert (sequence a = sequence a0) by (by injection Ea).
  assert (sequence b = sequence b0) by (by injection Eb).
  lia.
Qed.

Lemma in_arrival_order_static (l0 l : list order) :
  static <$> l = static <$> l0 -> in_arrival_order l0 -> in_arrival_order l.
Proof.
  revert l. induction l0 as [|x0 l0 IH]; intros l E H.
  - destruct l; [done | discriminate].
  - destruct l as [|x l]; [discriminate|].
    apply static_fmap_cons in E as [Ex El]. destruct H as [Hx Hl].
    split; [|by apply IH].
    apply Forall_forall. intros y Hy.
    destruct (static_fmap_elem l0 l y El Hy) as (y0 & Hy0 & Ey).
    apply (earlier_static x x0 y y0); [done | done |].
    by apply (proj1 (Forall_forall _ _) Hx).
Qed.

Lemma in_arrival_order_remove (i : nat) (l : list order) (c : list nat) :
  in_arrival_order l -> in_arrival_order (remove_completed_from i l c).
Proof.
  revert i. induction l as [|x l IH]; intros i H; simpl; [done|].
  destruct H as [Hx Hl]. destruct (is_completed c i); [by apply IH|].
  split; [|by apply IH].
  apply Forall_forall. intros y Hy.
  apply remove_completed_from_elem in Hy as (k & Hk & _).
  apply (proj1 (Forall_forall _ _) Hx). apply list_elem_of_lookup. eauto.
Qed.

Lemma in_arrival_order_settle (l : list order) (c : list nat) :
  in_arrival_order l -> in_arrival_order (settle l c).
Proof.
  intros H. unfold settle. destruct (nonempty c); [|done].
  by apply in_arrival_order_remove.
Qed.

Lemma issued_before_static (n s : Z) (o o0 : order) :
  static o0 = static o -> issued_before n s o0 -> issued_before n s o.
Proof.
  intros E [H1 H2]. unfold issued_before.
  rewrite <- (static_order_id _ _ E).
  assert (sequence o0 = sequence o) by (by injection E). lia.
Qed.

Lemma issued_before_mono (n s n' s' : Z) (o : order) :
  (n <= n')%Z -> (s <= s')%Z -> issued_before n s o -> issued_before n' s' o.
Proof. unfold issued_before. lia. Qed.

Lemma collection_ordered_mono (n s n' s' : Z) (l : list order) :
  (n <= n')%Z -> (s <= s')%Z ->
  collection_ordered n s l -> collection_ordered n' s' l.
Proof.
  intros Hn Hs [H1 H2]. split; [done|].
  eapply Forall_impl; [exact H2|]. intros o. by apply issued_before_mono.
Qed.

Lemma collection_ordered_derived (n s : Z) (l0 l l' : list order) (c : list nat) :
  static <$> l = static <$> l0 -> l' = settle l c ->
  collection_ordered n s l0 -> collection_ordered n s l'.
Proof.
  intros E -> [H1 H2]. split.
  - apply in_arrival_order_settle. by apply (in_arrival_order_static l0).
  - apply Forall_forall. intros o Ho.
    destruct (settle_derived l0 l c E o Ho) as (o0 & Ho0 & E0).
    apply (issued_before_static n s o o0 E0).
    by apply (proj1 (Forall_forall _ _) H2).
Qed.

Lemma match_lists_ordered (n s : Z) (fuel : nat)
    (buys sells buys' sells' : list order) (ms ms' : list match_record) :
  collection_ordered n s buys -> collection_ordered n s sells ->
  match_lists fuel buys sells ms = Ret (buys', sells', ms') ->
  collection_ordered n s buys' /\ collection_ordered n s sells'.
Proof.
  intros Hb Hs. unfold match_lists.
  destruct (negb (nonempty buys) || negb (nonempty sells)).
  - intros H. by injection H as <- <- <-.
  - intros H. apply bind_Ret in H as (st & Hst & H). injection H as <- <- <-.
    apply crossing_loop_static in Hst as (Eb & Es & _).
    split; [by apply (collection_ordered_derived n s buys (cur_buys st) _
                        (completed_buys st))
           |by apply (collection_ordered_derived n s sells (cur_sells st) _
                        (completed_sells st))].
Qed.

Lemma match_tickers_ordered (n s : Z) (fuel : nat) (idxs : list nat)
    (ob ob' : order_book) (ms ms' : list match_record) :
  Forall (collection_ordered n s) (buy_orders ob) ->
  Forall (collection_ordered n s) (sell_orders ob) ->
  match_tickers fuel idxs ob ms = Ret (ob', ms') ->
  Forall (collection_ordered n s) (buy_orders ob')
  /\ Forall (collection_ordered n s) (sell_orders ob').
Proof.
  revert ob ms. induction idxs as [|t rest IH]; intros ob ms Hb Hs H; simpl in H.
  - by injection H as <- <-.
  - apply bind_Ret in H as ([ob1 ms1] & H1 & H). simpl in H.
    apply match_ticker_Ret in H1
      as [(_ & -> & _)
         |(sym & buys & sells & buys' & sells' & _ & Hbuys & Hsells & Hrun & ->)];
      [by apply (IH ob ms1)|].
    assert (Hob : collection_ordered n s buys).
    { apply (proj1 (Forall_forall _ _) Hb). apply list_elem_of_lookup. eauto. }
    assert (Hos : collection_ordered n s sells).
    { apply (proj1 (Forall_forall _ _) Hs). apply list_elem_of_lookup. eauto. }
    destruct (match_lists_ordered n s fuel _ _ _ _ _ _ Hob Hos Hrun) as [Hb' Hs'].
    apply (IH (store ob t buys' sells') ms1); [| |done]; simpl;
      by apply Forall_insert.
Qed.

Lemma collection_ordered_snoc (n s : Z) (l : list order) (o : order) :
  collection_ordered n s l -> order_id o = n -> sequence o = (s + 1)%Z ->
  collection_ordered (n + 1) (s + 1) (l ++ [o]).
Proof.
  intros [H1 H2] Hid Hseq. split.
  - apply in_arrival_order_snoc; [done|].
    eapply Forall_impl; [exact H2|]. intros a [Ha1 Ha2]. unfold earlier. lia.
  - apply Forall_app. split.
    + eapply Forall_impl; [exact H2|]. intros a.
      apply issued_before_mono; lia.
    + apply Forall_singleton. unfold issued_before. lia.
Qed.

Lemma add_order_ordered (order_sequence : Z) (ob : order_book)
    (ty : Z) (t : string) (q p : Z) (r seq' : Z) (ob' : order_book) :
  arrival_ordered (order_sequence, ob) ->
  add_order order_sequence ob ty t q p = Ret (r, seq', ob') ->
  arrival_ordered (seq', ob').
Proof.
  intros [Hb Hs] H. simpl in Hb, Hs.
  assert (Hmono : forall ls,
            Forall (collection_ordered (next_order_id ob) order_sequence) ls ->
            Forall (collection_ordered (next_order_id ob + 1)
                      (order_sequence + 1)) ls).
  { intros ls Hls. eapply Forall_impl; [exact Hls|]. intros l.
    apply collection_ordered_mono; lia. }
  apply add_order_Ret in H
    as (-> & Hn & [[Eb Es]|[(i & l & Hl & Eb & Es)|(i & l & Hl & Es & Eb)]]);
    unfold arrival_ordered; simpl; rewrite Hn, Eb, Es; split;
    try (by apply Hmono).
  - apply Forall_insert; [by apply Hmono|].
    apply collection_ordered_snoc; [|done|done].
    apply (proj1 (Forall_forall _ _) Hb). apply list_elem_of_lookup. eauto.
  - apply Forall_insert; [by apply Hmono|].
    apply collection_ordered_snoc; [|done|done].
    apply (proj1 (Forall_forall _ _) Hs). apply list_elem_of_lookup. eauto.
Qed.

Lemma do_call_ordered (s s' : Z * order_book) (c : call) :
  arrival_ordered s -> do_call s c = Ret s' -> arrival_ordered s'.
Proof.
  destruct s as [sq ob]. destruct c as [ty t q p|fuel]; simpl; intros Ho H.
  - apply bind_Ret in H as ([[r seq'] ob'] & Hr & H). injection H as <-.
    by apply (add_order_ordered sq ob ty t q p r seq' ob').
  - apply bind_Ret in H as ([ob' ms] & Hr & H). injection H as <-.
    destruct Ho as [Hb Hs]. simpl in Hb, Hs.
    pose proof (match_tickers_frame _ _ _ _ _ _ Hr) as (_ & _ & Hn & _).
    unfold arrival_ordered. simpl. rewrite Hn.
    by apply (match_tickers_ordered _ _ fuel (seq 0 (ticker_count ob)) ob ob' [] ms).
Qed.

(** X13. In every collection the resting orders stay in arrival order:
    if each collection of the book lists its orders with strictly
    increasing order ids and sequence numbers, all issued before the
    current values of the two counters, the same is true after any
    sequence of submissions and matching passes (a submission appends at
    the end with a fresh id and sequence number; the compaction of a pass
    keeps the relative order of the orders that remain). *)
Theorem collections_stay_in_arrival_order
    (s s' : Z * order_book) (calls : list call) :
  arrival_ordered s -> run s calls = Ret s' -> arrival_ordered s'.
Proof.
  revert s. induction calls as [|c rest IH]; intros s Ho H; simpl in H.
  - by injection H as <-.
  - apply bind_Ret in H as (s1 & H1 & H).
    apply (IH s1); [|done]. by apply (do_call_ordered s s1 c).
Qed.

Lemma create_order_book_ordered (n : nat) (order_sequence : Z) :
  arrival_ordered (order_sequence, create_order_book n).
Proof.
  unfold arrival_ordered. simpl.
  split; apply Forall_replicate; split; simpl; done.
Qed.

Lemma collections_stay_in_arrival_order_witness :
  arrival_ordered (3%Z, crossing_book_after).
Proof.
  apply (collections_stay_in_arrival_order (0%Z, create_order_book 2)
           (3%Z, crossing_book_after)
           [Submit BUY "ACME" 10 10; Submit BUY "ACME" 10 10;
            Submit SELL "ACME" 5 9; MatchPass 3]).
  - apply create_order_book_ordered.
  - reflexivity.
Defined.

(** ** Sequences of calls with positive quantities *)

Lemma do_call_keeps_wf_positive (s s' : Z * order_book) (c : call) :
  wf_book (snd s) -> positive_book (snd s) -> positive_call c ->
  do_call s c = Ret s' -> wf_book (snd s') /\ positive_book (snd s').
Proof.
  destruct s as [sq ob]. destruct c as [ty t q p|fuel]; simpl;
    intros Hwf Hpos Hq H.
  - apply bind_Ret in H as ([[r seq'] ob'] & Hr & H). injection H as <-. simpl.
    split; [by apply (add_order_wf sq ob ty t q p r seq' ob')
           |by apply (add_order_positive sq ob ty t q p r seq' ob')].
  - apply bind_Ret in H as ([ob' ms] & Hr & H). injection H as <-. simpl.
    split; [by apply (match_orders_wf fuel ob ob' ms)|].
    by apply (match_tickers_positive fuel (seq 0 (ticker_count ob)) ob ob' [] ms).
Qed.

(** X14. Any sequence of submissions with positive quantities and matching
    passes takes a well-formed book whose resting orders all have a
    positive quantity to a book of the same kind; the count of the global
    sequence and the next order id never go down. *)
Theorem calls_keep_book_well_formed_and_positive
    (s s' : Z * order_book) (calls : list call) :
  wf_book (snd s) -> positive_book (snd s) -> Forall positive_call calls ->
  run s calls = Ret s' ->
  wf_book (snd s') /\ positive_book (snd s')
  /\ (fst s <= fst s')%Z /\ (next_order_id (snd s) <= next_order_id (snd s'))%Z.
Proof.
  revert s. induction calls as [|c rest IH]; intros s Hwf Hpos Hcalls H;
    simpl in H.
  - injection H as <-. split; [done|]. split; [done|]. lia.
  - apply bind_Ret in H as (s1 & H1 & H).
    apply Forall_cons in Hcalls as [Hc Hrest].
    destruct (do_call_keeps_wf_positive s s1 c Hwf Hpos Hc H1) as [Hwf1 Hpos1].
    destruct (IH s1 Hwf1 Hpos1 Hrest H) as (A & B & C & D).
    apply do_call_counters in H1 as [E F].
    split; [done|]. split; [done|]. lia.
Qed.

Lemma calls_keep_book_well_formed_and_positive_witness :
  wf_book crossing_book_after /\ positive_book crossing_book_after
  /\ (0 <= 3)%Z /\ (1 <= 4)%Z.
Proof.
  apply (calls_keep_book_well_formed_and_positive (0%Z, create_order_book 2)
           (3%Z, crossing_book_after)
           [Submit BUY "ACME" 10 10; Submit BUY "ACME" 10 10;
            Submit SELL "ACME" 5 9; MatchPass 3]).
  - apply create_order_book_wf.
  - split; simpl; repeat constructor.
  - repeat constructor; simpl; lia.
  - reflexivity.
Defined.

(** ** The generator of the simulation *)

(** X15. Whatever the seed, the next seed of the simulation's generator is
    the residue of [1103515245 * seed + 12345] modulo [2^31]; it lies
    between 0 and [0x7fffffff], the divisor used to scale it. *)
Theorem next_seed_range (seed : Z) :
  next_seed seed = ((1103515245 * seed + 12345) mod 2 ^ 31)%Z
  /\ (0 <= next_seed seed <= 2147483647)%Z.
Proof.
  unfold next_seed. change 2147483647%Z with (Z.ones 31).
  rewrite Z.land_ones by lia.
  pose proof (Z.mod_pos_bound (1103515245 * seed + 12345) (2 ^ 31) ltac:(lia)).
  split; [done|]. change (Z.ones 31) with (2 ^ 31 - 1)%Z. lia.
Qed.

Example next_seed_initial : next_seed 12345 = 1406932606%Z.
Proof. reflexivity. Qed.

(** ** The first match of a slot *)

Lemma crossing_loop_appends (fuel : nat) (st st' : loop_state) :
  crossing_loop fuel st = Ret st' ->
  exists more, matches st' = matches st ++ more.
Proof.
  intros H.
  apply (crossing_loop_invariant
           (fun st0 => exists more, matches st0 = matches st ++ more)
           ltac:(intros st0 Hst0; exact Hst0)) with (st := st) (fuel := fuel);
    [| |exact H].
  - intros st0 bi si buy sell [more Hm] _ _ _ _ _.
    unfold trade. simpl. rewrite Hm, <- app_assoc. eauto.
  - exists []. by rewrite app_nil_r.
Qed.

Lemma find_best_order_nonempty (orders : list order) (c : list nat)
    (f : Z -> Z -> bool) (i : nat) :
  find_best_order orders c f = Some i -> nonempty orders = true.
Proof. destruct orders; [discriminate | done]. Qed.

(** X16. The first match of a symbol is between its best buy and its best
    sell: when the best buy of a slot is priced at or above its best sell,
    the records that matching the slot produces begin with the record of
    these two orders, for the minimum of their quantities, at the sell
    order's price. *)
Theorem first_match_is_best_pair
    (fuel : nat) (ob ob_t : order_book) (new : list match_record) (t : nat)
    (sym : string) (buys sells : list order) (bi si : nat) (buy sell : order) :
  match_ticker fuel ob [] t = Ret (ob_t, new) ->
  ticker_symbols ob !! t = Some (Some sym) ->
  buy_orders ob !! t = Some buys -> sell_orders ob !! t = Some sells ->
  find_best_order buys [] Z.gtb = Some bi -> buys !! bi = Some buy ->
  find_best_order sells [] Z.ltb = Some si -> sells !! si = Some sell ->
  (price sell <= price buy)%Z ->
  exists rest,
    new = MatchRecord (order_id buy) (order_id sell) (ticker buy)
            (Z.min (quantity buy) (quantity sell)) (price sell) :: rest.
Proof.
  intros H Hsym Hb Hs Hbi Hbuy Hsi Hsell Hle.
  apply match_ticker_Ret in H
    as [(Hnone & _)
       |(s0 & buys0 & sells0 & buys' & sells' & _ & Hb0 & Hs0 & Hrun & _)];
    [congruence|].
  assert (buys0 = buys) by congruence. assert (sells0 = sells) by congruence.
  subst buys0 sells0. unfold match_lists in Hrun.
  rewrite (find_best_order_nonempty _ _ _ _ Hbi),
    (find_best_order_nonempty _ _ _ _ Hsi) in Hrun. simpl in Hrun.
  apply bind_Ret in Hrun as (st & Hst & Hrun). injection Hrun as _ _ <-.
  destruct fuel as [|fuel]; simpl in Hst.
  - unfold loop_condition in Hst. simpl in Hst.
    rewrite (find_best_order_nonempty _ _ _ _ Hbi),
      (find_best_order_nonempty _ _ _ _ Hsi) in Hst. discriminate.
  - unfold loop_condition in Hst. simpl in Hst.
    rewrite (find_best_order_nonempty _ _ _ _ Hbi),
      (find_best_order_nonempty _ _ _ _ Hsi) in Hst. simpl in Hst.
    unfold loop_body in Hst. simpl in Hst. rewrite Hbi, Hsi in Hst.
    unfold index in Hst. rewrite Hbuy, Hsell in Hst. simpl in Hst.
    assert (Hge : (price buy >=? price sell)%Z = true)
      by (rewrite Z.geb_leb; by apply Z.leb_le).
    rewrite Hge in Hst. simpl in Hst.
    apply crossing_loop_appends in Hst as [more Hm].
    exists more. rewrite Hm. reflexivity.
Qed.

Lemma first_match_is_best_pair_witness :
  exists rest,
    [MatchRecord 1 3 "ACME" 4 9]
    = MatchRecord (order_id (Order BUY "ACME" 10 10 1 1))
        (order_id (Order SELL "ACME" 4 9 3 3))
        (ticker (Order BUY "ACME" 10 10 1 1))
        (Z.min (quantity (Order BUY "ACME" 10 10 1 1))
               (quantity (Order SELL "ACME" 4 9 3 3)))
        (price (Order SELL "ACME" 4 9 3 3)) :: rest.
Proof.
  apply (first_match_is_best_pair 5 deep_book deep_book_after
           [MatchRecord 1 3 "ACME" 4 9] 0 "ACME"
           [Order BUY "ACME" 10 10 1 1; Order BUY "ACME" 3 8 2 2]
           [Order SELL "ACME" 4 9 3 3; Order SELL "ACME" 5 12 4 4] 0 0);
    try reflexivity.
  simpl. lia.
Defined.

(** ** One buy against one sell *)

Lemma match_lists_single_pair (fuel : nat) (b s : order) :
  (price s <= price b)%Z ->
  match_lists (S (S fuel)) [b] [s] []
  = Ret (if (quantity b <=? quantity s)%Z then []
         else [set_quantity b (quantity b - quantity s)],
         if (quantity s <=? quantity b)%Z then []
         else [set_quantity s (quantity s - quantity b)],
         [MatchRecord (order_id b) (order_id s) (ticker b)
            (Z.min (quantity b) (quantity s)) (price s)]).
Proof.
  intros Hle.
  assert (Hge : (price b >=? price s)%Z = true)
    by (rewrite Z.geb_leb; by apply Z.leb_le).
  unfold match_lists. simpl. unfold loop_body, find_best_order. simpl.
  rewrite Hge. cbn [mbind outcome_bind].
  unfold trade. cbn [cur_buys cur_sells completed_buys completed_sells matches
    continue_matching set_continue start_state quantity set_quantity].
  destruct (Z.lt_trichotomy (quantity b) (quantity s)) as [Hlt|[Heq|Hgt]].
  - assert (Em : Z.min (quantity b) (quantity s) = quantity b) by lia.
    rewrite Em. rewrite Z.sub_diag.
    assert (E1 : (quantity s - quantity b =? 0)%Z = false) by (apply Z.eqb_neq; lia).
    assert (E2 : (quantity b <=? quantity s)%Z = true) by (apply Z.leb_le; lia).
    assert (E3 : (quantity s <=? quantity b)%Z = false) by (apply Z.leb_gt; lia).
    rewrite E1, E2, E3. reflexivity.
  - rewrite Heq. rewrite Z.min_id, Z.sub_diag, Z.leb_refl. reflexivity.
  - assert (Em : Z.min (quantity b) (quantity s) = quantity s) by lia.
    rewrite Em. rewrite Z.sub_diag.
    assert (E1 : (quantity b - quantity s =? 0)%Z = false) by (apply Z.eqb_neq; lia).
    assert (E2 : (quantity b <=? quantity s)%Z = false) by (apply Z.leb_gt; lia).
    assert (E3 : (quantity s <=? quantity b)%Z = true) by (apply Z.leb_le; lia).
    rewrite E1, E2, E3. reflexivity.
Qed.

(** X17. Partial fill.  When the slot of a symbol holds one buy order and
    one sell order and the buy is priced at or above the sell, matching the
    slot produces exactly one record, for the minimum of the two
    quantities at the sell order's price; the order with the smaller
    quantity is removed, the other stays with the difference, and both are
    removed when the quantities are equal. *)
Theorem single_pair_is_filled_once
    (fuel : nat) (ob : order_book) (t : nat) (sym : string) (b s : order) :
  (2 <= fuel)%nat ->
  ticker_symbols ob !! t = Some (Some sym) ->
  buy_orders ob !! t = Some [b] -> sell_orders ob !! t = Some [s] ->
  (price s <= price b)%Z ->
  exists ob_t,
    match_ticker fuel ob [] t
    = Ret (ob_t,
           [MatchRecord (order_id b) (order_id s) (ticker b)
              (Z.min (quantity b) (quantity s)) (price s)])
    /\ buy_orders ob_t !! t
       = Some (if (quantity b <=? quantity s)%Z then []
               else [set_quantity b (quantity b - quantity s)])
    /\ sell_orders ob_t !! t
       = Some (if (quantity s <=? quantity b)%Z then []
               else [set_quantity s (quantity s - quantity b)]).
Proof.
  intros Hfuel Hsym Hb Hs Hle.
  destruct fuel as [|[|fuel]]; [lia | lia |].
  eexists. split.
  - apply (match_ticker_run (S (S fuel)) ob [] _ t sym [b] [s]); try done.
    by apply match_lists_single_pair.
  - by apply (store_lookup_eq ob t _ _ [b] [s]).
Qed.

Lemma single_pair_is_filled_once_witness :
  exists ob_t,
    match_ticker 2 apart_book_crossed [] 0
    = Ret (ob_t, [MatchRecord 1 2 "ACME" 4 9])
    /\ buy_orders ob_t !! 0%nat = Some [Order BUY "ACME" 6 10 1 1]
    /\ sell_orders ob_t !! 0%nat = Some [].
Proof.
  apply (single_pair_is_filled_once 2 apart_book_crossed 0 "ACME"
           (Order BUY "ACME" 10 10 1 1) (Order SELL "ACME" 4 9 2 2)).
  - lia.
  - reflexivity.
  - reflexivity.
  - reflexivity.
  - simpl. lia.
Defined.
